(** * Kenya Law MCP: citation parsing, document resolution, validation,
      formatting and the AKN HTML extractor

    A shallow embedding of the TypeScript sources

      - [src/tools/format-citation.ts]   (formatCitationTool)
      - [src/tools/validate-citation.ts] (parseCitation, validateCitationTool)
      - [src/utils/statute-id.ts]        (resolveDocumentId)
      - [src/utils/metadata.ts]          (generateResponseMetadata)
      - [scripts/lib/parser.ts]          (stripHtml, extractChapter,
                                          extractSectionNumber, extractSectionTitle,
                                          parseKenyaLawHtml, extractDefinitions,
                                          KEY_KENYAN_ACTS)
      - [scripts/lib/fetcher.ts]         (rateLimit, fetchWithRateLimit)
      - [scripts/ingest.ts]              (parseArgs, fetchAndParseActs, main)

    JavaScript strings are sequences of UTF-16 code units; they are modelled
    as lists of code units ([N]).  The regular expressions of the sources
    are written as values of a small regex syntax and run by a backtracking
    matcher that follows the ECMAScript matching order (greedy and lazy
    quantifiers, ordered alternation, leftmost match).  The SQLite store is
    modelled as lists of rows in the order a table scan returns them. *)

From Stdlib Require Import String Ascii.
From Stdlib Require Import List Bool Arith NArith Lia.
From Stdlib Require Import ZArith DecimalString DecimalNat.
Import ListNotations.

Set Implicit Arguments.

(** ** JavaScript strings *)

Module JS.

Definition char := N.
Definition jsstring := list char.

(** A source literal written with ASCII characters only. *)
Definition str (s : string) : jsstring :=
  List.map N_of_ascii (list_ascii_of_string s).
Arguments str s%_string.

(** The double quote, which cannot be written inside [str]. *)
Definition dq : char := 34%N.

Definition ceqb (a b : char) : bool := N.eqb a b.

Fixpoint seqb (a b : jsstring) : bool :=
  match a, b with
  | [], [] => true
  | x :: a', y :: b' => ceqb x y && seqb a' b'
  | _, _ => false
  end.

Definition in_range (lo hi c : char) : bool := (N.leb lo c && N.leb c hi)%bool.

(** WhiteSpace and LineTerminator code units of ECMAScript: what
    [String.prototype.trim] removes and what [\s] matches. *)
Definition is_space (c : char) : bool :=
  in_range 9%N 13%N c || ceqb c 32%N || ceqb c 160%N || ceqb c 5760%N
  || in_range 8192%N 8202%N c || ceqb c 8232%N || ceqb c 8233%N
  || ceqb c 8239%N || ceqb c 8287%N || ceqb c 12288%N || ceqb c 65279%N.

(** Line terminators, which [.] does not match. *)
Definition is_line_terminator (c : char) : bool :=
  ceqb c 10%N || ceqb c 13%N || ceqb c 8232%N || ceqb c 8233%N.

Definition is_digit (c : char) : bool := in_range 48%N 57%N c.

Definition ascii_upper (c : char) : char :=
  if in_range 97%N 122%N c then (c - 32)%N else c.

Definition ascii_lower (c : char) : char :=
  if in_range 65%N 90%N c then (c + 32)%N else c.

Fixpoint trimStart (s : jsstring) : jsstring :=
  match s with
  | c :: s' => if is_space c then trimStart s' else s
  | [] => []
  end.

Definition trimEnd (s : jsstring) : jsstring := rev (trimStart (rev s)).

(** [String.prototype.trim] *)
Definition trim (s : jsstring) : jsstring := trimEnd (trimStart s).

Fixpoint startsWith (s p : jsstring) : bool :=
  match p, s with
  | [], _ => true
  | a :: p', b :: s' => ceqb a b && startsWith s' p'
  | _ :: _, [] => false
  end.

(** [String.prototype.includes] *)
Fixpoint includes (s sub : jsstring) : bool :=
  startsWith s sub ||
  match s with
  | [] => false
  | _ :: s' => includes s' sub
  end.

(** [String.prototype.substring] with its clamping and swapping of the
    two indices. *)
Definition substring (a b : nat) (s : jsstring) : jsstring :=
  let a' := Nat.min a (length s) in
  let b' := Nat.min b (length s) in
  firstn (Nat.max a' b' - Nat.min a' b') (skipn (Nat.min a' b') s).

(** [String.prototype.toLowerCase].  Code units outside ASCII are left
    as they are: the sources only search the lowered title for the ASCII
    words [interpretation] and [definition]. *)
Definition toLowerCase (s : jsstring) : jsstring := List.map ascii_lower s.

(** [s.split(sep)[0]] for a one-character separator. *)
Fixpoint split_head (sep : char) (s : jsstring) : jsstring :=
  match s with
  | [] => []
  | c :: s' => if ceqb c sep then [] else c :: split_head sep s'
  end.

(** Truthiness of a string value. *)
Definition truthy (s : jsstring) : bool :=
  match s with [] => false | _ => true end.

End JS.
Import JS.

(** ** Regular expressions *)

Module Regex.

Inductive citem : Type :=
| CChar (c : char)            (* a single character *)
| CRange (lo hi : char)       (* [lo-hi] *)
| CSpace                      (* \s *)
| CDigit.                     (* \d *)

Inductive regex : Type :=
| Eps
| Chr (c : char)                          (* literal character *)
| Any                                     (* . *)
| Cls (neg : bool) (items : list citem)   (* [...] and [^...] *)
| Seq (r1 r2 : regex)
| Alt (r1 r2 : regex)                     (* r1|r2, r1 tried first *)
| Star (greedy : bool) (r : regex)        (* r* and r*? *)
| Group (n : nat) (r : regex)             (* n-th capture group *)
| Bol                                     (* ^ *)
| Eol.                                    (* $ *)

(** Derived forms. *)
Definition Plus (greedy : bool) (r : regex) : regex := Seq r (Star greedy r).
Definition Opt (r : regex) : regex := Alt r Eps.
Definition Space : regex := Cls false [CSpace].
Definition Digit : regex := Cls false [CDigit].

Fixpoint lit (s : jsstring) : regex :=
  match s with
  | [] => Eps
  | [c] => Chr c
  | c :: s' => Seq (Chr c) (lit s')
  end.

(** Concatenation and ordered alternation of several patterns. *)
Fixpoint cat (rs : list regex) : regex :=
  match rs with
  | [] => Eps
  | [r] => r
  | r :: rs' => Seq r (cat rs')
  end.

Fixpoint alts (rs : list regex) : regex :=
  match rs with
  | [] => Cls false []
  | [r] => r
  | r :: rs' => Alt r (alts rs')
  end.

(** Captures: group number and captured text. *)
Definition caps := list (nat * jsstring).

Fixpoint get_cap (n : nat) (c : caps) : option jsstring :=
  match c with
  | [] => None
  | (m, s) :: c' => if Nat.eqb n m then Some s else get_cap n c'
  end.

Section Matcher.

(** The [i] flag.  Canonicalisation is ASCII case folding: every literal
    and class of the sources' patterns is ASCII or a caseless quotation
    mark, so no character outside ASCII canonicalises onto one of them. *)
Variable icase : bool.

Definition canon (c : char) : char := if icase then ascii_upper c else c.

Definition char_match (p c : char) : bool := ceqb (canon p) (canon c).

Definition item_match (it : citem) (c : char) : bool :=
  match it with
  | CChar p => char_match p c
  | CRange lo hi =>
      in_range lo hi c ||
      (icase && (in_range lo hi (ascii_upper c) || in_range lo hi (ascii_lower c)))
  | CSpace => is_space c
  | CDigit => is_digit c
  end.

Definition class_match (neg : bool) (items : list citem) (c : char) : bool :=
  xorb neg (existsb (fun it => item_match it c) items).

(** State of a match attempt: index reached, remaining input, captures. *)
Definition cont (R : Type) := nat -> jsstring -> caps -> option R.

(** One quantified sub-pattern, [body], repeated: the greedy form tries one
    more iteration before going on with [k], the lazy form goes on with [k]
    first.  An iteration that consumes nothing is rejected, as in
    ECMAScript, so [fuel] one above the length of the input is never
    exhausted. *)
Definition star_loop (R : Type)
  (body : nat -> jsstring -> caps -> cont R -> option R)
  (greedy : bool) (k : cont R)
  : nat -> nat -> jsstring -> caps -> option R :=
  fix loop (fuel : nat) (pos : nat) (s : jsstring) (c : caps) {struct fuel}
    : option R :=
    match fuel with
    | O => k pos s c
    | S fuel' =>
        let again :=
          body pos s c
            (fun p' s' c' => if Nat.eqb p' pos then None else loop fuel' p' s' c') in
        if greedy then
          match again with
          | Some x => Some x
          | None => k pos s c
          end
        else
          match k pos s c with
          | Some x => Some x
          | None => again
          end
    end.

(** Backtracking matcher in continuation-passing style.  [k] is what is
    left of the pattern; [None] makes the matcher try its next choice. *)
Fixpoint run (R : Type) (r : regex) (pos : nat) (s : jsstring) (c : caps)
  (k : cont R) {struct r} : option R :=
  match r with
  | Eps => k pos s c
  | Chr p =>
      match s with
      | x :: s' => if char_match p x then k (S pos) s' c else None
      | [] => None
      end
  | Any =>
      match s with
      | x :: s' => if is_line_terminator x then None else k (S pos) s' c
      | [] => None
      end
  | Cls neg items =>
      match s with
      | x :: s' => if class_match neg items x then k (S pos) s' c else None
      | [] => None
      end
  | Seq r1 r2 => run r1 pos s c (fun p' s' c' => run r2 p' s' c' k)
  | Alt r1 r2 =>
      match run r1 pos s c k with
      | Some x => Some x
      | None => run r2 pos s c k
      end
  | Star greedy r' =>
      star_loop (fun pos s c k => run r' pos s c k) greedy k (S (length s)) pos s c
  | Group n r' =>
      run r' pos s c (fun p' s' c' => k p' s' ((n, firstn (p' - pos) s) :: c'))
  | Bol => if Nat.eqb pos 0 then k pos s c else None
  | Eol => match s with [] => k pos s c | _ :: _ => None end
  end.

(** A successful match: where it starts and ends, and its captures. *)
Record mres : Type := MRes {
  m_index : nat;
  m_end : nat;
  m_caps : caps
}.

Definition match_at (r : regex) (pos : nat) (s : jsstring) : option mres :=
  run r pos s [] (fun p' _ c' => Some (MRes pos p' c')).

(** Leftmost match at or after [pos], [s] being the input from [pos] on. *)
Fixpoint search_from (r : regex) (pos : nat) (s : jsstring) : option mres :=
  match match_at r pos s with
  | Some m => Some m
  | None =>
      match s with
      | [] => None
      | _ :: s' => search_from r (S pos) s'
      end
  end.

(** [RegExp.prototype.exec] on a regex without the [g] flag, and
    [String.prototype.match] likewise. *)
Definition exec (r : regex) (s : jsstring) : option mres := search_from r 0 s.

(** The n-th capture of a match result: [m[n]].  Every capture group of
    the sources' patterns lies outside all alternations and quantifiers, so
    it takes part in every match and [m[n]] is never [undefined]. *)
Definition group (n : nat) (m : mres) : jsstring :=
  match get_cap n (m_caps m) with
  | Some g => g
  | None => []
  end.

(** The matched text: [m[0]]. *)
Definition whole (s : jsstring) (m : mres) : jsstring :=
  substring (m_index m) (m_end m) s.

(** All matches of a [g] regex, left to right, each search resuming where
    the previous match ended (one further when the match is empty) and
    stopping once that is beyond the end of the input.  [s] is the input
    from [pos] on; every round moves on by at least one character, so
    [fuel] one above the length of the input is never exhausted. *)
Fixpoint exec_all_from (fuel : nat) (r : regex) (pos : nat) (s : jsstring)
  : list mres :=
  match fuel with
  | O => []
  | S fuel' =>
      match search_from r pos s with
      | None => []
      | Some m =>
          let next := if Nat.eqb (m_end m) (m_index m) then S (m_end m) else m_end m in
          m :: (if Nat.leb (next - pos) (length s)
                then exec_all_from fuel' r next (skipn (next - pos) s)
                else [])
      end
  end.

Definition exec_all (r : regex) (s : jsstring) : list mres :=
  exec_all_from (S (length s)) r 0 s.

(** [s.match(r)] for a [g] regex: the matched texts. *)
Definition match_all (r : regex) (s : jsstring) : list jsstring :=
  List.map (whole s) (exec_all r s).

(** [s.replace(r, by)] for a regex without the [g] flag. *)
Definition replace_first (r : regex) (by_ : jsstring) (s : jsstring) : jsstring :=
  match exec r s with
  | None => s
  | Some m => firstn (m_index m) s ++ by_ ++ skipn (m_end m) s
  end.

(** [s.replace(r, by)] for a [g] regex. *)
Fixpoint splice (pos : nat) (s : jsstring) (by_ : jsstring) (ms : list mres)
  : jsstring :=
  match ms with
  | [] => s
  | m :: ms' =>
      firstn (m_index m - pos) s ++ by_ ++
      splice (m_end m) (skipn (m_end m - pos) s) by_ ms'
  end.

Definition replace_all (r : regex) (by_ : jsstring) (s : jsstring) : jsstring :=
  splice 0 s by_ (exec_all r s).

End Matcher.

End Regex.
Import Regex.

(** Nullish coalescing [a ?? b] on optional values. *)
Definition nullish (A : Type) (a b : option A) : option A :=
  match a with
  | Some x => Some x
  | None => b
  end.

(** Optional chaining [m?.[n]] on a match result. *)
Definition group_of (n : nat) (m : option mres) : option jsstring :=
  match m with
  | Some r => Some (group n r)
  | None => None
  end.

(** ** Patterns shared by the citation parser and the formatter *)

Module Patterns.

Definition letters : regex := Cls false [CRange 65%N 90%N; CRange 97%N 122%N].

(** NUM is [\d+[A-Za-z]*]. *)
Definition num : regex := cat [Plus true Digit; Star true letters].

(** [(?:Section|s|sec\.?)] *)
Definition sec_kw : regex :=
  alts [lit (str "Section"); lit (str "s"); cat [lit (str "sec"); Opt (Chr 46%N)]].

(** [(?:Article|Art\.?)] *)
Definition art_kw : regex :=
  alts [lit (str "Article"); cat [lit (str "Art"); Opt (Chr 46%N)]].

(** [(?:,|of(?:\s+the)?)] *)
Definition of_sep : regex :=
  alts [Chr 44%N; cat [lit (str "of"); Opt (cat [Plus true Space; lit (str "the")])]].

(** [[,;]?] *)
Definition comma_opt : regex := Opt (Cls false [CChar 44%N; CChar 59%N]).

(** [/^KW\s*(NUM)\s*(?:,|of(?:\s+the)?)\s+(.+)$/i] *)
Definition parse_first (kw : regex) : regex :=
  cat [Bol; kw; Star true Space; Group 1 num; Star true Space; of_sep;
       Plus true Space; Group 2 (Plus true Any); Eol].

(** [/^(.+?)[,;]?\s*KW\s*(NUM)$/i] *)
Definition last (kw : regex) : regex :=
  cat [Bol; Group 1 (Plus false Any); comma_opt; Star true Space; kw;
       Star true Space; Group 2 num; Eol].

(** [/^KW\s*(NUM)\s*[,;]?\s+(.+)$/i] *)
Definition format_first (kw : regex) : regex :=
  cat [Bol; kw; Star true Space; Group 1 num; Star true Space; comma_opt;
       Plus true Space; Group 2 (Plus true Any); Eol].

(** [/^the\s+/i] *)
Definition leading_the : regex := cat [Bol; lit (str "the"); Plus true Space].

End Patterns.

(** ** format_citation *)

Module FormatCitation.

Inductive Format : Type := full | short | pinpoint.

Record FormatCitationInput : Type := {
  fi_citation : jsstring;
  fi_format : option Format
}.

Record FormatCitationResult : Type := {
  original : jsstring;
  formatted : jsstring;
  format : Format
}.

Definition secFirst (trimmed : jsstring) : option mres :=
  exec true (Patterns.format_first Patterns.sec_kw) trimmed.
Definition secLast (trimmed : jsstring) : option mres :=
  exec true (Patterns.last Patterns.sec_kw) trimmed.
Definition artFirst (trimmed : jsstring) : option mres :=
  exec true (Patterns.format_first Patterns.art_kw) trimmed.
Definition artLast (trimmed : jsstring) : option mres :=
  exec true (Patterns.last Patterns.art_kw) trimmed.

Definition is_some (A : Type) (o : option A) : bool :=
  match o with Some _ => true | None => false end.

Definition formatCitationTool (input : FormatCitationInput) : FormatCitationResult :=
  let format := match fi_format input with Some f => f | None => full end in
  let trimmed := trim (fi_citation input) in
  let secFirst := secFirst trimmed in
  let secLast := secLast trimmed in
  let artFirst := artFirst trimmed in
  let artLast := artLast trimmed in
  let section :=
    nullish (group_of 1 secFirst)
      (nullish (group_of 2 secLast)
         (nullish (group_of 1 artFirst) (group_of 2 artLast))) in
  let law :=
    match nullish (group_of 2 secFirst)
            (nullish (group_of 1 secLast)
               (nullish (group_of 2 artFirst) (group_of 1 artLast))) with
    | Some l => l
    | None => trimmed
    end in
  let isArticle := is_some artFirst || is_some artLast in
  let prefix := if isArticle then str "Article" else str "Section" in
  let formatted :=
    match format with
    | short =>
        match section with
        | Some sec =>
            if truthy sec
            then str "s " ++ sec ++ str ", " ++ trim (split_head 40%N law)
            else law
        | None => law
        end
    | pinpoint =>
        match section with
        | Some sec => if truthy sec then str "s " ++ sec else law
        | None => law
        end
    | full =>
        match section with
        | Some sec =>
            if truthy sec then prefix ++ str " " ++ sec ++ str ", " ++ law else law
        | None => law
        end
    end in
  {| original := fi_citation input; formatted := formatted; format := format |}.

End FormatCitation.
Import FormatCitation.

(** ** The SQLite store *)

Module Store.

(** A row of [legal_documents], with the columns the queries read. *)
Record DocumentRow : Type := {
  doc_id : jsstring;
  doc_title : jsstring;
  doc_title_en : jsstring;
  doc_short_name : jsstring;
  doc_status : jsstring
}.

(** A row of [legal_provisions]. *)
Record ProvisionRow : Type := {
  prov_document_id : jsstring;
  prov_provision_ref : jsstring;
  prov_section : jsstring
}.

(** The tables, each in the order a scan returns its rows.  [db_metadata]
    is [None] when querying it raises. *)
Record Database : Type := {
  legal_documents : list DocumentRow;
  legal_provisions : list ProvisionRow;
  db_metadata : option (list (jsstring * jsstring))
}.

(** SQL [=] on text values (binary collation). *)
Definition sql_eq (a b : jsstring) : bool := seqb a b.

(** SQL [LOWER]: SQLite folds the ASCII letters only. *)
Definition sql_lower (s : jsstring) : jsstring := List.map ascii_lower s.

(** SQL [text LIKE pattern] as SQLite evaluates it by default: [%] matches
    any run of characters, [_] any one character, and every other
    character matches itself with upper and lower case ASCII letters
    identified.

    This is the value of [LIKE] when SQLite computes one.  Three things
    SQLite does are outside it: a pattern of more than 50,000 bytes makes
    the statement raise [LIKE or GLOB pattern too complex] instead of
    yielding a value; [_] stands for one code point, which is two code
    units for a character beyond the Basic Multilingual Plane; and text
    is read up to its first U+0000. *)
Fixpoint sql_like (pattern text : jsstring) {struct pattern} : bool :=
  match pattern with
  | [] => match text with [] => true | _ :: _ => false end
  | p :: pattern' =>
      if ceqb p 37%N then
        (fix any_run (t : jsstring) : bool :=
           sql_like pattern' t ||
           match t with
           | [] => false
           | _ :: t' => any_run t'
           end) text
      else
        match text with
        | [] => false
        | x :: text' =>
            (ceqb p 95%N || ceqb (ascii_upper p) (ascii_upper x))
            && sql_like pattern' text'
        end
  end.

(** [stmt.get(...)]: the first row the statement yields, if any. *)
Definition get (A : Type) (where_ : A -> bool) (table : list A) : option A :=
  List.find where_ table.

End Store.
Import Store.

(** ** Statute ID resolution *)

Module StatuteId.

(** [`%${trimmed}%`] *)
Definition wild (trimmed : jsstring) : jsstring := 37%N :: trimmed ++ [37%N].

(** [SELECT id FROM legal_documents WHERE id = ?] *)
Definition q_direct (db : Database) (x : jsstring) : option DocumentRow :=
  get (fun r => sql_eq (doc_id r) x) (legal_documents db).

(** [... WHERE LOWER(title) = LOWER(?) LIMIT 1] *)
Definition q_exactTitle (db : Database) (x : jsstring) : option DocumentRow :=
  get (fun r => sql_eq (sql_lower (doc_title r)) (sql_lower x)) (legal_documents db).

(** [... WHERE LOWER(short_name) = LOWER(?) LIMIT 1] *)
Definition q_shortName (db : Database) (x : jsstring) : option DocumentRow :=
  get (fun r => sql_eq (sql_lower (doc_short_name r)) (sql_lower x))
    (legal_documents db).

(** [... WHERE title LIKE ? OR short_name LIKE ? OR title_en LIKE ? LIMIT 1] *)
Definition q_title (db : Database) (p1 p2 p3 : jsstring) : option DocumentRow :=
  get (fun r => sql_like p1 (doc_title r) || sql_like p2 (doc_short_name r)
                || sql_like p3 (doc_title_en r))
    (legal_documents db).

(** [... WHERE LOWER(title) LIKE LOWER(?) OR LOWER(short_name) LIKE LOWER(?)
         OR LOWER(title_en) LIKE LOWER(?) LIMIT 1] *)
Definition q_lower (db : Database) (p1 p2 p3 : jsstring) : option DocumentRow :=
  get (fun r => sql_like (sql_lower p1) (sql_lower (doc_title r))
                || sql_like (sql_lower p2) (sql_lower (doc_short_name r))
                || sql_like (sql_lower p3) (sql_lower (doc_title_en r)))
    (legal_documents db).

Definition resolveDocumentId (db : Database) (input : jsstring) : option jsstring :=
  let trimmed := trim input in
  if negb (truthy trimmed) then None else
  match q_direct db trimmed with
  | Some directMatch => Some (doc_id directMatch)
  | None =>
  match q_exactTitle db trimmed with
  | Some exactTitle => Some (doc_id exactTitle)
  | None =>
  match q_shortName db trimmed with
  | Some shortNameMatch => Some (doc_id shortNameMatch)
  | None =>
  match q_title db (wild trimmed) (wild trimmed) (wild trimmed) with
  | Some titleResult => Some (doc_id titleResult)
  | None =>
  match q_lower db (wild trimmed) (wild trimmed) (wild trimmed) with
  | Some lowerResult => Some (doc_id lowerResult)
  | None => None
  end end end end end.

End StatuteId.
Import StatuteId.

(** ** Response metadata *)

Module Metadata.

Record ResponseMetadata : Type := {
  data_source : jsstring;
  jurisdiction : jsstring;
  disclaimer : jsstring;
  freshness : option jsstring
}.

Record ToolResponse (T : Type) : Type := {
  results : T;
  _metadata : ResponseMetadata
}.

Definition generateResponseMetadata (db : Database) : ResponseMetadata :=
  let freshness :=
    match db_metadata db with
    | Some rows =>
        match get (fun kv => sql_eq (fst kv) (str "built_at")) rows with
        | Some row => Some (snd row)
        | None => None
        end
    | None => None
    end in
  {| data_source :=
       str "Kenya Law (kenyalaw.org) " ++ [8212%N]
       ++ str " National Council for Law Reporting";
     jurisdiction := str "KE";
     disclaimer :=
       str "This data is sourced from Kenya Law under Government Open Data principles. "
       ++ str "The authoritative versions are in English. Swahili translations may be available for some documents. "
       ++ str "Always verify with the official Kenya Law portal (kenyalaw.org).";
     freshness := freshness |}.

End Metadata.
Import Metadata.

(** ** validate_citation *)

Module ValidateCitation.

Record ValidateCitationResult : Type := {
  valid : bool;
  citation : jsstring;
  normalized : option jsstring;
  document_id : option jsstring;
  document_title : option jsstring;
  provision_ref : option jsstring;
  status : option jsstring;
  warnings : list jsstring
}.

Record CitationParse : Type := {
  documentRef : jsstring;
  sectionRef : option jsstring
}.

(** [x.trim().replace(/^the\s+/i, '')] *)
Definition strip_the (x : jsstring) : jsstring :=
  replace_first true Patterns.leading_the [] (trim x).

(** The declared result type admits [null]; [None] stands for it. *)
Definition parseCitation (citation : jsstring) : option CitationParse :=
  let trimmed := trim citation in
  match exec true (Patterns.parse_first Patterns.sec_kw) trimmed with
  | Some secFirst =>
      Some {| documentRef := strip_the (group 2 secFirst);
              sectionRef := Some (group 1 secFirst) |}
  | None =>
  match exec true (Patterns.parse_first Patterns.art_kw) trimmed with
  | Some artFirst =>
      Some {| documentRef := strip_the (group 2 artFirst);
              sectionRef := Some (group 1 artFirst) |}
  | None =>
  match exec true (Patterns.last Patterns.sec_kw) trimmed with
  | Some secLast =>
      Some {| documentRef := trim (group 1 secLast);
              sectionRef := Some (group 2 secLast) |}
  | None =>
  match exec true (Patterns.last Patterns.art_kw) trimmed with
  | Some artLast =>
      Some {| documentRef := trim (group 1 artLast);
              sectionRef := Some (group 2 artLast) |}
  | None => Some {| documentRef := trimmed; sectionRef := None |}
  end end end end.

(** What a call can do: return a value, or raise a [TypeError] by reading
    a property of [undefined].  An error raised by the store itself (see
    [sql_like]) is not among the cases: the queries are taken to yield
    their rows. *)
Inductive Outcome (T : Type) : Type :=
| Returned (t : T)
| TypeError.
Arguments TypeError {T}.

Definition msg_parse : jsstring := str "Could not parse citation format".

Definition msg_not_found (documentRef : jsstring) : jsstring :=
  str "Document not found: " ++ [dq] ++ documentRef ++ [dq].

Definition msg_repealed : jsstring := str "WARNING: This statute has been repealed.".

Definition msg_amended : jsstring :=
  str "Note: This statute has been amended. Verify you are referencing the current version.".

Definition msg_suspended : jsstring :=
  str "Note: Certain sections of this statute have been suspended. Verify which sections are in force.".

Definition msg_no_provision (sectionRef title : jsstring) : jsstring :=
  str "Provision " ++ [dq] ++ sectionRef ++ [dq] ++ str " not found in " ++ title.

(** The advisory pushed for the document's status, if any. *)
Definition status_warnings (st : jsstring) : list jsstring :=
  if seqb st (str "repealed") then [msg_repealed]
  else if seqb st (str "amended") then [msg_amended]
  else if seqb st (str "partially_suspended") then [msg_suspended]
  else [].

(** [SELECT id, title, status FROM legal_documents WHERE id = ?] *)
Definition q_document (db : Database) (docId : jsstring) : option DocumentRow :=
  get (fun r => sql_eq (doc_id r) docId) (legal_documents db).

(** [SELECT provision_ref FROM legal_provisions WHERE document_id = ? AND
     (provision_ref = ? OR provision_ref = ? OR provision_ref = ? OR section = ?)] *)
Definition q_provision (db : Database) (docId a b c d : jsstring)
  : option ProvisionRow :=
  get (fun r => sql_eq (prov_document_id r) docId
                && (sql_eq (prov_provision_ref r) a || sql_eq (prov_provision_ref r) b
                    || sql_eq (prov_provision_ref r) c || sql_eq (prov_section r) d))
    (legal_provisions db).

Definition invalid (citation : jsstring) (w : list jsstring) : ValidateCitationResult :=
  {| valid := false; citation := citation; normalized := None;
     document_id := None; document_title := None; provision_ref := None;
     status := None; warnings := w |}.

Definition validateCitationTool (db : Database) (input : jsstring)
  : Outcome (ToolResponse ValidateCitationResult) :=
  match parseCitation input with
  | None =>
      Returned {| results := invalid input [msg_parse];
                  _metadata := generateResponseMetadata db |}
  | Some parsed =>
  let not_found :=
    Returned {| results := invalid input [msg_not_found (documentRef parsed)];
                _metadata := generateResponseMetadata db |} in
  match resolveDocumentId db (documentRef parsed) with
  | None => not_found
  | Some docId =>
  if negb (truthy docId) then not_found else
  match q_document db docId with
  | None => TypeError
  | Some doc =>
  let warnings := status_warnings (doc_status doc) in
  let has_section :=
    match sectionRef parsed with
    | Some sec => if truthy sec then Some sec else None
    | None => None
    end in
  match has_section with
  | Some sec =>
      match q_provision db docId sec (str "s" ++ sec) (str "art" ++ sec) sec with
      | None =>
          Returned {|
            results := {|
              valid := false; citation := input; normalized := None;
              document_id := Some docId; document_title := Some (doc_title doc);
              provision_ref := None; status := None;
              warnings := warnings ++ [msg_no_provision sec (doc_title doc)] |};
            _metadata := generateResponseMetadata db |}
      | Some provision =>
          Returned {|
            results := {|
              valid := true; citation := input;
              normalized := Some (str "Section " ++ sec ++ str ", " ++ doc_title doc);
              document_id := Some docId; document_title := Some (doc_title doc);
              provision_ref := Some (prov_provision_ref provision);
              status := Some (doc_status doc);
              warnings := warnings |};
            _metadata := generateResponseMetadata db |}
      end
  | None =>
      Returned {|
        results := {|
          valid := true; citation := input; normalized := Some (doc_title doc);
          document_id := Some docId; document_title := Some (doc_title doc);
          provision_ref := None; status := Some (doc_status doc);
          warnings := warnings |};
        _metadata := generateResponseMetadata db |}
  end end end end.

End ValidateCitation.
Import ValidateCitation.

(** ** The AKN HTML parser *)

Module Parser.

Inductive LifecycleStatus : Type :=
| in_force | amended | repealed | partially_suspended | not_yet_in_force.

Record ActIndexEntry : Type := {
  act_id : jsstring;
  act_title : jsstring;
  act_titleEn : jsstring;
  act_shortName : jsstring;
  act_status : LifecycleStatus;
  act_issuedDate : jsstring;
  act_inForceDate : jsstring;
  act_url : jsstring;
  act_aknNumber : jsstring;
  act_aknYear : jsstring;
  act_description : option jsstring
}.

Record ParsedProvision : Type := {
  provision_ref : jsstring;
  chapter : option jsstring;
  section : jsstring;
  title : jsstring;
  content : jsstring
}.

Record ParsedDefinition : Type := {
  term : jsstring;
  definition : jsstring;
  source_provision : option jsstring
}.

Record ParsedAct : Type := {
  id : jsstring;
  title_ : jsstring;
  title_en : jsstring;
  short_name : jsstring;
  status : LifecycleStatus;
  issued_date : jsstring;
  in_force_date : jsstring;
  url : jsstring;
  description : option jsstring;
  provisions : list ParsedProvision;
  definitions : list ParsedDefinition
}.

Definition not_char (c : char) : regex := Cls true [CChar c].

(** [/<[^>]+>/g] *)
Definition re_tag : regex := cat [Chr 60%N; Plus true (not_char 62%N); Chr 62%N].

(** Strip HTML tags and decode common entities, normalising whitespace. *)
Definition stripHtml (html : jsstring) : jsstring :=
  let s := replace_all false re_tag (str " ") html in
  let s := replace_all false (lit (str "&nbsp;")) (str " ") s in
  let s := replace_all false (lit (str "&amp;")) (str "&") s in
  let s := replace_all false (lit (str "&lt;")) (str "<") s in
  let s := replace_all false (lit (str "&gt;")) (str ">") s in
  let s := replace_all false (lit (str "&quot;")) [dq] s in
  let s := replace_all false (lit (str "&#39;")) (str "'") s in
  let s := replace_all false (Chr 160%N) (str " ") s in
  let s := replace_all false (Plus true Space) (str " ") s in
  trim s.

(** [/^part_([^_]+)__/] and [/^chp_([^_]+)__/] *)
Definition re_container (kind : jsstring) : regex :=
  cat [Bol; lit kind; Chr 95%N; Group 1 (Plus true (not_char 95%N)); lit (str "__")].

Definition extractChapter (sectionId : jsstring) : option jsstring :=
  match exec false (re_container (str "part")) sectionId with
  | Some partMatch => Some (str "Part " ++ group 1 partMatch)
  | None =>
      match exec false (re_container (str "chp")) sectionId with
      | Some chpMatch => Some (str "Chapter " ++ group 1 chpMatch)
      | None => None
      end
  end.

(** [/^(NUM)\.\s/] *)
Definition re_section_number : regex :=
  cat [Bol; Group 1 Patterns.num; Chr 46%N; Space].

Definition extractSectionNumber (heading : jsstring) : option jsstring :=
  match exec false re_section_number heading with
  | Some m => Some (group 1 m)
  | None => None
  end.

(** [/^NUM\.\s*/] *)
Definition re_section_prefix : regex :=
  cat [Bol; Patterns.num; Chr 46%N; Star true Space].

Definition extractSectionTitle (heading : jsstring) : jsstring :=
  trim (replace_first false re_section_prefix [] heading).

(** [/<section\s+class=\x22akn-section\x22\s+id=\x22([^\x22]+)\x22\s+data-eid=\x22[^\x22]*\x22>/g] *)
Definition sectionPattern : regex :=
  cat [lit (str "<section"); Plus true Space;
       lit (str "class=" ++ [dq] ++ str "akn-section" ++ [dq]); Plus true Space;
       lit (str "id=" ++ [dq]); Group 1 (Plus true (not_char dq)); Chr dq;
       Plus true Space;
       lit (str "data-eid=" ++ [dq]); Star true (not_char dq); Chr dq; Chr 62%N].

(** [/<h3>([^<]+)<\/h3>/] *)
Definition re_heading : regex :=
  cat [lit (str "<h3>"); Group 1 (Plus true (not_char 60%N)); lit (str "</h3>")].

(** [/<h3>[^<]*<\/h3>/] *)
Definition re_heading_opt : regex :=
  cat [lit (str "<h3>"); Star true (not_char 60%N); lit (str "</h3>")].

(** [/<span class=\x22akn-p\x22[^>]*>[^<]*<\/span>/g] *)
Definition re_p : regex :=
  cat [lit (str "<span class=" ++ [dq] ++ str "akn-p" ++ [dq]);
       Star true (not_char 62%N); Chr 62%N; Star true (not_char 60%N);
       lit (str "</span>")].

(** [/^[\x22\u201c]([^\x22\u201d]+)[\x22\u201d]\s+(means|includes|has the meaning)\s+(.+)/i] *)
Definition re_definition : regex :=
  cat [Bol; Cls false [CChar dq; CChar 8220%N];
       Group 1 (Plus true (Cls true [CChar dq; CChar 8221%N]));
       Cls false [CChar dq; CChar 8221%N]; Plus true Space;
       Group 2 (alts [lit (str "means"); lit (str "includes");
                      lit (str "has the meaning")]);
       Plus true Space; Group 3 (Plus true Any)].

(** [/;$/] *)
Definition re_trailing_semicolon : regex := cat [Chr 59%N; Eol].

(** The body of the loop over the [akn-p] elements: the definitions array
    after the element [p] has been looked at. *)
Definition definition_of (sourceProvision : jsstring)
  (definitions : list ParsedDefinition) (p : jsstring) : list ParsedDefinition :=
  let text := stripHtml p in
  match exec true re_definition text with
  | Some defMatch =>
      let term := trim (group 1 defMatch) in
      let definition :=
        trim (replace_first false re_trailing_semicolon [] (group 3 defMatch)) in
      if Nat.ltb 0 (length term) && Nat.ltb 5 (length definition) then
        definitions ++ [{| term := term; definition := definition;
                           source_provision := Some sourceProvision |}]
      else definitions
  | None => definitions
  end.

(** Pushes onto [definitions]; the array after the call is returned. *)
Definition extractDefinitions (sectionHtml sourceProvision : jsstring)
  (definitions : list ParsedDefinition) : list ParsedDefinition :=
  let pElements := match_all false re_p sectionHtml in
  fold_left (definition_of sourceProvision) pElements definitions.

Record SectionStart : Type := {
  start_id : jsstring;
  start_index : nat
}.

(** Where the section before [rest] ends: at the next section start, or at
    [html.length]. *)
Definition end_of (html : jsstring) (rest : list SectionStart) : nat :=
  match rest with
  | next :: _ => start_index next
  | [] => length html
  end.

(** The [while ((match = sectionPattern.exec(html)) !== null)] loop. *)
Definition sectionStarts (html : jsstring) : list SectionStart :=
  List.map (fun m => {| start_id := group 1 m; start_index := m_index m |})
    (exec_all false sectionPattern html).

(** Cap at 12K chars per section. *)
Definition content_cap : nat := N.to_nat 12000.

(** One iteration of the [for] loop: the two arrays after the section
    starting at [start] and ending before [endIndex] has been handled. *)
Definition section_step (html : jsstring) (start : SectionStart) (endIndex : nat)
  (acc : list ParsedProvision * list ParsedDefinition)
  : list ParsedProvision * list ParsedDefinition :=
  let '(provisions, definitions) := acc in
  let sectionHtml := substring (start_index start) endIndex html in
  match exec false re_heading sectionHtml with
  | None => acc
  | Some headingMatch =>
  let headingText := trim (group 1 headingMatch) in
  match extractSectionNumber headingText with
  | None => acc
  | Some sectionNum =>
  if negb (truthy sectionNum) then acc else
  let title := extractSectionTitle headingText in
  let chapter := extractChapter (start_id start) in
  let isArticle := includes (start_id start) (str "__art_") in
  let provisionRef :=
    if isArticle then str "art" ++ sectionNum else str "s" ++ sectionNum in
  let contentHtml := replace_first false re_heading_opt [] sectionHtml in
  let content := stripHtml contentHtml in
  let provisions :=
    if Nat.ltb 10 (length content) then
      provisions ++ [{| provision_ref := provisionRef; chapter := chapter;
                        section := sectionNum; title := title;
                        content := substring 0 content_cap content |}]
    else provisions in
  let definitions :=
    if includes (toLowerCase title) (str "interpretation")
       || includes (toLowerCase title) (str "definition")
    then extractDefinitions sectionHtml provisionRef definitions
    else definitions in
  (provisions, definitions)
  end end.

(** The [for] loop over [sectionStarts]: a section ends where the next
    one starts, the last one at the end of the document. *)
Fixpoint sections_loop (html : jsstring) (starts : list SectionStart)
  (acc : list ParsedProvision * list ParsedDefinition)
  : list ParsedProvision * list ParsedDefinition :=
  match starts with
  | [] => acc
  | start :: rest =>
      let endIndex := end_of html rest in
      sections_loop html rest (section_step html start endIndex acc)
  end.

Definition parseKenyaLawHtml (html : jsstring) (act : ActIndexEntry) : ParsedAct :=
  let '(provisions, definitions) := sections_loop html (sectionStarts html) ([], []) in
  {| id := act_id act;
     title_ := act_title act;
     title_en := act_titleEn act;
     short_name := act_shortName act;
     status := act_status act;
     issued_date := act_issuedDate act;
     in_force_date := act_inForceDate act;
     url := act_url act;
     description := act_description act;
     provisions := provisions;
     definitions := definitions |}.

End Parser.
Import Parser.

(** ** The rate-limited HTTP client *)

(** [scripts/lib/fetcher.ts].  The clock and the network are the
    environment of the client; [maxRetries] is a natural number (the
    pipeline calls with the default, 3). *)

Module Fetcher.

(** What [fetch] resolves to, as far as the client reads it. *)
Record Response : Type := {
  resp_status : N;
  resp_text : jsstring + jsstring;       (* [response.text()]: body, or rejection *)
  resp_contentType : option jsstring;    (* [headers.get('content-type')] *)
  resp_url : jsstring
}.

Record FetchResult : Type := {
  status : N;
  body : jsstring;
  contentType : jsstring;
  url : jsstring
}.

(** The environment of the client: the readings of [Date.now()] and the
    outcomes of the calls of [fetch] (a response, or the message of the
    rejection), each in the order in which they are asked for. *)
Record World : Type := {
  w_clock : nat -> Z;
  w_fetch : nat -> Response + jsstring
}.

(** What the client does to its environment.  Console output is left out. *)
Inductive Event : Type :=
| EvFetch (url : jsstring)
| EvSleep (ms : Z).

(** The state a call runs in: how often the clock and [fetch] have been
    asked, the module variable [lastRequestTime], and the events so far,
    oldest first. *)
Record NetState : Type := {
  clock_reads : nat;
  fetch_calls : nat;
  lastRequestTime : Z;
  events : list Event
}.

Definition initial : NetState :=
  {| clock_reads := 0; fetch_calls := 0; lastRequestTime := 0%Z; events := [] |}.

Definition MIN_DELAY_MS : Z := 500.

Section Client.

Variable w : World.

(** [Date.now()] *)
Definition now (st : NetState) : Z * NetState :=
  (w_clock w (clock_reads st),
   {| clock_reads := S (clock_reads st); fetch_calls := fetch_calls st;
      lastRequestTime := lastRequestTime st; events := events st |}).

(** [await new Promise(resolve => setTimeout(resolve, ms))] *)
Definition sleep (ms : Z) (st : NetState) : NetState :=
  {| clock_reads := clock_reads st; fetch_calls := fetch_calls st;
     lastRequestTime := lastRequestTime st;
     events := events st ++ [EvSleep ms] |}.

Definition set_last (t : Z) (st : NetState) : NetState :=
  {| clock_reads := clock_reads st; fetch_calls := fetch_calls st;
     lastRequestTime := t; events := events st |}.

Definition rateLimit (st : NetState) : NetState :=
  let '(now1, st) := now st in
  let elapsed := (now1 - lastRequestTime st)%Z in
  let st := if (elapsed <? MIN_DELAY_MS)%Z
            then sleep (MIN_DELAY_MS - elapsed)%Z st else st in
  let '(now2, st) := now st in
  set_last now2 st.

(** [await fetch(url, ...)] *)
Definition do_fetch (url : jsstring) (st : NetState)
  : (Response + jsstring) * NetState :=
  (w_fetch w (fetch_calls st),
   {| clock_reads := clock_reads st; fetch_calls := S (fetch_calls st);
      lastRequestTime := lastRequestTime st;
      events := events st ++ [EvFetch url] |}).

Definition retryable (response : Response) : bool :=
  N.eqb (resp_status response) 429 || N.leb 500 (resp_status response).

(** [Math.pow(2, attempt + 1) * 1000] *)
Definition backoff (attempt : nat) : Z := (2 ^ Z.of_nat (attempt + 1) * 1000)%Z.

Definition show_nat (n : nat) : jsstring :=
  str (NilEmpty.string_of_uint (Nat.to_uint n)).

Definition msg_failed (url : jsstring) (maxRetries : nat) : jsstring :=
  str "Failed to fetch " ++ url ++ str " after " ++ show_nat maxRetries
  ++ str " retries".

(** The [for] loop, [remaining] being the number of values of [attempt]
    from the current one up to [maxRetries]; when none remains the loop is
    left and the function throws.  A result is [inl], a thrown error's
    message [inr]. *)
Fixpoint attempts (url : jsstring) (maxRetries : nat) (remaining attempt : nat)
  (st : NetState) {struct remaining} : (FetchResult + jsstring) * NetState :=
  match remaining with
  | O => (inr (msg_failed url maxRetries), st)
  | S remaining' =>
      let '(outcome, st) := do_fetch url st in
      match outcome with
      | inr rejection => (inr rejection, st)
      | inl response =>
          if retryable response && Nat.ltb attempt maxRetries then
            attempts url maxRetries remaining' (S attempt)
              (sleep (backoff attempt) st)
          else
            match resp_text response with
            | inr rejection => (inr rejection, st)
            | inl body =>
                (inl {| status := resp_status response;
                        body := body;
                        contentType :=
                          match resp_contentType response with
                          | Some t => t
                          | None => []
                          end;
                        url := resp_url response |}, st)
            end
      end
  end.

Definition fetchWithRateLimit (url : jsstring) (maxRetries : nat) (st : NetState)
  : (FetchResult + jsstring) * NetState :=
  attempts url maxRetries (S maxRetries) 0 (rateLimit st).

End Client.

End Fetcher.

(** ** The catalog of Acts *)

(** [KEY_KENYAN_ACTS] of [scripts/lib/parser.ts], entry by entry. *)

Module Catalog.

Definition KEY_KENYAN_ACTS : list ActIndexEntry :=
  [
  {| act_id := str "data-protection-act-2019";
     act_title := str "Data Protection Act 2019";
     act_titleEn := str "Data Protection Act 2019";
     act_shortName := str "DPA 2019";
     act_status := in_force;
     act_issuedDate := str "2019-11-08";
     act_inForceDate := str "2019-11-25";
     act_url := str "https://new.kenyalaw.org/akn/ke/act/2019/24/";
     act_aknNumber := str "24";
     act_aknYear := str "2019";
     act_description :=
       Some (str "Comprehensive data protection law establishing the Office of the Data Protection Commissioner (ODPC)") |};
  {| act_id := str "computer-misuse-cybercrimes-act-2018";
     act_title := str "Computer Misuse and Cybercrimes Act 2018";
     act_titleEn := str "Computer Misuse and Cybercrimes Act 2018";
     act_shortName := str "CMCA 2018";
     act_status := partially_suspended;
     act_issuedDate := str "2018-05-16";
     act_inForceDate := str "2018-05-30";
     act_url := str "https://new.kenyalaw.org/akn/ke/act/2018/5/";
     act_aknNumber := str "5";
     act_aknYear := str "2018";
     act_description :=
       Some (str "Comprehensive cybercrime legislation; Sections 22, 23, 24, 27, and 53 suspended by High Court pending constitutional review") |};
  {| act_id := str "companies-act-2015";
     act_title := str "Companies Act 2015";
     act_titleEn := str "Companies Act 2015";
     act_shortName := str "Companies Act";
     act_status := in_force;
     act_issuedDate := str "2015-09-11";
     act_inForceDate := str "2015-09-11";
     act_url := str "https://new.kenyalaw.org/akn/ke/act/2015/17/";
     act_aknNumber := str "17";
     act_aknYear := str "2015";
     act_description :=
       Some (str "Modern company law framework replacing the Companies Act (Cap 486)") |};
  {| act_id := str "kenya-information-communications-act";
     act_title := str "Kenya Information and Communications Act";
     act_titleEn := str "Kenya Information and Communications Act";
     act_shortName := str "KICA";
     act_status := in_force;
     act_issuedDate := str "1998-01-01";
     act_inForceDate := str "1998-01-01";
     act_url := str "https://new.kenyalaw.org/akn/ke/act/1998/2/";
     act_aknNumber := str "2";
     act_aknYear := str "1998";
     act_description :=
       Some (str "Regulates telecommunications and ICT sector; establishes the Communications Authority of Kenya") |};
  {| act_id := str "consumer-protection-act-2012";
     act_title := str "Consumer Protection Act 2012";
     act_titleEn := str "Consumer Protection Act 2012";
     act_shortName := str "CPA 2012";
     act_status := in_force;
     act_issuedDate := str "2012-12-31";
     act_inForceDate := str "2012-12-31";
     act_url := str "https://new.kenyalaw.org/akn/ke/act/2012/46/";
     act_aknNumber := str "46";
     act_aknYear := str "2012";
     act_description :=
       Some (str "Consumer rights and fair trade practices legislation") |};
  {| act_id := str "competition-act-2010";
     act_title := str "Competition Act 2010";
     act_titleEn := str "Competition Act 2010";
     act_shortName := str "Competition Act";
     act_status := in_force;
     act_issuedDate := str "2010-12-24";
     act_inForceDate := str "2011-08-01";
     act_url := str "https://new.kenyalaw.org/akn/ke/act/2010/12/";
     act_aknNumber := str "12";
     act_aknYear := str "2010";
     act_description :=
       Some (str "Competition and antitrust legislation; establishes the Competition Authority of Kenya") |};
  {| act_id := str "national-payment-system-act-2011";
     act_title := str "National Payment System Act 2011";
     act_titleEn := str "National Payment System Act 2011";
     act_shortName := str "NPS Act";
     act_status := in_force;
     act_issuedDate := str "2011-12-31";
     act_inForceDate := str "2011-12-31";
     act_url := str "https://new.kenyalaw.org/akn/ke/act/2011/39/";
     act_aknNumber := str "39";
     act_aknYear := str "2011";
     act_description :=
       Some (str "Regulation of payment systems including mobile money (M-Pesa)") |};
  {| act_id := str "central-bank-of-kenya-act";
     act_title := str "Central Bank of Kenya Act";
     act_titleEn := str "Central Bank of Kenya Act";
     act_shortName := str "CBK Act";
     act_status := in_force;
     act_issuedDate := str "1966-01-01";
     act_inForceDate := str "1966-01-01";
     act_url := str "https://new.kenyalaw.org/akn/ke/act/1966/15/";
     act_aknNumber := str "15";
     act_aknYear := str "1966";
     act_description :=
       Some (str "Establishes and regulates the Central Bank of Kenya") |};
  {| act_id := str "constitution-of-kenya-2010";
     act_title := str "Constitution of Kenya 2010";
     act_titleEn := str "Constitution of Kenya 2010";
     act_shortName := str "Constitution";
     act_status := in_force;
     act_issuedDate := str "2010-08-27";
     act_inForceDate := str "2010-08-27";
     act_url := str "https://new.kenyalaw.org/akn/ke/act/2010/constitution/";
     act_aknNumber := str "constitution";
     act_aknYear := str "2010";
     act_description :=
       Some (str "Supreme law of Kenya; Article 31 guarantees the right to privacy; Article 35 guarantees the right of access to information") |};
  {| act_id := str "evidence-act";
     act_title := str "Evidence Act";
     act_titleEn := str "Evidence Act";
     act_shortName := str "Evidence Act";
     act_status := in_force;
     act_issuedDate := str "1963-01-01";
     act_inForceDate := str "1963-01-01";
     act_url := str "https://new.kenyalaw.org/akn/ke/act/1963/46/";
     act_aknNumber := str "46";
     act_aknYear := str "1963";
     act_description :=
       Some (str "Law of evidence including provisions on electronic evidence and computer-generated records") |};
  {| act_id := str "proceeds-of-crime-aml-act-2009";
     act_title := str "Proceeds of Crime and Anti-Money Laundering Act 2009";
     act_titleEn := str "Proceeds of Crime and Anti-Money Laundering Act 2009";
     act_shortName := str "POCAMLA";
     act_status := in_force;
     act_issuedDate := str "2009-12-31";
     act_inForceDate := str "2010-06-28";
     act_url := str "https://new.kenyalaw.org/akn/ke/act/2009/9/";
     act_aknNumber := str "9";
     act_aknYear := str "2009";
     act_description :=
       Some (str "Anti-money laundering legislation establishing the Financial Reporting Centre (FRC)") |}
  ].

End Catalog.

(** ** The ingestion pipeline *)

(** [scripts/ingest.ts].  What the run prints on the console is left out;
    the counters and rows that the report prints are the result.  The
    network and the clock are those of the client above; the calls of the
    file system that can throw do so as their environment says. *)

Module Ingest.

Import Fetcher.

(** A number as [parseInt] returns it.  Integers are kept exact; the
    rounding of integers beyond 2^53 and the sign of zero are left out,
    neither of which the pipeline can tell. *)
Inductive JSNumber : Type :=
| NaN
| Int (z : Z).

Fixpoint take_digits (s : jsstring) : jsstring :=
  match s with
  | c :: s' => if is_digit c then c :: take_digits s' else []
  | [] => []
  end.

Definition digits_value (ds : jsstring) : Z :=
  fold_left (fun acc c => (acc * 10 + (Z.of_N c - 48))%Z) ds 0%Z.

(** [parseInt(s, 10)]: leading white space is skipped, a sign is read, and
    the longest run of decimal digits that follows is the value. *)
Definition parseInt10 (s : jsstring) : JSNumber :=
  let s := trimStart s in
  let '(negative, s) :=
    match s with
    | c :: s' =>
        if ceqb c 45%N then (true, s')
        else if ceqb c 43%N then (false, s')
        else (false, s)
    | [] => (false, s)
    end in
  match take_digits s with
  | [] => NaN
  | ds => Int (if negative then - digits_value ds else digits_value ds)
  end.

Record Args : Type := {
  limit : option JSNumber;      (* [number | null] *)
  skipFetch : bool
}.

(** The loop of [parseArgs] over [args], from the index where [args]
    starts on. *)
Fixpoint parseArgs_loop (args : list jsstring) (acc : Args) : Args :=
  match args with
  | [] => acc
  | a :: rest =>
      match rest with
      | next :: rest' =>
          if seqb a (str "--limit") && truthy next then
            parseArgs_loop rest'
              {| limit := Some (parseInt10 next); skipFetch := skipFetch acc |}
          else if seqb a (str "--skip-fetch") then
            parseArgs_loop rest {| limit := limit acc; skipFetch := true |}
          else parseArgs_loop rest acc
      | [] =>
          if seqb a (str "--skip-fetch") then
            parseArgs_loop rest {| limit := limit acc; skipFetch := true |}
          else parseArgs_loop rest acc
      end
  end.

(** [argv] is [process.argv]. *)
Definition parseArgs (argv : list jsstring) : Args :=
  parseArgs_loop (skipn 2 argv) {| limit := None; skipFetch := false |}.

(** Truthiness of [limit]. *)
Definition limit_given (limit : option JSNumber) : option Z :=
  match limit with
  | Some (Int z) => if Z.eqb z 0 then None else Some z
  | Some NaN => None
  | None => None
  end.

(** [array.slice(0, end)] *)
Definition slice0 (A : Type) (end_ : Z) (l : list A) : list A :=
  if (end_ <? 0)%Z
  then firstn (Z.to_nat (Z.max (Z.of_nat (length l) + end_) 0)) l
  else firstn (Z.to_nat end_) l.

(** [limit ? KEY_KENYAN_ACTS.slice(0, limit) : KEY_KENYAN_ACTS] *)
Definition selected_acts (limit : option JSNumber) : list ActIndexEntry :=
  match limit_given limit with
  | Some z => slice0 z Catalog.KEY_KENYAN_ACTS
  | None => Catalog.KEY_KENYAN_ACTS
  end.

(** The two data directories.  A path [path.join(DIR, name)] is kept as
    the pair of the directory and the file name. *)
Inductive Dir : Type := SOURCE_DIR | SEED_DIR.

Definition Path : Type := Dir * jsstring.

Definition path_eqb (a b : Path) : bool :=
  match fst a, fst b with
  | SOURCE_DIR, SOURCE_DIR | SEED_DIR, SEED_DIR => seqb (snd a) (snd b)
  | _, _ => false
  end.

(** The files of the two directories, with their text. *)
Definition FileSystem : Type := Path -> option jsstring.

Definition set_file (p : Path) (content : option jsstring) (fs : FileSystem)
  : FileSystem :=
  fun q => if path_eqb q p then content else fs q.

(** The environment of the file-system calls that can throw ([mkdirSync],
    [readFileSync], [writeFileSync]), each in the order in which they are
    made: [d_fail] gives the message when the call throws for a reason of
    its own (permissions, a full disk), and [d_torn] what a write that
    throws leaves of its file. *)
Record Disk : Type := {
  d_fail : nat -> option jsstring;
  d_torn : nat -> option jsstring
}.

Record State : Type := {
  net : NetState;
  files : FileSystem;
  fs_calls : nat
}.

(** A row of the per-Act breakdown. *)
Record Row : Type := {
  row_act : jsstring;
  row_provisions : nat;
  row_definitions : nat;
  row_status : jsstring
}.

(** The local variables of [fetchAndParseActs], which the report prints. *)
Record Report : Type := {
  processed : nat;
  skipped : nat;
  failed : nat;
  totalProvisions : nat;
  totalDefinitions : nat;
  results : list Row
}.

Definition empty_report : Report :=
  {| processed := 0; skipped := 0; failed := 0; totalProvisions := 0;
     totalDefinitions := 0; results := [] |}.

Definition show_N (n : N) : jsstring :=
  str (NilEmpty.string_of_uint (N.to_uint n)).

(** A computation of the pipeline: from a state to a value or the message
    of the error thrown, and the state left. *)
Definition M (A : Type) : Type := State -> (A + jsstring) * State.

Definition ret (A : Type) (a : A) : M A := fun st => (inl a, st).

Definition throw (A : Type) (e : jsstring) : M A := fun st => (inr e, st).
Arguments throw {A} e.

Definition bind (A B : Type) (m : M A) (f : A -> M B) : M B :=
  fun st =>
    match m st with
    | (inl a, st') => f a st'
    | (inr e, st') => (inr e, st')
    end.

(** [try { m } catch (error) { h(message of error) }] *)
Definition try_catch (A : Type) (m : M A) (h : jsstring -> M A) : M A :=
  fun st =>
    match m st with
    | (inl a, st') => (inl a, st')
    | (inr e, st') => h e st'
    end.

Section Pipeline.

Variable w : World.
Variable disk : Disk.

(** [JSON.stringify(parsed, null, 2)] *)
Variable JSON_stringify : ParsedAct -> jsstring.

(** Reading a seed back: [JSON.parse(text)] followed by the two reads
    [existing.provisions?.length ?? 0] and [existing.definitions?.length ?? 0];
    [inr] with the message when that throws.  The two lengths are taken to
    be natural numbers, as they are when [provisions] and [definitions]
    are arrays, strings or missing. *)
Variable seed_counts : jsstring -> (nat * nat) + jsstring.

Notation "x <- m ;; k" := (bind m (fun x => k))
  (at level 61, m at next level, right associativity).
Notation "m ;; k" := (bind m (fun _ => k))
  (at level 61, right associativity).

Definition called (st : State) : State :=
  {| net := net st; files := files st; fs_calls := S (fs_calls st) |}.

(** [fs.mkdirSync(dir, { recursive: true })] *)
Definition mkdirSync (dir : Dir) : M unit :=
  fun st =>
    match d_fail disk (fs_calls st) with
    | Some e => (inr e, called st)
    | None => (inl tt, called st)
    end.

(** [fs.existsSync(p)], which does not throw. *)
Definition existsSync (p : Path) : M bool :=
  fun st => (inl (match files st p with Some _ => true | None => false end), st).

Definition msg_enoent (p : Path) : jsstring :=
  str "ENOENT: no such file or directory, open " ++ snd p.

(** [fs.readFileSync(p, 'utf-8')] *)
Definition readFileSync (p : Path) : M jsstring :=
  fun st =>
    match d_fail disk (fs_calls st) with
    | Some e => (inr e, called st)
    | None =>
        match files st p with
        | Some text => (inl text, called st)
        | None => (inr (msg_enoent p), called st)
        end
    end.

(** [fs.writeFileSync(p, data)] *)
Definition writeFileSync (p : Path) (data : jsstring) : M unit :=
  fun st =>
    match d_fail disk (fs_calls st) with
    | Some e =>
        (inr e,
         {| net := net st;
            files := set_file p (d_torn disk (fs_calls st)) (files st);
            fs_calls := S (fs_calls st) |})
    | None =>
        (inl tt,
         {| net := net st; files := set_file p (Some data) (files st);
            fs_calls := S (fs_calls st) |})
    end.

(** [await fetchWithRateLimit(url)] *)
Definition fetch_page (url : jsstring) : M FetchResult :=
  fun st =>
    let '(fetched, net') := fetchWithRateLimit w url 3 (net st) in
    (fetched, {| net := net'; files := files st; fs_calls := fs_calls st |}).

Definition sourceFile (act : ActIndexEntry) : Path :=
  (SOURCE_DIR, act_id act ++ str ".html").

Definition seedFile (act : ActIndexEntry) : Path :=
  (SEED_DIR, act_id act ++ str ".json").

(** The rows and counters after a cached seed was reused. *)
Definition record_cached (act : ActIndexEntry) (provCount defCount : nat)
  (rep : Report) : Report :=
  {| processed := S (processed rep);
     skipped := S (skipped rep);
     failed := failed rep;
     totalProvisions := totalProvisions rep + provCount;
     totalDefinitions := totalDefinitions rep + defCount;
     results := results rep
                ++ [{| row_act := act_shortName act; row_provisions := provCount;
                       row_definitions := defCount; row_status := str "cached" |}] |}.

(** ... after a response other than 200 (followed by [continue]) ... *)
Definition record_http (act : ActIndexEntry) (status : N) (rep : Report) : Report :=
  {| processed := S (processed rep);
     skipped := skipped rep;
     failed := S (failed rep);
     totalProvisions := totalProvisions rep;
     totalDefinitions := totalDefinitions rep;
     results := results rep
                ++ [{| row_act := act_shortName act; row_provisions := 0;
                       row_definitions := 0;
                       row_status := str "HTTP " ++ show_N status |}] |}.

(** ... after the page was parsed and the seed written ... *)
Definition record_ok (act : ActIndexEntry) (parsed : ParsedAct) (rep : Report)
  : Report :=
  {| processed := processed rep;
     skipped := skipped rep;
     failed := failed rep;
     totalProvisions := totalProvisions rep + length (provisions parsed);
     totalDefinitions := totalDefinitions rep + length (definitions parsed);
     results := results rep
                ++ [{| row_act := act_shortName act;
                       row_provisions := length (provisions parsed);
                       row_definitions := length (definitions parsed);
                       row_status := str "OK" |}] |}.

(** ... and in the [catch] clause. *)
Definition record_error (act : ActIndexEntry) (msg : jsstring) (rep : Report)
  : Report :=
  {| processed := processed rep;
     skipped := skipped rep;
     failed := S (failed rep);
     totalProvisions := totalProvisions rep;
     totalDefinitions := totalDefinitions rep;
     results := results rep
                ++ [{| row_act := act_shortName act; row_provisions := 0;
                       row_definitions := 0;
                       row_status := str "ERROR: " ++ substring 0 80 msg |}] |}.

(** [processed++] at the end of the loop body. *)
Definition count_processed (rep : Report) : Report :=
  {| processed := S (processed rep);
     skipped := skipped rep;
     failed := failed rep;
     totalProvisions := totalProvisions rep;
     totalDefinitions := totalDefinitions rep;
     results := results rep |}.

(** From [parseKenyaLawHtml] to the end of the [try] block. *)
Definition parse_and_store (act : ActIndexEntry) (html : jsstring) (rep : Report)
  : M Report :=
  let parsed := parseKenyaLawHtml html act in
  writeFileSync (seedFile act) (JSON_stringify parsed) ;;
  ret (record_ok act parsed rep).

(** The [try] block: the report after it, and whether it ended in
    [continue]. *)
Definition try_block (skipFetch : bool) (act : ActIndexEntry) (rep : Report)
  : M (Report * bool) :=
  cached <- existsSync (sourceFile act) ;;
  if cached && skipFetch then
    html <- readFileSync (sourceFile act) ;;
    rep <- parse_and_store act html rep ;;
    ret (rep, false)
  else
    result <- fetch_page (act_url act) ;;
    if negb (N.eqb (status result) 200) then
      ret (record_http act (status result) rep, true)
    else
      let html := body result in
      writeFileSync (sourceFile act) html ;;
      rep <- parse_and_store act html rep ;;
      ret (rep, false).

(** One round of the loop over the Acts. *)
Definition act_step (skipFetch : bool) (act : ActIndexEntry) (rep : Report)
  : M Report :=
  seeded <- (if skipFetch then existsSync (seedFile act) else ret false) ;;
  if seeded then
    text <- readFileSync (seedFile act) ;;
    match seed_counts text with
    | inr e => throw e
    | inl (provCount, defCount) => ret (record_cached act provCount defCount rep)
    end
  else
    tried <- try_catch (try_block skipFetch act rep)
               (fun msg => ret (record_error act msg rep, false)) ;;
    ret (if snd tried then fst tried else count_processed (fst tried)).

Fixpoint acts_loop (skipFetch : bool) (acts : list ActIndexEntry) (rep : Report)
  : M Report :=
  match acts with
  | [] => ret rep
  | act :: rest =>
      rep <- act_step skipFetch act rep ;;
      acts_loop skipFetch rest rep
  end.

(** The counters and rows the report prints, or the error thrown. *)
Definition fetchAndParseActs (acts : list ActIndexEntry) (skipFetch : bool)
  : M Report :=
  mkdirSync SOURCE_DIR ;;
  mkdirSync SEED_DIR ;;
  acts_loop skipFetch acts empty_report.

Definition main (argv : list jsstring) : M Report :=
  let args := parseArgs argv in
  fetchAndParseActs (selected_acts (limit args)) (skipFetch args).

End Pipeline.

End Ingest.

(** * Properties *)

Unset Implicit Arguments.

(** ** The matcher *)

Section Engine.

Variable icase : bool.
Variable R : Type.

(** The matcher has moved from index [pos] with input [s] left to index
    [p'] with input [s'] left. *)
Definition reached (pos : nat) (s : jsstring) (p' : nat) (s' : jsstring) : bool :=
  Nat.leb (length s') (length s) && Nat.eqb p' (pos + (length s - length s')).

(** [k], cut down to the states reachable from [pos] and [s]. *)
Definition restrict (pos : nat) (s : jsstring) (k : cont R) : cont R :=
  fun p' s' c' => if reached pos s p' s' then k p' s' c' else None.

Lemma reached_refl (pos : nat) (s : jsstring) : reached pos s pos s = true.
Proof.
  unfold reached. rewrite Nat.leb_refl, Nat.sub_diag, Nat.add_0_r, Nat.eqb_refl.
  reflexivity.
Qed.

Lemma reached_step (pos : nat) (x : char) (s : jsstring) :
  reached pos (x :: s) (S pos) s = true.
Proof.
  unfold reached. apply andb_true_intro. split.
  - apply Nat.leb_le. simpl. lia.
  - apply Nat.eqb_eq. simpl length. lia.
Qed.

Lemma reached_trans (pos : nat) (s : jsstring) (p1 : nat) (s1 : jsstring)
  (p2 : nat) (s2 : jsstring) :
  reached pos s p1 s1 = true -> reached p1 s1 p2 s2 = true ->
  reached pos s p2 s2 = true.
Proof.
  unfold reached. intros H1 H2.
  apply andb_prop in H1 as [L1 E1]. apply andb_prop in H2 as [L2 E2].
  apply Nat.leb_le in L1, L2. apply Nat.eqb_eq in E1, E2.
  apply andb_true_intro. split; [apply Nat.leb_le | apply Nat.eqb_eq]; lia.
Qed.

Lemma reached_shorter (pos : nat) (s : jsstring) (p' : nat) (s' : jsstring) :
  reached pos s p' s' = true -> Nat.eqb p' pos = false -> length s' < length s.
Proof.
  unfold reached. intros H N. apply andb_prop in H as [L E].
  apply Nat.leb_le in L. apply Nat.eqb_eq in E. apply Nat.eqb_neq in N. lia.
Qed.

Definition body_ext (body : nat -> jsstring -> caps -> cont R -> option R) : Prop :=
  forall pos s c k1 k2,
    (forall p' s' c', k1 p' s' c' = k2 p' s' c') ->
    body pos s c k1 = body pos s c k2.

Definition body_restrict (body : nat -> jsstring -> caps -> cont R -> option R)
  : Prop :=
  forall pos s c k, body pos s c k = body pos s c (restrict pos s k).

Definition body_some (body : nat -> jsstring -> caps -> cont R -> option R)
  : Prop :=
  forall pos s c k x,
    body pos s c k = Some x -> exists p' s' c', k p' s' c' = Some x.

Lemma star_loop_ext body greedy :
  body_ext body ->
  forall k1 k2, (forall p' s' c', k1 p' s' c' = k2 p' s' c') ->
  forall fuel pos s c,
    star_loop body greedy k1 fuel pos s c = star_loop body greedy k2 fuel pos s c.
Proof.
  intros Hb k1 k2 Hk fuel; induction fuel as [|fuel IH]; intros pos s c; simpl.
  - apply Hk.
  - rewrite (Hk pos s c).
    rewrite (Hb pos s c _
               (fun p' s' c' =>
                  if Nat.eqb p' pos then None
                  else star_loop body greedy k2 fuel p' s' c')).
    + reflexivity.
    + intros p' s' c'. destruct (Nat.eqb p' pos); [reflexivity | apply IH].
Qed.

(** A well-behaved body only ever looks at its continuation on reachable
    states. *)
Lemma body_local body :
  body_ext body -> body_restrict body ->
  forall pos s c k1 k2,
    (forall p' s' c', reached pos s p' s' = true -> k1 p' s' c' = k2 p' s' c') ->
    body pos s c k1 = body pos s c k2.
Proof.
  intros He Hr pos s c k1 k2 H.
  rewrite (Hr pos s c k1), (Hr pos s c k2). apply He.
  intros p' s' c'. unfold restrict.
  destruct (reached pos s p' s') eqn:E; [now apply H | reflexivity].
Qed.

Lemma star_loop_restrict body greedy :
  body_ext body -> body_restrict body ->
  forall k pos0 s0 fuel pos s c,
    reached pos0 s0 pos s = true ->
    star_loop body greedy k fuel pos s c
    = star_loop body greedy (restrict pos0 s0 k) fuel pos s c.
Proof.
  intros He Hr k pos0 s0 fuel; induction fuel as [|fuel IH]; intros pos s c Hreach;
    simpl.
  - unfold restrict. now rewrite Hreach.
  - assert (Hk : restrict pos0 s0 k pos s c = k pos s c).
    { unfold restrict. now rewrite Hreach. }
    rewrite Hk.
    rewrite (body_local body He Hr pos s c
               (fun p' s' c' =>
                  if Nat.eqb p' pos then None
                  else star_loop body greedy k fuel p' s' c')
               (fun p' s' c' =>
                  if Nat.eqb p' pos then None
                  else star_loop body greedy (restrict pos0 s0 k) fuel p' s' c')).
    + reflexivity.
    + intros p' s' c' Hr'. destruct (Nat.eqb p' pos); [reflexivity|].
      apply IH. exact (reached_trans _ _ _ _ _ _ Hreach Hr').
Qed.

Lemma star_loop_some body greedy :
  body_some body ->
  forall k fuel pos s c x,
    star_loop body greedy k fuel pos s c = Some x ->
    exists p' s' c', k p' s' c' = Some x.
Proof.
  intros Hs k fuel; induction fuel as [|fuel IH]; intros pos s c x; simpl.
  - intros H. now exists pos, s, c.
  - assert (Hagain : forall y,
              body pos s c
                (fun p' s' c' =>
                   if Nat.eqb p' pos then None
                   else star_loop body greedy k fuel p' s' c') = Some y ->
              exists p' s' c', k p' s' c' = Some y).
    { intros y H. apply Hs in H as [p' [s' [c' H]]].
      destruct (Nat.eqb p' pos); [discriminate|]. now apply IH in H. }
    destruct greedy.
    + destruct (body pos s c _) as [y|] eqn:E.
      * intros H; injection H as <-. now apply Hagain.
      * intros H. now exists pos, s, c.
    + destruct (k pos s c) as [y|] eqn:E.
      * intros H; injection H as <-. now exists pos, s, c.
      * apply Hagain.
Qed.

(** More fuel than the input is long changes nothing. *)
Lemma star_loop_fuel body greedy k :
  body_ext body -> body_restrict body ->
  forall f1 f2 pos s c,
    length s < f1 -> length s < f2 ->
    star_loop body greedy k f1 pos s c = star_loop body greedy k f2 pos s c.
Proof.
  intros He Hr f1; induction f1 as [|f1 IH]; intros f2 pos s c L1 L2; [lia|].
  destruct f2 as [|f2]; [lia|]. simpl.
  rewrite (body_local body He Hr pos s c
             (fun p' s' c' =>
                if Nat.eqb p' pos then None
                else star_loop body greedy k f1 p' s' c')
             (fun p' s' c' =>
                if Nat.eqb p' pos then None
                else star_loop body greedy k f2 p' s' c')).
  - reflexivity.
  - intros p' s' c' Hr'. destruct (Nat.eqb p' pos) eqn:N; [reflexivity|].
    pose proof (reached_shorter _ _ _ _ Hr' N). apply IH; lia.
Qed.

Lemma run_ext (r : regex) : body_ext (fun pos s c k => run icase r pos s c k).
Proof.
  unfold body_ext. induction r as [|p| |neg items|r1 IH1 r2 IH2|r1 IH1 r2 IH2
                                  |greedy r IH|n r IH| |];
    intros pos s c k1 k2 Hk; cbn [run].
  - apply Hk.
  - destruct s as [|x s]; [reflexivity|]. destruct (char_match icase p x);
      [apply Hk | reflexivity].
  - destruct s as [|x s]; [reflexivity|]. destruct (is_line_terminator x);
      [reflexivity | apply Hk].
  - destruct s as [|x s]; [reflexivity|]. destruct (class_match icase neg items x);
      [apply Hk | reflexivity].
  - apply IH1. intros p' s' c'. now apply IH2.
  - now rewrite (IH1 pos s c k1 k2 Hk), (IH2 pos s c k1 k2 Hk).
  - now apply star_loop_ext.
  - apply IH. intros p' s' c'. apply Hk.
  - destruct (Nat.eqb pos 0); [apply Hk | reflexivity].
  - destruct s; [apply Hk | reflexivity].
Qed.

Lemma run_restrict (r : regex) :
  body_restrict (fun pos s c k => run icase r pos s c k).
Proof.
  unfold body_restrict.
  induction r as [|p| |neg items|r1 IH1 r2 IH2|r1 IH1 r2 IH2
                 |greedy r IH|n r IH| |];
    intros pos s c k; cbn [run].
  - unfold restrict. now rewrite reached_refl.
  - destruct s as [|x s]; [reflexivity|]. unfold restrict.
    now rewrite reached_step.
  - destruct s as [|x s]; [reflexivity|]. unfold restrict.
    now rewrite reached_step.
  - destruct s as [|x s]; [reflexivity|]. unfold restrict.
    now rewrite reached_step.
  - apply (body_local _ (run_ext r1) IH1). intros p1 s1 c1 H1.
    apply (body_local _ (run_ext r2) IH2). intros p2 s2 c2 H2.
    unfold restrict. now rewrite (reached_trans _ _ _ _ _ _ H1 H2).
  - now rewrite <- IH1, <- IH2.
  - apply (star_loop_restrict _ greedy (run_ext r) IH). apply reached_refl.
  - apply (body_local _ (run_ext r) IH). intros p1 s1 c1 H1.
    unfold restrict. now rewrite H1.
  - unfold restrict. now rewrite reached_refl.
  - unfold restrict. now rewrite reached_refl.
Qed.

Lemma run_some (r : regex) : body_some (fun pos s c k => run icase r pos s c k).
Proof.
  unfold body_some.
  induction r as [|p| |neg items|r1 IH1 r2 IH2|r1 IH1 r2 IH2
                 |greedy r IH|n r IH| |];
    intros pos s c k x; cbn [run].
  - intros H. now exists pos, s, c.
  - destruct s as [|y s]; [discriminate|]. destruct (char_match icase p y);
      [|discriminate]. intros H. now exists (S pos), s, c.
  - destruct s as [|y s]; [discriminate|]. destruct (is_line_terminator y);
      [discriminate|]. intros H. now exists (S pos), s, c.
  - destruct s as [|y s]; [discriminate|]. destruct (class_match icase neg items y);
      [|discriminate]. intros H. now exists (S pos), s, c.
  - intros H. apply IH1 in H as [p1 [s1 [c1 H]]]. now apply IH2 in H.
  - destruct (run icase r1 pos s c k) as [y|] eqn:E.
    + intros H; injection H as <-. now apply IH1 in E.
    + apply IH2.
  - now apply star_loop_some.
  - intros H. apply IH in H as [p1 [s1 [c1 H]]]. now exists p1, s1, (((n, firstn (p1 - pos) s)) :: c1).
  - destruct (Nat.eqb pos 0); [|discriminate]. intros H. now exists pos, s, c.
  - destruct s; [|discriminate]. intros H. now exists pos, [], c.
Qed.

(** The quantifier loop of [run] has all the fuel it can use. *)
Theorem run_star_fuel (greedy : bool) (r : regex) (k : cont R)
  (fuel pos : nat) (s : jsstring) (c : caps) :
  length s < fuel ->
  star_loop (fun pos s c k => run icase r pos s c k) greedy k fuel pos s c
  = run icase (Star greedy r) pos s c k.
Proof.
  intros L. cbn [run].
  apply (star_loop_fuel _ greedy k (run_ext r) (run_restrict r)); lia.
Qed.

End Engine.

Section Search.

Variable icase : bool.

(** A match starts where it was tried and ends inside the input. *)
Lemma match_at_bounds (r : regex) (pos : nat) (s : jsstring) (m : mres) :
  match_at icase r pos s = Some m ->
  m_index m = pos /\ pos <= m_end m <= pos + length s.
Proof.
  unfold match_at. intros H.
  rewrite (run_restrict icase mres r pos s []) in H.
  apply (run_some icase mres r) in H as [p' [s' [c' H]]].
  unfold restrict in H. destruct (reached pos s p' s') eqn:E; [|discriminate].
  injection H as <-. cbn [m_index m_end].
  unfold reached in E. apply andb_prop in E as [L E].
  apply Nat.leb_le in L. apply Nat.eqb_eq in E. lia.
Qed.

Lemma search_from_bounds (r : regex) (s : jsstring) (pos : nat) (m : mres) :
  search_from icase r pos s = Some m ->
  pos <= m_index m /\ m_index m <= m_end m /\ m_end m <= pos + length s.
Proof.
  revert pos; induction s as [|x s IH]; intros pos; cbn [search_from].
  - destruct (match_at icase r pos []) as [m'|] eqn:E; [|discriminate].
    intros H; injection H as <-. apply match_at_bounds in E. simpl in *. lia.
  - destruct (match_at icase r pos (x :: s)) as [m'|] eqn:E.
    + intros H; injection H as <-. apply match_at_bounds in E. lia.
    + intros H. apply IH in H. simpl length. lia.
Qed.

(** The loop over all matches has all the fuel it can use. *)
Theorem exec_all_fuel (r : regex) (f1 f2 pos : nat) (s : jsstring) :
  length s < f1 -> length s < f2 ->
  exec_all_from icase f1 r pos s = exec_all_from icase f2 r pos s.
Proof.
  revert f2 pos s; induction f1 as [|f1 IH]; intros f2 pos s L1 L2; [lia|].
  destruct f2 as [|f2]; [lia|]. cbn [exec_all_from].
  destruct (search_from icase r pos s) as [m|] eqn:E; [|reflexivity].
  apply search_from_bounds in E.
  set (next := if Nat.eqb (m_end m) (m_index m) then S (m_end m) else m_end m).
  assert (Hnext : pos < next).
  { unfold next. destruct (Nat.eqb_spec (m_end m) (m_index m)); lia. }
  f_equal. destruct (Nat.leb_spec (next - pos) (length s)); [|reflexivity].
  apply IH; rewrite length_skipn; lia.
Qed.

End Search.

(** A successful run ends in a state reached from where it began. *)
Lemma run_reached (icase : bool) (R : Type) (r : regex) (pos : nat) (s : jsstring)
  (c : caps) (k : cont R) (x : R) :
  run icase r pos s c k = Some x ->
  exists p' s' c', reached pos s p' s' = true /\ k p' s' c' = Some x.
Proof.
  intros H. rewrite (run_restrict icase R r pos s c k) in H.
  apply (run_some icase R r) in H as [p' [s' [c' H]]].
  unfold restrict in H. destruct (reached pos s p' s') eqn:E; [|discriminate].
  now exists p', s', c'.
Qed.

(** A section marker is never empty, so the [exec] loop of the extractor
    moves on after each one. *)
Lemma sectionPattern_consumes (pos : nat) (s : jsstring) (m : mres) :
  match_at false sectionPattern pos s = Some m -> m_index m < m_end m.
Proof.
  assert (E : exists r1 r2, sectionPattern = Seq (Seq (Chr 60%N) r1) r2)
    by (do 2 eexists; reflexivity).
  destruct E as [r1 [r2 E]]. unfold match_at. rewrite E. cbn [run].
  destruct s as [|x s]; [discriminate|].
  destruct (char_match false 60%N x); [|discriminate].
  intros H.
  apply run_reached in H as [p1 [s1 [c1 [H1 H]]]].
  apply run_reached in H as [p2 [s2 [c2 [H2 H]]]].
  injection H as <-. cbn [m_index m_end].
  unfold reached in H1, H2.
  apply andb_prop in H1 as [_ H1]. apply andb_prop in H2 as [_ H2].
  apply Nat.eqb_eq in H1, H2. lia.
Qed.

(** ** Strings *)

Lemma seqb_eq (a b : jsstring) : seqb a b = true <-> a = b.
Proof.
  revert b; induction a as [|x a IH]; intros [|y b]; simpl; split;
    try congruence; try reflexivity.
  - intros H. apply andb_prop in H as [Hx Hab].
    apply N.eqb_eq in Hx. apply IH in Hab. congruence.
  - intros H. injection H as -> ->.
    unfold ceqb. rewrite N.eqb_refl. simpl. now apply IH.
Qed.

Lemma seqb_refl (a : jsstring) : seqb a a = true.
Proof. now apply seqb_eq. Qed.

Lemma trimStart_blank (s : jsstring) :
  forallb is_space s = true -> trimStart s = [].
Proof.
  induction s as [|c s IH]; simpl; [reflexivity|].
  intros H. apply andb_prop in H as [Hc Hs]. rewrite Hc. now apply IH.
Qed.

Lemma trim_blank (s : jsstring) : forallb is_space s = true -> trim s = [].
Proof.
  intros H. unfold trim, trimEnd. now rewrite (trimStart_blank s H).
Qed.

Lemma find_exists (A : Type) (f : A -> bool) (l : list A) (x : A) :
  In x l -> f x = true -> exists y, find f l = Some y /\ f y = true.
Proof.
  intros Hin Hf. destruct (find f l) as [y|] eqn:E.
  - exists y. split; [reflexivity|]. now apply find_some in E.
  - exfalso. pose proof (find_none f l E x Hin) as Hn. congruence.
Qed.

(** ** Blank citations (C1) *)

Lemma parseCitation_blank (citation : jsstring) :
  forallb is_space citation = true ->
  parseCitation citation = Some {| documentRef := []; sectionRef := None |}.
Proof.
  intros H. unfold parseCitation. rewrite (trim_blank citation H).
  vm_compute. reflexivity.
Qed.

(** A blank reference resolves to nothing without querying the store. *)
Lemma resolveDocumentId_blank (db : Database) (input : jsstring) :
  forallb is_space input = true -> resolveDocumentId db input = None.
Proof.
  intros H. unfold resolveDocumentId. now rewrite (trim_blank input H).
Qed.

(** C1.  An empty or whitespace-only citation is not a parse failure in
    the code: [parseCitation] falls through to its whole-string branch with
    an empty document reference, the resolver finds no document for it, and
    the validator answers [valid = false] with the single warning
    [Document not found: ...] built from the empty reference.  The warning
    [Could not parse citation format] is not among the warnings. *)
Theorem C1_blank_citation_is_document_not_found
  (db : Database) (citation : jsstring)
  (Hblank : forallb is_space citation = true) :
  parseCitation citation = Some {| documentRef := []; sectionRef := None |}
  /\ validateCitationTool db citation
     = Returned {| results := invalid citation [msg_not_found []];
                   _metadata := generateResponseMetadata db |}
  /\ ~ In msg_parse (warnings (invalid citation [msg_not_found []])).
Proof.
  pose proof (parseCitation_blank citation Hblank) as Hp.
  split; [exact Hp|]. split.
  - unfold validateCitationTool. rewrite Hp. reflexivity.
  - simpl. intros [H|[]]. vm_compute in H. discriminate H.
Qed.

Lemma C1_blank_citation_witness :
  let db := {| legal_documents := []; legal_provisions := []; db_metadata := None |} in
  forallb is_space (str "   ") = true
  /\ validateCitationTool db (str "   ")
     = Returned {| results := invalid (str "   ") [msg_not_found []];
                   _metadata := generateResponseMetadata db |}.
Proof.
  intros db. split; [reflexivity|].
  apply (@C1_blank_citation_is_document_not_found db (str "   ")). reflexivity.
Defined.

(** [parseCitation] has no path that returns [null] ... *)
Lemma parseCitation_never_null (citation : jsstring) :
  parseCitation citation <> None.
Proof.
  unfold parseCitation.
  repeat match goal with
         | |- context [match ?e with Some _ => _ | None => _ end] => destruct e
         end; discriminate.
Qed.

Lemma status_warnings_cases (st w : jsstring) :
  In w (status_warnings st) -> w = msg_repealed \/ w = msg_amended \/ w = msg_suspended.
Proof.
  unfold status_warnings.
  destruct (seqb st (str "repealed")); [intros [<-|[]]; auto|].
  destruct (seqb st (str "amended")); [intros [<-|[]]; auto|].
  destruct (seqb st (str "partially_suspended")); [intros [<-|[]]; auto|].
  intros [].
Qed.

(** ... so the validator never issues its parse-failure warning. *)
Lemma parse_warning_never_issued (db : Database) (citation : jsstring)
  (res : ToolResponse ValidateCitationResult) :
  validateCitationTool db citation = Returned res ->
  ~ In msg_parse (warnings (results res)).
Proof.
  assert (Hst : forall st, ~ In msg_parse (status_warnings st)).
  { intros st H. apply status_warnings_cases in H as [H|[H|H]]; discriminate H. }
  unfold validateCitationTool.
  destruct (parseCitation citation) as [parsed|] eqn:Hp;
    [|now apply parseCitation_never_null in Hp].
  assert (Hnf : ~ In msg_parse [msg_not_found (documentRef parsed)]).
  { intros [H|[]]. discriminate H. }
  destruct (resolveDocumentId db (documentRef parsed)) as [docId|];
    [|intros H; injection H as <-; exact Hnf].
  destruct (negb (truthy docId)); [intros H; injection H as <-; exact Hnf|].
  destruct (q_document db docId) as [doc|]; [|discriminate].
  destruct (match sectionRef parsed with
            | Some sec => if truthy sec then Some sec else None
            | None => None
            end) as [sec|].
  - destruct (q_provision db _ _ _ _ _); intros H; injection H as <-;
      cbn [results warnings]; [apply Hst|].
    intros H. apply in_app_or in H as [H|[H|[]]]; [now apply Hst in H|].
    discriminate H.
  - intros H; injection H as <-. apply Hst.
Qed.

(** ** The resolver (C4, C7, C9) *)

(** The first query of a list that yields a row. *)
Fixpoint first_row (qs : list (option DocumentRow)) : option DocumentRow :=
  match qs with
  | [] => None
  | Some r :: _ => Some r
  | None :: qs' => first_row qs'
  end.

(** The five lookups in the order of the source, and the result as the
    id of the first row any of them yields. *)
Lemma resolveDocumentId_cascade (db : Database) (input : jsstring) :
  trim input <> [] ->
  let t := trim input in
  resolveDocumentId db input
  = option_map doc_id
      (first_row [q_direct db t; q_exactTitle db t; q_shortName db t;
                  q_title db (wild t) (wild t) (wild t);
                  q_lower db (wild t) (wild t) (wild t)]).
Proof.
  intros Ht t. unfold resolveDocumentId. fold t.
  destruct t as [|c t'] eqn:E; [contradiction|]. simpl.
  destruct (q_direct db (c :: t')); [reflexivity|].
  destruct (q_exactTitle db (c :: t')); [reflexivity|].
  destruct (q_shortName db (c :: t')); [reflexivity|].
  destruct (q_title db _ _ _); [reflexivity|].
  destruct (q_lower db _ _ _); reflexivity.
Qed.

Ltac split_ranges :=
  unfold ascii_lower, ascii_upper, in_range, ceqb;
  repeat match goal with
         | |- context [N.leb ?a ?b] => destruct (N.leb_spec a b); simpl in *
         end;
  repeat match goal with
         | |- context [N.eqb ?a ?b] => destruct (N.eqb_spec a b); simpl in *
         end; try reflexivity; try lia.

Lemma ascii_lower_percent (c : char) : ceqb (ascii_lower c) 37%N = ceqb c 37%N.
Proof. split_ranges. Qed.

Lemma ascii_lower_underscore (c : char) : ceqb (ascii_lower c) 95%N = ceqb c 95%N.
Proof. split_ranges. Qed.

Lemma ascii_upper_lower (c : char) : ascii_upper (ascii_lower c) = ascii_upper c.
Proof. split_ranges. Qed.

(** Lowering both operands does not change what SQLite's [LIKE] answers. *)
Lemma sql_like_lower (pattern text : jsstring) :
  sql_like (sql_lower pattern) (sql_lower text) = sql_like pattern text.
Proof.
  unfold sql_lower. revert text.
  induction pattern as [|p pattern IH]; intros text.
  - destruct text; reflexivity.
  - simpl. rewrite ascii_lower_percent. destruct (ceqb p 37%N).
    + induction text as [|x text IHt]; simpl.
      * f_equal. exact (IH []).
      * rewrite IHt. f_equal. exact (IH (x :: text)).
    + destruct text as [|x text]; simpl; [reflexivity|].
      now rewrite ascii_lower_underscore, !ascii_upper_lower, IH.
Qed.

Lemma find_pointwise (A : Type) (f g : A -> bool) (l : list A) :
  (forall x, f x = g x) -> find f l = find g l.
Proof.
  intros H. induction l as [|x l IH]; simpl; [reflexivity|].
  now rewrite H, IH.
Qed.

(** The fifth lookup selects the same rows as the fourth, so it never
    finds a document the fourth one missed. *)
Lemma q_lower_is_q_title (db : Database) (p1 p2 p3 : jsstring) :
  q_lower db p1 p2 p3 = q_title db p1 p2 p3.
Proof.
  unfold q_lower, q_title, get. apply find_pointwise. intros r.
  now rewrite !sql_like_lower.
Qed.

Lemma resolveDocumentId_in_store (db : Database) (input docId : jsstring) :
  resolveDocumentId db input = Some docId ->
  exists row, In row (legal_documents db) /\ doc_id row = docId.
Proof.
  unfold resolveDocumentId, q_direct, q_exactTitle, q_shortName, q_title, q_lower, get.
  destruct (negb (truthy (trim input))); [discriminate|].
  repeat match goal with
         | |- context [find ?f ?l] =>
             let E := fresh "E" in
             destruct (find f l) as [row|] eqn:E;
             [ intros H; injection H as <-; exists row; split;
               [ now apply find_some in E | reflexivity ] | ]
         end.
  discriminate.
Qed.

Lemma q_document_finds (db : Database) (row : DocumentRow) :
  In row (legal_documents db) ->
  exists doc, q_document db (doc_id row) = Some doc /\ doc_id doc = doc_id row.
Proof.
  intros Hin. unfold q_document, get, sql_eq.
  destruct (find_exists _ (fun r => seqb (doc_id r) (doc_id row)) _ row Hin
              (seqb_refl _)) as [doc [Hf Hd]].
  exists doc. split; [exact Hf|]. now apply seqb_eq.
Qed.

(** *** Sample store rows *)

Definition row (id title short_name status : string) : DocumentRow :=
  {| doc_id := str id; doc_title := str title; doc_title_en := str title;
     doc_short_name := str short_name; doc_status := str status |}.

Definition store (docs : list DocumentRow) (provs : list ProvisionRow) : Database :=
  {| legal_documents := docs; legal_provisions := provs; db_metadata := None |}.

Definition dpa_row : DocumentRow :=
  row "data-protection-act-2019" "Data Protection Act 2019" "DPA 2019" "in_force".

Definition regs_row : DocumentRow :=
  row "dp-general-regulations-2021" "DATA PROTECTION (GENERAL) REGULATIONS 2021"
      "DPGR 2021" "in_force".

(** The fourth lookup as the claim words it: the first row whose title,
    short name or English title contains the reference as written. *)
Definition q_title_as_written (db : Database) (x : jsstring) : option DocumentRow :=
  get (fun r => includes (doc_title r) x || includes (doc_short_name r) x
                || includes (doc_title_en r) x)
    (legal_documents db).

(** C4.  The lookups run in the order of the claim, but the fourth one is
    not case-sensitive: SQLite's [LIKE] identifies upper and lower case
    ASCII letters.  In a store holding the regulations (title in capitals)
    before the Act, the reference [Data Protection] matches no identifier,
    title or short name exactly, the fourth lookup then selects the
    regulations, whose title, short name and English title do not contain
    the reference as written, and the resolver answers with the regulations,
    where a case-sensitive fourth lookup would have selected the Act. *)
Theorem C4_fourth_lookup_ignores_case :
  let db := store [regs_row; dpa_row] [] in
  let ref := str "Data Protection" in
  q_direct db ref = None
  /\ q_exactTitle db ref = None
  /\ q_shortName db ref = None
  /\ q_title db (wild ref) (wild ref) (wild ref) = Some regs_row
  /\ resolveDocumentId db ref = Some (doc_id regs_row)
  /\ includes (doc_title regs_row) ref = false
  /\ includes (doc_short_name regs_row) ref = false
  /\ includes (doc_title_en regs_row) ref = false
  /\ q_title_as_written db ref = Some dpa_row.
Proof. vm_compute. repeat split; reflexivity. Qed.

(** A reference in lower case is already found by the fourth lookup. *)
Example fourth_lookup_finds_lower_case :
  let db := store [dpa_row] [] in
  let ref := str "data protection" in
  q_title db (wild ref) (wild ref) (wild ref) = Some dpa_row
  /\ q_title_as_written db ref = None.
Proof. vm_compute. split; reflexivity. Qed.

(** C7 as stated fails when a stored identifier carries surrounding white
    space: the resolver trims its input before the identifier lookup. *)
Lemma C7_counterexample :
  let r := row " x1 " "Evidence Act" "Evidence Act" "in_force" in
  let db := store [r] [] in
  In r (legal_documents db) /\ resolveDocumentId db (doc_id r) = None.
Proof. split; [left; reflexivity | vm_compute; reflexivity]. Qed.

(** C7, amended.  Resolving the identifier of a stored document returns
    that identifier, provided the identifier is not empty and has no
    leading or trailing white space. *)
Theorem C7_stored_identifier_resolves_to_itself
  (db : Database) (r : DocumentRow)
  (Hin : In r (legal_documents db))
  (Htrim : trim (doc_id r) = doc_id r)
  (Hne : doc_id r <> []) :
  resolveDocumentId db (doc_id r) = Some (doc_id r).
Proof.
  unfold resolveDocumentId. rewrite Htrim.
  destruct (doc_id r) as [|c i] eqn:E; [contradiction|]. simpl.
  rewrite <- E in *.
  destruct (q_document_finds db r Hin) as [doc [Hq Hd]].
  unfold q_document in Hq. unfold q_direct. rewrite Hq. now rewrite Hd.
Qed.

Lemma C7_stored_identifier_witness :
  resolveDocumentId (store [regs_row; dpa_row] []) (doc_id dpa_row)
  = Some (doc_id dpa_row).
Proof.
  apply (@C7_stored_identifier_resolves_to_itself (store [regs_row; dpa_row] [])
           dpa_row).
  - right; left; reflexivity.
  - vm_compute; reflexivity.
  - discriminate.
Defined.

(** C9.  An identifier the resolver returns is the identifier of a row of
    [legal_documents], and the validator's lookup by that identifier finds
    a row.  So whenever the resolver has returned an identifier for the
    document reference of a citation, the validator, which reads the row
    of its lookup unconditionally, returns a result: it does not read a
    property of a missing row. *)
Theorem C9_resolved_identifier_is_stored
  (db : Database) (input docId citation : jsstring)
  (Hres : resolveDocumentId db input = Some docId) :
  (exists r, In r (legal_documents db) /\ doc_id r = docId)
  /\ (exists doc, q_document db docId = Some doc /\ doc_id doc = docId)
  /\ (forall parsed,
        parseCitation citation = Some parsed -> documentRef parsed = input ->
        exists res, validateCitationTool db citation = Returned res).
Proof.
  destruct (resolveDocumentId_in_store _ _ _ Hres) as [r [Hin Hid]].
  split; [now exists r|]. split.
  - subst docId. exact (q_document_finds db r Hin).
  - intros parsed Hparse Href. unfold validateCitationTool.
    rewrite Hparse, Href, Hres.
    destruct (negb (truthy docId)); [eexists; reflexivity|].
    subst docId. destruct (q_document_finds db r Hin) as [doc [-> _]].
    destruct (match sectionRef parsed with
              | Some sec => if truthy sec then Some sec else None
              | None => None
              end) as [sec|].
    + destruct (q_provision db _ _ _ _ _); eexists; reflexivity.
    + eexists; reflexivity.
Qed.

Lemma C9_resolved_identifier_witness :
  let db := store [regs_row; dpa_row] [] in
  resolveDocumentId db (str "dpa 2019") = Some (doc_id dpa_row)
  /\ (exists doc, q_document db (doc_id dpa_row) = Some doc
                  /\ doc_id doc = doc_id dpa_row)
  /\ exists res, validateCitationTool db (str "s 25, dpa 2019") = Returned res.
Proof.
  intros db.
  assert (Hres : resolveDocumentId db (str "dpa 2019") = Some (doc_id dpa_row))
    by (vm_compute; reflexivity).
  destruct (@C9_resolved_identifier_is_stored db (str "dpa 2019") (doc_id dpa_row)
              (str "s 25, dpa 2019") Hres) as [_ [Hdoc Hret]].
  split; [exact Hres|]. split; [exact Hdoc|].
  apply (Hret {| documentRef := str "dpa 2019"; sectionRef := Some (str "25") |});
    vm_compute; reflexivity.
Defined.

(** ** The validator's status advisories (C2) *)

(** The citation parses and its document reference resolves to [doc]. *)
Definition resolves_to (db : Database) (citation : jsstring) (doc : DocumentRow)
  : Prop :=
  exists parsed docId,
    parseCitation citation = Some parsed
    /\ resolveDocumentId db (documentRef parsed) = Some docId
    /\ q_document db docId = Some doc.

Definition future_row : DocumentRow :=
  row "finance-act-2030" "Finance Act 2030" "FA 2030" "not_yet_in_force".

Definition repealed_row : DocumentRow :=
  row "companies-act-cap-486" "Companies Act (Cap 486)" "Cap 486" "repealed".

Definition cmca_row : DocumentRow :=
  row "computer-misuse-cybercrimes-act-2018" "Computer Misuse and Cybercrimes Act 2018"
      "CMCA 2018" "partially_suspended".

Definition sample_store : Database :=
  store [dpa_row; cmca_row]
    [{| prov_document_id := doc_id dpa_row; prov_provision_ref := str "s25";
        prov_section := str "25" |};
     {| prov_document_id := doc_id cmca_row; prov_provision_ref := str "s22";
        prov_section := str "22" |}].

(** The validator on three citations: a provision that exists in a
    statute in force, one that does not exist, and one in a partially
    suspended statute. *)
Example validateCitationTool_examples :
  List.map (fun x =>
              match validateCitationTool sample_store (str x) with
              | Returned res =>
                  Some (valid (results res),
                        ValidateCitation.provision_ref (results res),
                        warnings (results res))
              | TypeError => None
              end)
    ["Section 25, Data Protection Act 2019"; "Section 99, Data Protection Act 2019";
     "s 22 of the CMCA 2018"]%string
  = [Some (true, Some (str "s25"), []);
     Some (false, None,
           [msg_no_provision (str "99") (str "Data Protection Act 2019")]);
     Some (true, Some (str "s22"), [msg_suspended])].
Proof. vm_compute. reflexivity. Qed.

(** C2 as stated fails for [not_yet_in_force]: a citation of such a
    document is valid and carries no warning at all. *)
Lemma C2_counterexample :
  let db := store [future_row] [] in
  let citation := str "Finance Act 2030" in
  resolves_to db citation future_row
  /\ doc_status future_row = str "not_yet_in_force"
  /\ exists res,
       validateCitationTool db citation = Returned res
       /\ valid (results res) = true
       /\ warnings (results res) = [].
Proof.
  intros db citation. split; [|split; [reflexivity|]].
  - exists {| documentRef := citation; sectionRef := None |}, (doc_id future_row).
    vm_compute. repeat split; reflexivity.
  - eexists. vm_compute. repeat split; reflexivity.
Qed.

(** C2, amended.  When the citation parses and resolves to a document
    whose status is [repealed], [amended] or [partially_suspended], the
    validator returns a result with a non-empty list of warnings.  The
    statuses [not_yet_in_force] and [in_force] add no advisory. *)
Theorem C2_status_advisory_is_surfaced
  (db : Database) (citation : jsstring) (doc : DocumentRow)
  (Hdoc : resolves_to db citation doc)
  (Hst : doc_status doc = str "repealed" \/ doc_status doc = str "amended"
         \/ doc_status doc = str "partially_suspended") :
  (exists res, validateCitationTool db citation = Returned res
               /\ warnings (results res) <> [])
  /\ status_warnings (str "not_yet_in_force") = []
  /\ status_warnings (str "in_force") = [].
Proof.
  split; [|split; reflexivity].
  destruct Hdoc as [parsed [docId [Hp [Hr Hq]]]].
  unfold validateCitationTool. rewrite Hp, Hr.
  destruct (negb (truthy docId)).
  { eexists; split; [reflexivity|]. simpl. discriminate. }
  rewrite Hq.
  assert (Hw : exists w ws, status_warnings (doc_status doc) = w :: ws).
  { destruct Hst as [-> | [-> | ->]]; vm_compute; eauto. }
  destruct Hw as [w [ws ->]].
  destruct (match sectionRef parsed with
            | Some sec => if truthy sec then Some sec else None
            | None => None
            end) as [sec|].
  - destruct (q_provision db _ _ _ _ _);
      eexists; (split; [reflexivity|]); simpl; discriminate.
  - eexists; split; [reflexivity|]. simpl. discriminate.
Qed.

Lemma C2_status_advisory_witness :
  exists res,
    validateCitationTool (store [repealed_row] []) (str "s 3, Cap 486") = Returned res
    /\ warnings (results res) <> [].
Proof.
  apply (@C2_status_advisory_is_surfaced (store [repealed_row] [])
           (str "s 3, Cap 486") repealed_row).
  - exists {| documentRef := str "Cap 486"; sectionRef := Some (str "3") |},
      (doc_id repealed_row).
    vm_compute. repeat split; reflexivity.
  - left. reflexivity.
Defined.

(** ** Formatting and re-parsing (C3, C6) *)

(** The parser on the shapes of its documentation, and on inputs where the
    order of the matcher's choices shows: the lazy law name of the trailing
    shapes, and the optional [the] given back when no space follows it. *)
Example parseCitation_examples :
  List.map (fun x => parseCitation (str x))
    ["Section 25, Data Protection Act 2019"; "s 25, Data Protection Act 2019";
     "Section 25 of the Data Protection Act, 2019";
     "Data Protection Act 2019, Section 25";
     "Article 31, Constitution of Kenya 2010"; "Evidence Act";
     "Acts 5"; "Section 5 of theory"; "SEC. 25a; the Act"]%string
  = List.map (fun p => Some {| documentRef := str (fst p);
                               sectionRef := option_map str (snd p) |})
    [("Data Protection Act 2019", Some "25"); ("Data Protection Act 2019", Some "25");
     ("Data Protection Act, 2019", Some "25"); ("Data Protection Act 2019", Some "25");
     ("Constitution of Kenya 2010", Some "31"); ("Evidence Act", None);
     ("Act", Some "5"); ("theory", Some "5"); ("SEC. 25a; the Act", None)]%string.
Proof. vm_compute. reflexivity. Qed.

(** The formatter on the scenario of its documentation. *)
Example formatCitationTool_short :
  formatted (formatCitationTool
               {| fi_citation := str "s 25, Data Protection Act 2019 (No. 24 of 2019)";
                  fi_format := Some short |})
  = str "s 25, Data Protection Act 2019".
Proof. vm_compute. reflexivity. Qed.

Definition format_full (citation : jsstring) : jsstring :=
  formatted (formatCitationTool {| fi_citation := citation; fi_format := None |}).

(** C3.  The round trip fails on the parser's own [of the] shape.  The
    parser reads [Section 25 of the Data Protection Act, 2019] as section
    [25] of [Data Protection Act, 2019].  The formatter's leading pattern
    knows no [of], takes everything after the number as the law and
    renders [Section 25, of the Data Protection Act, 2019]; parsing that
    gives the document reference [of the Data Protection Act, 2019]. *)
Theorem C3_round_trip_breaks_on_of_the :
  let x := str "Section 25 of the Data Protection Act, 2019" in
  parseCitation x
  = Some {| documentRef := str "Data Protection Act, 2019";
            sectionRef := Some (str "25") |}
  /\ format_full x = str "Section 25, of the Data Protection Act, 2019"
  /\ parseCitation (format_full x)
     = Some {| documentRef := str "of the Data Protection Act, 2019";
               sectionRef := Some (str "25") |}.
Proof. vm_compute. repeat split; reflexivity. Qed.

(** The same happens on a citation the parser reads as a bare document
    reference and the formatter reads as a leading section. *)
Example round_trip_breaks_without_comma :
  let x := str "s 25 Data Protection Act" in
  parseCitation x = Some {| documentRef := x; sectionRef := None |}
  /\ format_full x = str "Section 25, Data Protection Act"
  /\ parseCitation (format_full x)
     = Some {| documentRef := str "Data Protection Act";
               sectionRef := Some (str "25") |}.
Proof. vm_compute. repeat split; reflexivity. Qed.

(** The comma-separated shapes of the parser's documentation do round-trip. *)
Definition comma_shapes : list string :=
  ["Section 25, Data Protection Act 2019"; "s 25, Data Protection Act 2019";
   "Data Protection Act 2019, Section 25"; "Article 31, Constitution of Kenya 2010";
   "Constitution of Kenya 2010, Article 31"]%string.

Example round_trip_holds_on_comma_shapes :
  List.map (fun x => parseCitation (format_full (str x))) comma_shapes
  = List.map (fun x => parseCitation (str x)) comma_shapes.
Proof. vm_compute. reflexivity. Qed.

(** C6 as stated fails when the citation has surrounding white space: the
    formatter works on the trimmed citation. *)
Lemma C6_counterexample :
  let citation := str " Evidence Act" in
  let t := trim citation in
  FormatCitation.secFirst t = None /\ FormatCitation.secLast t = None
  /\ FormatCitation.artFirst t = None /\ FormatCitation.artLast t = None
  /\ formatted (formatCitationTool {| fi_citation := citation; fi_format := Some full |})
     <> citation.
Proof. vm_compute. repeat split; try reflexivity. discriminate. Qed.

(** C6, amended.  When none of the four shapes matches the trimmed
    citation, the formatted result is the trimmed citation, in every mode
    and also when no mode is given. *)
Theorem C6_no_section_returns_trimmed_citation
  (citation : jsstring) (mode : option Format)
  (H1 : FormatCitation.secFirst (trim citation) = None)
  (H2 : FormatCitation.secLast (trim citation) = None)
  (H3 : FormatCitation.artFirst (trim citation) = None)
  (H4 : FormatCitation.artLast (trim citation) = None) :
  formatted (formatCitationTool {| fi_citation := citation; fi_format := mode |})
  = trim citation.
Proof.
  unfold formatCitationTool. cbn [fi_citation fi_format].
  rewrite H1, H2, H3, H4. cbn.
  destruct mode as [[| |]|]; reflexivity.
Qed.

Lemma C6_no_section_witness :
  formatted (formatCitationTool {| fi_citation := str " Evidence Act";
                                   fi_format := Some pinpoint |})
  = trim (str " Evidence Act").
Proof.
  apply (@C6_no_section_returns_trimmed_citation (str " Evidence Act") (Some pinpoint));
    vm_compute; reflexivity.
Defined.

(** ** The structural extractor (C5, C8, C10) *)

(** The section's markup: [html.substring(start.index, endIndex)]. *)
Definition sectionHtml_of (html : jsstring) (start : SectionStart) (endIndex : nat)
  : jsstring :=
  substring (start_index start) endIndex html.

(** The trimmed text of the section's first [h3] heading. *)
Definition heading_of (sectionHtml : jsstring) : option jsstring :=
  match exec false re_heading sectionHtml with
  | Some headingMatch => Some (trim (group 1 headingMatch))
  | None => None
  end.

(** The section's text: heading removed, markup stripped. *)
Definition stripped_content (sectionHtml : jsstring) : jsstring :=
  stripHtml (replace_first false re_heading_opt [] sectionHtml).

Definition provisionRef_of (sectionId sectionNum : jsstring) : jsstring :=
  if includes sectionId (str "__art_") then str "art" ++ sectionNum
  else str "s" ++ sectionNum.

Definition is_definition_title (title : jsstring) : bool :=
  includes (toLowerCase title) (str "interpretation")
  || includes (toLowerCase title) (str "definition").

(** The heading text and section number of a section the loop does not
    skip. *)
Definition recognise (html : jsstring) (start : SectionStart) (endIndex : nat)
  : option (jsstring * jsstring) :=
  match heading_of (sectionHtml_of html start endIndex) with
  | None => None
  | Some headingText =>
      match extractSectionNumber headingText with
      | None => None
      | Some sectionNum =>
          if truthy sectionNum then Some (headingText, sectionNum) else None
      end
  end.

(** The provision pushed for a recognised section. *)
Definition emit (html : jsstring) (start : SectionStart) (endIndex : nat)
  (headingText sectionNum : jsstring) : ParsedProvision :=
  {| provision_ref := provisionRef_of (start_id start) sectionNum;
     chapter := extractChapter (start_id start);
     section := sectionNum;
     title := extractSectionTitle headingText;
     content :=
       substring 0 content_cap (stripped_content (sectionHtml_of html start endIndex)) |}.

(** What one iteration pushes onto [provisions] ... *)
Definition pushed (html : jsstring) (start : SectionStart) (endIndex : nat)
  : list ParsedProvision :=
  match recognise html start endIndex with
  | Some (headingText, sectionNum) =>
      if Nat.ltb 10 (length (stripped_content (sectionHtml_of html start endIndex)))
      then [emit html start endIndex headingText sectionNum]
      else []
  | None => []
  end.

(** ... and onto [definitions]. *)
Definition found (html : jsstring) (start : SectionStart) (endIndex : nat)
  : list ParsedDefinition :=
  match recognise html start endIndex with
  | Some (headingText, sectionNum) =>
      if is_definition_title (extractSectionTitle headingText)
      then extractDefinitions (sectionHtml_of html start endIndex)
             (provisionRef_of (start_id start) sectionNum) []
      else []
  | None => []
  end.

Fixpoint all_pushed (html : jsstring) (starts : list SectionStart)
  : list ParsedProvision :=
  match starts with
  | [] => []
  | start :: rest => pushed html start (end_of html rest) ++ all_pushed html rest
  end.

Fixpoint all_found (html : jsstring) (starts : list SectionStart)
  : list ParsedDefinition :=
  match starts with
  | [] => []
  | start :: rest => found html start (end_of html rest) ++ all_found html rest
  end.

Lemma extractChapter_part_III (rest : jsstring) :
  extractChapter (str "part_III__" ++ rest) = Some (str "Part III").
Proof. vm_compute. reflexivity. Qed.

Lemma firstn_min_length (A : Type) (n : nat) (l : list A) :
  firstn (Nat.min n (length l)) l = firstn n l.
Proof.
  revert n; induction l as [|x l IH]; intros [|n]; simpl; try reflexivity.
  now rewrite IH.
Qed.

Lemma substring_0 (n : nat) (s : jsstring) : substring 0 n s = firstn n s.
Proof.
  unfold substring. rewrite Nat.min_0_l, Nat.max_0_l, Nat.sub_0_r.
  exact (firstn_min_length _ n s).
Qed.

Lemma in_guarded (A : Type) (b : bool) (l : list A) (x : A) :
  In x (if b then l else []) <-> b = true /\ In x l.
Proof. destruct b; simpl; intuition congruence. Qed.

Lemma fold_left_push (A B : Type) (f : list A -> B -> list A) (g : B -> list A) :
  (forall l b, f l b = l ++ g b) ->
  forall bs l, fold_left f bs l = l ++ flat_map g bs.
Proof.
  intros Hf bs; induction bs as [|b bs IH]; intros l; simpl.
  - symmetry. apply app_nil_r.
  - rewrite IH, Hf. symmetry. apply app_assoc.
Qed.

(** What looking at one [akn-p] element adds. *)
Definition added (ref p : jsstring) : list ParsedDefinition := definition_of ref [] p.

Lemma definition_of_app (ref : jsstring) (ds : list ParsedDefinition) (p : jsstring) :
  definition_of ref ds p = ds ++ added ref p.
Proof.
  unfold added, definition_of.
  generalize (exec true re_definition (stripHtml p)). intros [m|].
  - generalize (trim (group 1 m)).
    generalize (trim (replace_first false re_trailing_semicolon [] (group 3 m))).
    intros def tm. destruct (Nat.ltb 0 (length tm) && Nat.ltb 5 (length def)).
    + reflexivity.
    + symmetry. apply app_nil_r.
  - symmetry. apply app_nil_r.
Qed.

Lemma added_source (ref p : jsstring) (d : ParsedDefinition) :
  In d (added ref p) -> source_provision d = Some ref.
Proof.
  unfold added, definition_of.
  generalize (exec true re_definition (stripHtml p)). intros [m|].
  - generalize (trim (group 1 m)).
    generalize (trim (replace_first false re_trailing_semicolon [] (group 3 m))).
    intros def tm. destruct (Nat.ltb 0 (length tm) && Nat.ltb 5 (length def)).
    + intros [H|[]]. rewrite <- H. reflexivity.
    + intros [].
  - intros [].
Qed.

Lemma extractDefinitions_eq (sectionHtml ref : jsstring) (ds : list ParsedDefinition) :
  extractDefinitions sectionHtml ref ds
  = ds ++ flat_map (added ref) (match_all false re_p sectionHtml).
Proof.
  unfold extractDefinitions.
  apply (fold_left_push _ _ (definition_of ref) (added ref) (definition_of_app ref)).
Qed.

Lemma extractDefinitions_app (sectionHtml ref : jsstring)
  (ds : list ParsedDefinition) :
  extractDefinitions sectionHtml ref ds = ds ++ extractDefinitions sectionHtml ref [].
Proof. now rewrite (extractDefinitions_eq _ _ ds), (extractDefinitions_eq _ _ []). Qed.

Lemma extractDefinitions_source (sectionHtml ref : jsstring) (d : ParsedDefinition) :
  In d (extractDefinitions sectionHtml ref []) -> source_provision d = Some ref.
Proof.
  rewrite extractDefinitions_eq. intros H.
  apply in_flat_map in H as [p [_ H]]. exact (added_source ref p d H).
Qed.

Lemma section_step_eq (html : jsstring) (start : SectionStart) (endIndex : nat)
  (ps : list ParsedProvision) (ds : list ParsedDefinition) :
  section_step html start endIndex (ps, ds)
  = (ps ++ pushed html start endIndex, ds ++ found html start endIndex).
Proof.
  unfold section_step, pushed, found, recognise, heading_of, emit, stripped_content,
    provisionRef_of, is_definition_title, sectionHtml_of.
  destruct (exec false re_heading _) as [headingMatch|].
  2: { now rewrite !app_nil_r. }
  destruct (extractSectionNumber _) as [sectionNum|].
  2: { now rewrite !app_nil_r. }
  destruct (truthy sectionNum).
  2: { now rewrite !app_nil_r. }
  cbv beta iota zeta delta [negb].
  rewrite extractDefinitions_app.
  destruct (Nat.ltb 10 _); destruct (_ || _); rewrite ?app_nil_r; reflexivity.
Qed.

Lemma sections_loop_eq (html : jsstring) (starts : list SectionStart)
  (ps : list ParsedProvision) (ds : list ParsedDefinition) :
  sections_loop html starts (ps, ds)
  = (ps ++ all_pushed html starts, ds ++ all_found html starts).
Proof.
  revert ps ds; induction starts as [|start rest IH]; intros ps ds.
  - cbn [sections_loop all_pushed all_found]. now rewrite !app_nil_r.
  - cbn [sections_loop all_pushed all_found].
    rewrite section_step_eq, IH. now rewrite !app_assoc.
Qed.

(** The extractor's two lists, section by section in document order. *)
Lemma parseKenyaLawHtml_eq (html : jsstring) (act : ActIndexEntry) :
  provisions (parseKenyaLawHtml html act) = all_pushed html (sectionStarts html)
  /\ definitions (parseKenyaLawHtml html act) = all_found html (sectionStarts html).
Proof.
  unfold parseKenyaLawHtml. rewrite sections_loop_eq. split; reflexivity.
Qed.

(** A recognised section whose text is long enough to be pushed. *)
Definition emitted (html : jsstring) (starts : list SectionStart)
  (p : ParsedProvision) : Prop :=
  exists l1 start l2 headingText sectionNum,
    starts = l1 ++ start :: l2
    /\ recognise html start (end_of html l2) = Some (headingText, sectionNum)
    /\ 10 < length (stripped_content (sectionHtml_of html start (end_of html l2)))
    /\ p = emit html start (end_of html l2) headingText sectionNum.

(** A definition found in a recognised section with a definitions title. *)
Definition defined_in (html : jsstring) (starts : list SectionStart)
  (d : ParsedDefinition) : Prop :=
  exists l1 start l2 headingText sectionNum,
    starts = l1 ++ start :: l2
    /\ recognise html start (end_of html l2) = Some (headingText, sectionNum)
    /\ is_definition_title (extractSectionTitle headingText) = true
    /\ In d (extractDefinitions (sectionHtml_of html start (end_of html l2))
               (provisionRef_of (start_id start) sectionNum) [])
    /\ source_provision d = Some (provisionRef_of (start_id start) sectionNum).

Lemma in_pushed (html : jsstring) (start : SectionStart) (endIndex : nat)
  (p : ParsedProvision) :
  In p (pushed html start endIndex)
  <-> exists headingText sectionNum,
        recognise html start endIndex = Some (headingText, sectionNum)
        /\ 10 < length (stripped_content (sectionHtml_of html start endIndex))
        /\ p = emit html start endIndex headingText sectionNum.
Proof.
  unfold pushed.
  generalize (stripped_content (sectionHtml_of html start endIndex)).
  generalize (emit html start endIndex).
  generalize (recognise html start endIndex).
  intros [[h n]|] e c.
  - rewrite in_guarded, Nat.ltb_lt. split.
    + intros [L [H|[]]]. exists h, n. split; [reflexivity|]. split; [exact L|].
      symmetry; exact H.
    + intros [h' [n' [E [L H]]]]. injection E as <- <-.
      split; [exact L | left; symmetry; exact H].
  - split; [intros [] | intros [h [n [E _]]]; discriminate E].
Qed.

Lemma in_found (html : jsstring) (start : SectionStart) (endIndex : nat)
  (d : ParsedDefinition) :
  In d (found html start endIndex)
  <-> exists headingText sectionNum,
        recognise html start endIndex = Some (headingText, sectionNum)
        /\ is_definition_title (extractSectionTitle headingText) = true
        /\ In d (extractDefinitions (sectionHtml_of html start endIndex)
                   (provisionRef_of (start_id start) sectionNum) [])
        /\ source_provision d = Some (provisionRef_of (start_id start) sectionNum).
Proof.
  unfold found. destruct (recognise html start endIndex) as [[h n]|].
  - rewrite in_guarded. split.
    + intros [T H]. exists h, n. split; [reflexivity|]. split; [exact T|].
      split; [exact H | exact (extractDefinitions_source _ _ d H)].
    + intros [h' [n' [E [T [H _]]]]]. injection E as <- <-.
      split; [exact T | exact H].
  - split; [intros [] | intros [h [n [E _]]]; discriminate E].
Qed.

Lemma in_all_pushed (html : jsstring) (starts : list SectionStart)
  (p : ParsedProvision) :
  In p (all_pushed html starts) <-> emitted html starts p.
Proof.
  unfold emitted. induction starts as [|start rest IH]; cbn [all_pushed].
  - split; [intros [] | intros [l1 [s [l2 [h [n [E _]]]]]]; destruct l1; discriminate E].
  - rewrite in_app_iff, IH, in_pushed. split.
    + intros [[h [n H]]|[l1 [s [l2 [h [n [E H]]]]]]].
      * exists [], start, rest, h, n. split; [reflexivity | exact H].
      * exists (start :: l1), s, l2, h, n. split; [rewrite E; reflexivity | exact H].
    + intros [l1 [s [l2 [h [n [E H]]]]]].
      destruct l1 as [|s0 l1]; cbn [app] in E; injection E as -> ->.
      * left. exists h, n. exact H.
      * right. exists l1, s, l2, h, n. split; [reflexivity | exact H].
Qed.

Lemma in_all_found (html : jsstring) (starts : list SectionStart)
  (d : ParsedDefinition) :
  In d (all_found html starts) <-> defined_in html starts d.
Proof.
  unfold defined_in. induction starts as [|start rest IH]; cbn [all_found].
  - split; [intros [] | intros [l1 [s [l2 [h [n [E _]]]]]]; destruct l1; discriminate E].
  - rewrite in_app_iff, IH, in_found. split.
    + intros [[h [n H]]|[l1 [s [l2 [h [n [E H]]]]]]].
      * exists [], start, rest, h, n. split; [reflexivity | exact H].
      * exists (start :: l1), s, l2, h, n. split; [rewrite E; reflexivity | exact H].
    + intros [l1 [s [l2 [h [n [E H]]]]]].
      destruct l1 as [|s0 l1]; cbn [app] in E; injection E as -> ->.
      * left. exists h, n. exact H.
      * right. exists l1, s, l2, h, n. split; [reflexivity | exact H].
Qed.

(** *** Sample markup *)

Definition quoted (s : string) : jsstring := [dq] ++ str s ++ [dq].

Definition section_open (id : string) : jsstring :=
  str "<section class=" ++ quoted "akn-section" ++ str " id=" ++ quoted id
  ++ str " data-eid=" ++ quoted id ++ str ">".

Definition akn_p (text : string) : jsstring :=
  str "<span class=" ++ quoted "akn-p" ++ str ">" ++ str text ++ str "</span>".

Definition section_25 (id : string) : jsstring :=
  section_open id ++ str "<h3>25. Principles of data protection</h3>"
  ++ akn_p "Every data controller shall ensure that personal data is processed lawfully."
  ++ str "</section>".

Definition section_2 : jsstring :=
  section_open "part_I__sec_2" ++ str "<h3>2. Interpretation</h3>"
  ++ akn_p "&quot;data&quot; means information of any kind;"
  ++ str "</section>".

Definition sample_act : ActIndexEntry :=
  {| act_id := str "data-protection-act-2019";
     act_title := str "Data Protection Act 2019";
     act_titleEn := str "Data Protection Act 2019";
     act_shortName := str "DPA 2019";
     act_status := in_force;
     act_issuedDate := str "2019-11-08";
     act_inForceDate := str "2019-11-25";
     act_url := str "https://new.kenyalaw.org/akn/ke/act/2019/24/";
     act_aknNumber := str "24";
     act_aknYear := str "2019";
     act_description := None |}.

Definition sample_html : jsstring :=
  str "<html><body>" ++ section_2 ++ section_25 "part_III__sec_25"
  ++ str "</body></html>".

Example sample_html_parses :
  let act := parseKenyaLawHtml sample_html sample_act in
  List.map (fun p => (provision_ref p, chapter p, section p, title p)) (provisions act)
  = [(str "s2", Some (str "Part I"), str "2", str "Interpretation");
     (str "s25", Some (str "Part III"), str "25", str "Principles of data protection")]
  /\ definitions act
     = [{| term := str "data"; definition := str "information of any kind";
           source_provision := Some (str "s2") |}].
Proof. vm_compute. split; reflexivity. Qed.

Lemma extractSectionNumber_25 :
  extractSectionNumber (str "25. Principles of data protection") = Some (str "25").
Proof. vm_compute. reflexivity. Qed.

Lemma extractSectionTitle_25 :
  extractSectionTitle (str "25. Principles of data protection")
  = str "Principles of data protection".
Proof. vm_compute. reflexivity. Qed.

(** C5 as stated fails when the identifier contains [part_III__sec_25]
    without starting with it: in a part nested in a chapter the chapter
    label is taken from the leading [chp_] prefix. *)
Lemma C5_counterexample :
  let html := section_25 "chp_FOUR__part_III__sec_25" in
  exists start,
    sectionStarts html = [start]
    /\ includes (start_id start) (str "part_III__sec_25") = true
    /\ heading_of (sectionHtml_of html start (length html))
       = Some (str "25. Principles of data protection")
    /\ Nat.ltb 10 (length (stripped_content (sectionHtml_of html start (length html))))
       = true
    /\ List.map (fun p => (provision_ref p, chapter p, section p, title p))
         (provisions (parseKenyaLawHtml html sample_act))
       = [(str "s25", Some (str "Chapter FOUR"), str "25",
           str "Principles of data protection")].
Proof.
  exists {| start_id := str "chp_FOUR__part_III__sec_25"; start_index := 0 |}.
  vm_compute. repeat split; reflexivity.
Qed.

(** C5, amended.  A section whose identifier starts with [part_III__]
    and holds no [__art_] segment, whose first [h3] heading reads
    [25. Principles of data protection] and whose stripped text is longer
    than 10 characters, is emitted with section [25], title
    [Principles of data protection], chapter [Part III] and provision
    reference [s25]. *)
Theorem C5_part_III_section_25_is_emitted
  (html : jsstring) (act : ActIndexEntry)
  (l1 l2 : list SectionStart) (start : SectionStart) (rest : jsstring)
  (Hstarts : sectionStarts html = l1 ++ start :: l2)
  (Hid : start_id start = str "part_III__" ++ rest)
  (Hart : includes (start_id start) (str "__art_") = false)
  (Hheading : heading_of (sectionHtml_of html start (end_of html l2))
              = Some (str "25. Principles of data protection"))
  (Hlong : 10 < length (stripped_content (sectionHtml_of html start (end_of html l2)))) :
  In {| provision_ref := str "s25";
        chapter := Some (str "Part III");
        section := str "25";
        title := str "Principles of data protection";
        content := firstn (N.to_nat 12000)
                     (stripped_content (sectionHtml_of html start (end_of html l2))) |}
     (provisions (parseKenyaLawHtml html act)).
Proof.
  destruct (parseKenyaLawHtml_eq html act) as [-> _].
  apply in_all_pushed.
  exists l1, start, l2, (str "25. Principles of data protection"), (str "25").
  split; [exact Hstarts|]. split.
  - unfold recognise. rewrite Hheading, extractSectionNumber_25. reflexivity.
  - split; [exact Hlong|].
    unfold emit, provisionRef_of. rewrite Hart, extractSectionTitle_25, substring_0.
    rewrite Hid, extractChapter_part_III. unfold content_cap. reflexivity.
Qed.

Lemma C5_part_III_section_25_witness :
  exists p,
    In p (provisions (parseKenyaLawHtml sample_html sample_act))
    /\ (provision_ref p, chapter p, section p, title p)
       = (str "s25", Some (str "Part III"), str "25",
          str "Principles of data protection").
Proof.
  eexists. split.
  - apply (@C5_part_III_section_25_is_emitted sample_html sample_act
             [{| start_id := str "part_I__sec_2"; start_index := 12 |}] []
             {| start_id := str "part_III__sec_25"; start_index := 195 |}
             (str "sec_25")); vm_compute; try reflexivity.
    repeat constructor.
  - reflexivity.
Defined.

(** C8.  Every emitted provision comes from a recognised section whose
    stripped text is longer than 10 characters, its content is the first
    12,000 characters of that text, and so is at most 12,000 characters
    long. *)
Theorem C8_emitted_content_is_capped
  (html : jsstring) (act : ActIndexEntry) (p : ParsedProvision)
  (Hin : In p (provisions (parseKenyaLawHtml html act))) :
  exists l1 start l2 headingText sectionNum,
    sectionStarts html = l1 ++ start :: l2
    /\ recognise html start (end_of html l2) = Some (headingText, sectionNum)
    /\ 10 < length (stripped_content (sectionHtml_of html start (end_of html l2)))
    /\ content p
       = firstn (N.to_nat 12000)
           (stripped_content (sectionHtml_of html start (end_of html l2)))
    /\ length (content p)
       = Nat.min (N.to_nat 12000)
           (length (stripped_content (sectionHtml_of html start (end_of html l2))))
    /\ (N.of_nat (length (content p)) <= 12000)%N.
Proof.
  destruct (parseKenyaLawHtml_eq html act) as [E _]. rewrite E in Hin.
  apply in_all_pushed in Hin as [l1 [start [l2 [h [n [Hs [Hr [Hl Hp]]]]]]]].
  exists l1, start, l2, h, n.
  split; [exact Hs|]. split; [exact Hr|]. split; [exact Hl|].
  assert (Hc : content p
               = firstn (N.to_nat 12000)
                   (stripped_content (sectionHtml_of html start (end_of html l2)))).
  { rewrite Hp. unfold emit, content_cap. cbn [content]. apply substring_0. }
  split; [exact Hc|]. rewrite Hc, length_firstn.
  split; [reflexivity|].
  rewrite Nat2N.inj_min, N2Nat.id. apply N.le_min_l.
Qed.

Definition sample_provision_25 : ParsedProvision :=
  {| provision_ref := str "s25";
     chapter := Some (str "Part III");
     section := str "25";
     title := str "Principles of data protection";
     content :=
       str "Every data controller shall ensure that personal data is processed lawfully." |}.

Lemma C8_emitted_content_witness :
  In sample_provision_25 (provisions (parseKenyaLawHtml sample_html sample_act))
  /\ (N.of_nat (length (content sample_provision_25)) <= 12000)%N.
Proof.
  assert (H : In sample_provision_25
                (provisions (parseKenyaLawHtml sample_html sample_act))).
  { vm_compute. right. left. reflexivity. }
  split; [exact H|].
  destruct (@C8_emitted_content_is_capped sample_html sample_act
              sample_provision_25 H)
    as [l1 [start [l2 [h [n [_ [_ [_ [_ [_ Hcap]]]]]]]]]].
  exact Hcap.
Defined.

(** C10.  The definitions of the result are exactly those found in the
    recognised sections whose title contains [interpretation] or
    [definition] in any letter case, whatever the length of the section's
    stripped text, and each carries its section's provision reference as
    [source_provision]. *)
Theorem C10_definitions_carry_their_section
  (html : jsstring) (act : ActIndexEntry) (d : ParsedDefinition) :
  In d (definitions (parseKenyaLawHtml html act))
  <-> exists l1 start l2 headingText sectionNum,
        sectionStarts html = l1 ++ start :: l2
        /\ recognise html start (end_of html l2) = Some (headingText, sectionNum)
        /\ is_definition_title (extractSectionTitle headingText) = true
        /\ In d (extractDefinitions (sectionHtml_of html start (end_of html l2))
                   (provisionRef_of (start_id start) sectionNum) [])
        /\ source_provision d = Some (provisionRef_of (start_id start) sectionNum).
Proof.
  destruct (parseKenyaLawHtml_eq html act) as [_ ->].
  exact (in_all_found html (sectionStarts html) d).
Qed.

Definition sample_definition : ParsedDefinition :=
  {| term := str "data"; definition := str "information of any kind";
     source_provision := Some (str "s2") |}.

Lemma C10_definitions_witness :
  exists l1 start l2 headingText sectionNum,
    sectionStarts sample_html = l1 ++ start :: l2
    /\ recognise sample_html start (end_of sample_html l2)
       = Some (headingText, sectionNum)
    /\ is_definition_title (extractSectionTitle headingText) = true
    /\ In sample_definition
         (extractDefinitions (sectionHtml_of sample_html start (end_of sample_html l2))
            (provisionRef_of (start_id start) sectionNum) [])
    /\ source_provision sample_definition
       = Some (provisionRef_of (start_id start) sectionNum).
Proof.
  apply (proj1 (C10_definitions_carry_their_section sample_html sample_act
                  sample_definition)).
  vm_compute. left. reflexivity.
Defined.

(** * Further properties *)

(** ** White space around the input *)

(** A string that is empty or starts with a character that is not white
    space. *)
Definition headed (s : jsstring) : bool :=
  match s with
  | [] => true
  | c :: _ => negb (is_space c)
  end.

Lemma trimStart_headed (s : jsstring) : headed (trimStart s) = true.
Proof.
  induction s as [|c s IH]; [reflexivity|]. cbn [trimStart].
  destruct (is_space c) eqn:E; [exact IH|]. cbn [headed]. now rewrite E.
Qed.

Lemma trimStart_fixed (s : jsstring) : headed s = true -> trimStart s = s.
Proof.
  destruct s as [|c s]; [reflexivity|]. cbn [headed trimStart].
  now destruct (is_space c).
Qed.

Lemma trimStart_snoc (l : jsstring) (c : char) :
  is_space c = false -> trimStart (l ++ [c]) = trimStart l ++ [c].
Proof.
  intros Hc. induction l as [|x l IH]; cbn [app trimStart].
  - now rewrite Hc.
  - now destruct (is_space x).
Qed.

Lemma trimEnd_headed (s : jsstring) : headed s = true -> headed (trimEnd s) = true.
Proof.
  destruct s as [|c s]; [reflexivity|]. cbn [headed]. intros Hc.
  apply negb_true_iff in Hc. unfold trimEnd. cbn [rev].
  rewrite (trimStart_snoc _ _ Hc), rev_app_distr. cbn [rev app headed].
  now rewrite Hc.
Qed.

Lemma trimEnd_idempotent (s : jsstring) : trimEnd (trimEnd s) = trimEnd s.
Proof.
  unfold trimEnd. rewrite rev_involutive.
  now rewrite (trimStart_fixed _ (trimStart_headed (rev s))).
Qed.

Lemma trim_idempotent (s : jsstring) : trim (trim s) = trim s.
Proof.
  unfold trim.
  rewrite (trimStart_fixed _ (trimEnd_headed _ (trimStart_headed s))).
  apply trimEnd_idempotent.
Qed.

Lemma parseCitation_trim (citation : jsstring) :
  parseCitation (trim citation) = parseCitation citation.
Proof. unfold parseCitation. now rewrite trim_idempotent. Qed.

(** X1.  The resolver, the citation parser and the formatter (in every mode)
    do not see white space around their input. *)
Theorem citation_tools_ignore_outer_space
  (db : Database) (citation : jsstring) (mode : option Format) :
  resolveDocumentId db (trim citation) = resolveDocumentId db citation
  /\ parseCitation (trim citation) = parseCitation citation
  /\ formatted (formatCitationTool {| fi_citation := trim citation; fi_format := mode |})
     = formatted (formatCitationTool {| fi_citation := citation; fi_format := mode |}).
Proof.
  split; [|split].
  - unfold resolveDocumentId. now rewrite trim_idempotent.
  - apply parseCitation_trim.
  - unfold formatCitationTool. cbn [fi_citation fi_format formatted].
    now rewrite trim_idempotent.
Qed.

(** ** What a validation result says about the store *)

(** The fields of a result other than the echoed citation. *)
Definition verdict (o : Outcome (ToolResponse ValidateCitationResult)) :=
  match o with
  | Returned res =>
      Some (valid (results res), normalized (results res),
            document_id (results res), document_title (results res),
            ValidateCitation.provision_ref (results res),
            ValidateCitation.status (results res), warnings (results res))
  | TypeError => None
  end.

(** X2.  White space around the citation changes nothing in the verdict. *)
Theorem validateCitationTool_ignores_outer_space (db : Database) (citation : jsstring) :
  verdict (validateCitationTool db (trim citation))
  = verdict (validateCitationTool db citation).
Proof.
  unfold validateCitationTool.
  rewrite parseCitation_trim.
  destruct (parseCitation citation) as [parsed|]; [|reflexivity].
  destruct (resolveDocumentId db (documentRef parsed)) as [docId|]; [|reflexivity].
  destruct (negb (truthy docId)); [reflexivity|].
  destruct (q_document db docId) as [doc|]; [|reflexivity].
  destruct (match sectionRef parsed with
            | Some sec => if truthy sec then Some sec else None
            | None => None
            end) as [sec|]; [|reflexivity].
  destruct (q_provision db _ _ _ _ _); reflexivity.
Qed.


(** X4.  A result with [valid = false] carries no normalised form, provision
    or status, and its last warning says what was not found: the document
    reference (then no document is named) or the provision (then the
    document is named and its status advisories come first). *)
Theorem invalid_result_says_what_is_missing
  (db : Database) (citation : jsstring)
  (res : ToolResponse ValidateCitationResult)
  (Hres : validateCitationTool db citation = Returned res)
  (Hinvalid : valid (results res) = false) :
  normalized (results res) = None
  /\ ValidateCitation.provision_ref (results res) = None
  /\ ValidateCitation.status (results res) = None
  /\ ((exists parsed,
         parseCitation citation = Some parsed
         /\ document_id (results res) = None
         /\ warnings (results res) = [msg_not_found (documentRef parsed)])
      \/ exists doc sec,
           In doc (legal_documents db)
           /\ document_id (results res) = Some (doc_id doc)
           /\ document_title (results res) = Some (doc_title doc)
           /\ warnings (results res)
              = status_warnings (doc_status doc)
                ++ [msg_no_provision sec (doc_title doc)]).
Proof.
  revert Hres. unfold validateCitationTool.
  destruct (parseCitation citation) as [parsed|] eqn:Hparse;
    [|now apply parseCitation_never_null in Hparse].
  assert (Hnf : forall w, Returned {| results := invalid citation [msg_not_found (documentRef parsed)]; _metadata := w |} = Returned res ->
    normalized (results res) = None
    /\ ValidateCitation.provision_ref (results res) = None
    /\ ValidateCitation.status (results res) = None
    /\ ((exists parsed0,
         Some parsed = Some parsed0
         /\ document_id (results res) = None
         /\ warnings (results res) = [msg_not_found (documentRef parsed0)])
      \/ exists doc sec,
           In doc (legal_documents db)
           /\ document_id (results res) = Some (doc_id doc)
           /\ document_title (results res) = Some (doc_title doc)
           /\ warnings (results res)
              = status_warnings (doc_status doc)
                ++ [msg_no_provision sec (doc_title doc)])).
  { intros w H; injection H as <-. cbn. repeat (split; [reflexivity|]).
    left. exists parsed. repeat split. }
  destruct (resolveDocumentId db (documentRef parsed)) as [docId|]; [|apply Hnf].
  destruct (negb (truthy docId)); [apply Hnf|].
  destruct (q_document db docId) as [doc|] eqn:Hq; [|discriminate].
  apply find_some in Hq as [Hin Hid]. apply seqb_eq in Hid.
  destruct (match sectionRef parsed with
            | Some sec => if truthy sec then Some sec else None
            | None => None
            end) as [sec|].
  - destruct (q_provision db _ _ _ _ _) as [p|];
      intros H; injection H as <-; [discriminate Hinvalid|].
    cbn. repeat (split; [reflexivity|]). right. exists doc, sec.
    rewrite <- Hid. repeat split. exact Hin.
  - intros H; injection H as <-. discriminate Hinvalid.
Qed.


Definition sample_invalid : ToolResponse ValidateCitationResult :=
  {| results :=
       {| valid := false;
          citation := str "Section 99, Data Protection Act 2019";
          normalized := None;
          document_id := Some (doc_id dpa_row);
          document_title := Some (doc_title dpa_row);
          ValidateCitation.provision_ref := None;
          ValidateCitation.status := None;
          warnings := [msg_no_provision (str "99") (doc_title dpa_row)] |};
     _metadata := generateResponseMetadata sample_store |}.


Lemma invalid_result_witness :
  validateCitationTool sample_store (str "Section 99, Data Protection Act 2019")
  = Returned sample_invalid
  /\ normalized (results sample_invalid) = None.
Proof.
  assert (Hres : validateCitationTool sample_store
                   (str "Section 99, Data Protection Act 2019")
                 = Returned sample_invalid) by (vm_compute; reflexivity).
  split; [exact Hres|].
  now destruct (@invalid_result_says_what_is_missing sample_store
                  (str "Section 99, Data Protection Act 2019") sample_invalid
                  Hres eq_refl) as [H _].
Defined.

(** ** More on the resolver *)

(** A reference short enough for its [LIKE] pattern to stay within
    SQLite's limit of 50,000 bytes however it is encoded: a code unit takes
    at most three bytes of UTF-8, and the pattern adds two [%]. *)
Definition within_like_limit (input : jsstring) : Prop :=
  (3 * N.of_nat (length (trim input)) + 2 <= 50000)%N.

(** X5.  With [LIKE] as SQLite evaluates it, the fifth lookup adds nothing: the
    result is the identifier of the first row found by the first four. *)
Theorem resolveDocumentId_decided_by_four_lookups
  (db : Database) (input : jsstring) (Hinput : trim input <> [])
  (Hlimit : within_like_limit input) :
  resolveDocumentId db input
  = option_map doc_id
      (first_row [q_direct db (trim input); q_exactTitle db (trim input);
                  q_shortName db (trim input);
                  q_title db (wild (trim input)) (wild (trim input))
                    (wild (trim input))]).
Proof.
  rewrite (resolveDocumentId_cascade db input Hinput). cbv zeta.
  rewrite q_lower_is_q_title. cbn [first_row].
  destruct (q_direct db (trim input)); [reflexivity|].
  destruct (q_exactTitle db (trim input)); [reflexivity|].
  destruct (q_shortName db (trim input)); [reflexivity|].
  destruct (q_title db _ _ _); reflexivity.
Qed.


Lemma four_lookups_witness :
  trim (str "dpa 2019") <> [] /\ within_like_limit (str "dpa 2019")
  /\ resolveDocumentId sample_store (str "dpa 2019")
     = option_map doc_id
         (first_row [q_direct sample_store (str "dpa 2019");
                     q_exactTitle sample_store (str "dpa 2019");
                     q_shortName sample_store (str "dpa 2019");
                     q_title sample_store (wild (str "dpa 2019"))
                       (wild (str "dpa 2019")) (wild (str "dpa 2019"))]).
Proof.
  assert (H : trim (str "dpa 2019") <> []) by (vm_compute; discriminate).
  assert (L : within_like_limit (str "dpa 2019")) by (vm_compute; discriminate).
  split; [exact H|]. split; [exact L|].
  exact (@resolveDocumentId_decided_by_four_lookups sample_store (str "dpa 2019") H L).
Defined.

(** ** References contained in a stored name *)








(** ** More on the matcher: literals, anchors and greedy classes *)

Lemma startsWith_nil (s : jsstring) : startsWith s [] = true.
Proof. now destruct s. Qed.

Lemma startsWith_app (s l m : jsstring) :
  startsWith s (l ++ m) = startsWith s l && startsWith (skipn (length l) s) m.
Proof.
  revert s; induction l as [|a l IH]; intros s; [now destruct s|].
  destruct s as [|b s]; cbn [app startsWith length skipn]; [reflexivity|].
  rewrite IH. now destruct (ceqb a b).
Qed.

(** A case-sensitive literal matches exactly when the input starts with it. *)
Lemma run_lit (R : Type) (l : jsstring) (pos : nat) (s : jsstring) (c : caps)
  (k : cont R) :
  run false (lit l) pos s c k
  = if startsWith s l then k (pos + length l) (skipn (length l) s) c else None.
Proof.
  revert pos s; induction l as [|a l IH]; intros pos s.
  - cbn [lit run length skipn]. now rewrite startsWith_nil, Nat.add_0_r.
  - destruct l as [|b l].
    + cbn [lit run startsWith length]. destruct s as [|x s]; [reflexivity|].
      unfold char_match, canon. cbn [skipn].
      cbn [startsWith]. rewrite startsWith_nil, andb_true_r, Nat.add_1_r.
      reflexivity.
    + change (lit (a :: b :: l)) with (Seq (Chr a) (lit (b :: l))).
      cbn [run]. destruct s as [|x s]; [reflexivity|].
      unfold char_match, canon. cbn [startsWith].
      destruct (ceqb a x); [|reflexivity]. cbn [andb].
      rewrite IH. cbn [length skipn]. now rewrite Nat.add_succ_comm.
Qed.

(** A pattern that opens with a literal finds nothing in an input that
    does not contain the literal. *)
Lemma search_literal_absent (l : jsstring) (rest : regex) (s : jsstring) (pos : nat) :
  includes s l = false -> search_from false (Seq (lit l) rest) pos s = None.
Proof.
  revert pos; induction s as [|x s IH]; intros pos H; cbn [includes] in H;
    apply orb_false_elim in H as [H1 H2]; cbn [search_from]; unfold match_at;
    cbn [run]; rewrite run_lit, H1; [reflexivity|]. now apply IH.
Qed.

(** A pattern anchored with [^] matches at the start of the input or not
    at all. *)
Lemma search_anchored (icase : bool) (rest : regex) (s : jsstring) (pos : nat) :
  search_from icase (Seq Bol rest) (S pos) s = None.
Proof.
  revert pos; induction s as [|x s IH]; intros pos; cbn [search_from];
    unfold match_at; cbn [run Nat.eqb]; [reflexivity | apply IH].
Qed.

Lemma exec_anchored (icase : bool) (rest : regex) (s : jsstring) :
  exec icase (Seq Bol rest) s = match_at icase (Seq Bol rest) 0 s.
Proof.
  unfold exec. destruct s as [|x s]; cbn [search_from].
  - now destruct (match_at icase (Seq Bol rest) 0 []).
  - destruct (match_at icase (Seq Bol rest) 0 (x :: s)); [reflexivity|].
    apply search_anchored.
Qed.

Lemma star_loop_S (R : Type) (body : nat -> jsstring -> caps -> cont R -> option R)
  (greedy : bool) (k : cont R) (fuel pos : nat) (s : jsstring) (c : caps) :
  star_loop body greedy k (S fuel) pos s c
  = let again :=
      body pos s c
        (fun p' s' c' =>
           if Nat.eqb p' pos then None else star_loop body greedy k fuel p' s' c') in
    if greedy then match again with Some x => Some x | None => k pos s c end
    else match k pos s c with Some x => Some x | None => again end.
Proof. reflexivity. Qed.

(** A greedy run over a character class takes every leading character of
    the class when what follows the run then matches. *)
Lemma star_class_greedy (icase : bool) (R : Type) (neg : bool) (items : list citem)
  (k : cont R) (v : R) (y : jsstring) (c : caps) :
  match y with [] => True | h :: _ => class_match icase neg items h = false end ->
  forall (X : jsstring) (fuel pos : nat),
    length X <= fuel ->
    forallb (class_match icase neg items) X = true ->
    k (pos + length X) y c = Some v ->
    star_loop (fun pos s c k => run icase (Cls neg items) pos s c k) true k
      fuel pos (X ++ y) c = Some v.
Proof.
  intros Hy X. set (body := fun pos s c k => run icase (Cls neg items) pos s c k).
  induction X as [|x X IH]; intros fuel pos Hfuel HX Hk.
  - cbn [app length] in *. rewrite Nat.add_0_r in Hk.
    destruct fuel as [|fuel]; [exact Hk|]. rewrite star_loop_S. cbv zeta.
    unfold body at 1. cbn [run]. destruct y as [|h y]; [exact Hk|]. now rewrite Hy.
  - cbn [forallb] in HX. apply andb_prop in HX as [Hx HX].
    destruct fuel as [|fuel].
    + cbn [length] in Hfuel. lia.
    + rewrite star_loop_S. cbv zeta. unfold body at 1. cbn [app run]. rewrite Hx.
      replace (Nat.eqb (S pos) pos) with false
        by (symmetry; apply Nat.eqb_neq; lia).
      rewrite (IH fuel (S pos)); [reflexivity| cbn [length] in Hfuel; lia | exact HX |].
      cbn [length] in Hk. now rewrite Nat.add_succ_comm.
Qed.

Lemma run_Seq (icase : bool) (R : Type) (r1 r2 : regex) (pos : nat) (s : jsstring)
  (c : caps) (k : cont R) :
  run icase (Seq r1 r2) pos s c k
  = run icase r1 pos s c (fun p' s' c' => run icase r2 p' s' c' k).
Proof. reflexivity. Qed.

Lemma run_Group (icase : bool) (R : Type) (n : nat) (r : regex) (pos : nat)
  (s : jsstring) (c : caps) (k : cont R) :
  run icase (Group n r) pos s c k
  = run icase r pos s c (fun p' s' c' => k p' s' ((n, firstn (p' - pos) s) :: c')).
Proof. reflexivity. Qed.

Lemma run_Star (icase : bool) (R : Type) (greedy : bool) (r : regex) (pos : nat)
  (s : jsstring) (c : caps) (k : cont R) :
  run icase (Star greedy r) pos s c k
  = star_loop (fun pos s c k => run icase r pos s c k) greedy k
      (S (length s)) pos s c.
Proof. reflexivity. Qed.

Lemma run_Cls_cons (icase : bool) (R : Type) (neg : bool) (items : list citem)
  (pos : nat) (x : char) (s : jsstring) (c : caps) (k : cont R) :
  run icase (Cls neg items) pos (x :: s) c k
  = if class_match icase neg items x then k (S pos) s c else None.
Proof. reflexivity. Qed.

Lemma run_Chr_cons (icase : bool) (R : Type) (p : char) (pos : nat) (x : char)
  (s : jsstring) (c : caps) (k : cont R) :
  run icase (Chr p) pos (x :: s) c k
  = if char_match icase p x then k (S pos) s c else None.
Proof. reflexivity. Qed.

Lemma run_Bol (icase : bool) (R : Type) (s : jsstring) (c : caps) (k : cont R) :
  run icase Bol 0 s c k = k 0 s c.
Proof. reflexivity. Qed.

Lemma startsWith_prefix (l t : jsstring) : startsWith (l ++ t) l = true.
Proof.
  induction l as [|a l IH]; [apply startsWith_nil|]. cbn [app startsWith].
  unfold ceqb. now rewrite N.eqb_refl.
Qed.

Lemma skipn_prefix (l t : jsstring) : skipn (length l) (l ++ t) = t.
Proof. induction l as [|a l IH]; [reflexivity | exact IH]. Qed.

Lemma firstn_prefix (l t : jsstring) : firstn (length l) (l ++ t) = l.
Proof. induction l as [|a l IH]; [reflexivity | cbn; now rewrite IH]. Qed.

(** The container pattern on an identifier [kind_X__rest], [X] being a
    label without underscore that is not empty: it matches and captures
    [X]. *)
Lemma match_container (kind X rest : jsstring) :
  X <> [] -> forallb (fun c => negb (ceqb 95%N c)) X = true ->
  match_at false (re_container kind) 0 (kind ++ [95%N] ++ X ++ str "__" ++ rest)
  = Some (MRes 0 (length kind + 1 + length X + 2) [(1, X)]).
Proof.
  intros Hne HX. destruct X as [|x X]; [contradiction|].
  cbn [forallb] in HX. apply andb_prop in HX as [Hx HX].
  unfold match_at, re_container. cbn [cat]. unfold Plus.
  rewrite run_Seq, run_Bol, run_Seq, run_lit, startsWith_prefix, skipn_prefix.
  cbn [app]. rewrite run_Seq, run_Chr_cons.
  change (char_match false 95%N 95%N) with true. cbv beta iota.
  unfold not_char. rewrite run_Seq, run_Group, run_Seq, run_Cls_cons.
  assert (Hc : forall c, class_match false true [CChar 95%N] c = negb (ceqb 95%N c)).
  { intros c. unfold class_match. cbn. unfold char_match, canon.
    now rewrite orb_false_r. }
  rewrite Hc, Hx. rewrite run_Star.
  apply star_class_greedy.
  - cbn. reflexivity.
  - rewrite length_app. lia.
  - clear -HX Hc. induction X as [|y X IH]; [reflexivity|].
    cbn [forallb] in *. apply andb_prop in HX as [Hy HX].
    now rewrite Hc, Hy, (IH HX).
  - rewrite run_lit.
    rewrite startsWith_prefix.
    f_equal. f_equal.
    + cbn [length str map list_ascii_of_string]. cbn [length]. lia.
    + replace (S (S (0 + length kind)) + length X - S (0 + length kind))
        with (length (x :: X)) by (cbn [length]; lia).
      do 2 f_equal. exact (firstn_prefix (x :: X) (str "__" ++ rest)).
Qed.

(** ** More on the structural extractor *)

Lemma exec_container (kind s : jsstring) :
  exec false (re_container kind) s = match_at false (re_container kind) 0 s.
Proof. unfold re_container. cbn [cat]. apply exec_anchored. Qed.

Lemma container_fails (kind id : jsstring) :
  startsWith id (kind ++ [95%N]) = false ->
  match_at false (re_container kind) 0 id = None.
Proof.
  intros H. unfold match_at, re_container. cbn [cat].
  rewrite run_Seq, run_Bol, run_Seq, run_lit.
  rewrite startsWith_app in H. destruct (startsWith id kind); [|reflexivity].
  cbn [andb] in H. rewrite run_Seq.
  destruct (skipn (length kind) id) as [|x r]; [reflexivity|].
  rewrite run_Chr_cons. cbn [startsWith] in H.
  rewrite startsWith_nil, andb_true_r in H.
  unfold char_match, canon. now rewrite H.
Qed.

(** X7.  The chapter label is read off the front of the identifier: an
    identifier [part_X__...] gives [Part X] and [chp_X__...] gives
    [Chapter X], for every label [X] that is not empty and has no
    underscore, whatever follows the double underscore (a part nested in a
    chapter is labelled by the chapter). *)
Theorem extractChapter_reads_leading_container (X rest : jsstring)
  (Hne : X <> []) (HX : forallb (fun c => negb (ceqb 95%N c)) X = true) :
  extractChapter (str "part_" ++ X ++ str "__" ++ rest) = Some (str "Part " ++ X)
  /\ extractChapter (str "chp_" ++ X ++ str "__" ++ rest)
     = Some (str "Chapter " ++ X).
Proof.
  split; unfold extractChapter.
  - change (str "part_" ++ X ++ str "__" ++ rest)
      with (str "part" ++ [95%N] ++ X ++ str "__" ++ rest).
    now rewrite exec_container, (match_container _ X rest Hne HX).
  - rewrite exec_container, container_fails by reflexivity.
    change (str "chp_" ++ X ++ str "__" ++ rest)
      with (str "chp" ++ [95%N] ++ X ++ str "__" ++ rest).
    now rewrite exec_container, (match_container _ X rest Hne HX).
Qed.

Lemma extractChapter_container_witness :
  extractChapter (str "part_III__sec_25") = Some (str "Part III")
  /\ extractChapter (str "chp_FOUR__part_III__sec_25") = Some (str "Chapter FOUR").
Proof.
  split.
  - now destruct (@extractChapter_reads_leading_container (str "III") (str "sec_25")
                    ltac:(discriminate) eq_refl) as [H _].
  - now destruct (@extractChapter_reads_leading_container (str "FOUR")
                    (str "part_III__sec_25") ltac:(discriminate) eq_refl) as [_ H].
Defined.


(** X8.  An identifier that starts with neither [part_] nor [chp_] has no
    chapter. *)
Theorem extractChapter_without_container (sectionId : jsstring)
  (Hpart : startsWith sectionId (str "part_") = false)
  (Hchp : startsWith sectionId (str "chp_") = false) :
  extractChapter sectionId = None.
Proof.
  unfold extractChapter.
  rewrite exec_container, (container_fails (str "part")) by exact Hpart.
  now rewrite exec_container, (container_fails (str "chp")) by exact Hchp.
Qed.

Lemma extractChapter_none_witness : extractChapter (str "sec_25") = None.
Proof.
  apply (@extractChapter_without_container (str "sec_25")); reflexivity.
Defined.


(** A heading that does not start with a digit has no section number. *)
Lemma extractSectionNumber_needs_digit (heading : jsstring) :
  match heading with [] => True | c :: _ => is_digit c = false end ->
  extractSectionNumber heading = None.
Proof.
  intros H. unfold extractSectionNumber, re_section_number, Patterns.num.
  cbn [cat]. unfold Plus, Digit. rewrite exec_anchored. unfold match_at.
  rewrite run_Seq, run_Bol, !run_Seq, run_Group, !run_Seq.
  destruct heading as [|c h]; [reflexivity|].
  rewrite run_Cls_cons. unfold class_match. cbn [existsb item_match xorb].
  now rewrite H.
Qed.

(** X9.  A section without an [h3] heading, or whose heading does not start
    with a digit, contributes nothing: no provision and, even under a
    title such as [Interpretation], no definition. *)
Theorem unnumbered_section_is_dropped
  (html : jsstring) (start : SectionStart) (endIndex : nat)
  (acc : list ParsedProvision * list ParsedDefinition)
  (Hheading :
     match heading_of (sectionHtml_of html start endIndex) with
     | None => True
     | Some [] => True
     | Some (c :: _) => is_digit c = false
     end) :
  section_step html start endIndex acc = acc.
Proof.
  destruct acc as [ps ds]. rewrite section_step_eq.
  assert (R : recognise html start endIndex = None).
  { unfold recognise.
    destruct (heading_of (sectionHtml_of html start endIndex)) as [h|];
      [|reflexivity].
    now rewrite extractSectionNumber_needs_digit. }
  unfold pushed, found. rewrite R. now rewrite !app_nil_r.
Qed.

(** A section headed [Schedule] with a definition in it. *)
Definition unnumbered_html : jsstring :=
  section_open "sec_x" ++ str "<h3>Schedule</h3>"
  ++ akn_p "&quot;data&quot; means information of any kind;"
  ++ str "</section>".

Lemma unnumbered_section_witness :
  section_step unnumbered_html {| start_id := str "sec_x"; start_index := 0 |}
    (length unnumbered_html) ([], [])
  = ([], []).
Proof.
  apply (@unnumbered_section_is_dropped unnumbered_html
           {| start_id := str "sec_x"; start_index := 0 |}
           (length unnumbered_html) ([], [])).
  vm_compute. reflexivity.
Defined.


(** X10.  Markup without the text [<section] has no section marker: the result
    has no provisions and no definitions. *)
Theorem markup_without_sections_yields_nothing
  (html : jsstring) (act : ActIndexEntry)
  (Hnone : includes html (str "<section") = false) :
  provisions (parseKenyaLawHtml html act) = []
  /\ definitions (parseKenyaLawHtml html act) = [].
Proof.
  assert (E : sectionStarts html = []).
  { unfold sectionStarts, exec_all. cbn [exec_all_from].
    unfold sectionPattern. cbn [cat].
    now rewrite (search_literal_absent _ _ _ 0 Hnone). }
  destruct (parseKenyaLawHtml_eq html act) as [-> ->]. now rewrite E.
Qed.

Lemma markup_without_sections_witness :
  provisions (parseKenyaLawHtml (str "<html><h3>1. Short title</h3></html>") sample_act)
  = [].
Proof.
  now destruct (@markup_without_sections_yields_nothing
                  (str "<html><h3>1. Short title</h3></html>") sample_act eq_refl)
    as [H _].
Defined.

(** ** What the extractor's output always looks like *)

(** A section number is a prefix of its heading, and starts with a digit. *)
Lemma extractSectionNumber_shape (heading n : jsstring) :
  extractSectionNumber heading = Some n ->
  firstn (length n) heading = n
  /\ exists c rest, n = c :: rest /\ is_digit c = true.
Proof.
  unfold extractSectionNumber.
  destruct (exec false re_section_number heading) as [m|] eqn:E; [|discriminate].
  intros H; injection H as <-. revert E.
  unfold re_section_number, Patterns.num. cbn [cat]. unfold Plus, Digit, Space.
  rewrite exec_anchored. unfold match_at.
  rewrite run_Seq, run_Bol, run_Seq, run_Group, !run_Seq.
  destruct heading as [|x h]; [discriminate|].
  rewrite run_Cls_cons.
  destruct (class_match false false [CDigit] x) eqn:Hx; [|discriminate].
  intros E.
  apply run_reached in E as [p1 [s1 [c1 [R1 E]]]].
  apply run_reached in E as [p2 [s2 [c2 [R2 E]]]].
  rewrite run_Seq in E. destruct s2 as [|y s2]; [discriminate|].
  rewrite run_Chr_cons in E. destruct (char_match false 46%N y); [|discriminate].
  destruct s2 as [|z s2]; [discriminate|].
  rewrite run_Cls_cons in E. destruct (class_match false false [CSpace] z);
    [|discriminate].
  injection E as <-. unfold group. cbn [m_caps get_cap Nat.eqb].
  pose proof (reached_trans _ _ _ _ _ _ R1 R2) as R. unfold reached in R.
  apply andb_prop in R as [_ R]. apply Nat.eqb_eq in R.
  rewrite Nat.sub_0_r. split.
  - rewrite length_firstn. apply firstn_min_length.
  - destruct p2 as [|p2]; [lia|]. cbn [firstn]. exists x, (firstn p2 h).
    split; [reflexivity|]. unfold class_match in Hx. cbn in Hx.
    now rewrite orb_false_r in Hx.
Qed.

(** X11.  Every provision of the result has a section number that starts with
    a digit, the reference [s] or [art] followed by that number, a title
    without white space around it, and more than ten code units of text. *)
Theorem emitted_provisions_are_well_formed
  (html : jsstring) (act : ActIndexEntry) (p : ParsedProvision)
  (Hin : In p (provisions (parseKenyaLawHtml html act))) :
  (exists c rest, section p = c :: rest /\ is_digit c = true)
  /\ (provision_ref p = str "s" ++ section p
      \/ provision_ref p = str "art" ++ section p)
  /\ trim (title p) = title p
  /\ 10 < length (content p).
Proof.
  destruct (parseKenyaLawHtml_eq html act) as [E _]. rewrite E in Hin. clear E.
  apply in_all_pushed in Hin
    as [l1 [start [l2 [headingText [sectionNum [_ [Hrec [Hlen ->]]]]]]]].
  cbn [emit section provision_ref title content].
  split; [|split; [|split]].
  - unfold recognise in Hrec.
    destruct (heading_of _) as [h|]; [|discriminate].
    destruct (extractSectionNumber h) as [n|] eqn:En; [|discriminate].
    destruct (truthy n); [|discriminate]. injection Hrec as _ <-.
    now apply extractSectionNumber_shape in En as [_ En].
  - unfold provisionRef_of. destruct (includes _ _); [now right | now left].
  - unfold extractSectionTitle. apply trim_idempotent.
  - rewrite substring_0, length_firstn. apply Nat.min_glb_lt; [|exact Hlen].
    apply Nat.ltb_lt. vm_compute. reflexivity.
Qed.

Lemma emitted_provisions_witness :
  In sample_provision_25 (provisions (parseKenyaLawHtml sample_html sample_act))
  /\ 10 < length (content sample_provision_25).
Proof.
  assert (H : In sample_provision_25
                (provisions (parseKenyaLawHtml sample_html sample_act)))
    by (vm_compute; auto).
  split; [exact H|].
  apply (@emitted_provisions_are_well_formed sample_html sample_act
           sample_provision_25 H).
Defined.

Lemma added_shape (ref p : jsstring) (d : ParsedDefinition) :
  In d (added ref p) ->
  term d <> [] /\ trim (term d) = term d
  /\ 5 < length (definition d) /\ trim (definition d) = definition d.
Proof.
  unfold added, definition_of.
  generalize (exec true re_definition (stripHtml p)). intros [m|]; [|intros []].
  generalize (group 1 m).
  generalize (replace_first false re_trailing_semicolon [] (group 3 m)).
  intros def tm.
  destruct (Nat.ltb 0 (length (trim tm))) eqn:Ht; [|intros []].
  destruct (Nat.ltb 5 (length (trim def))) eqn:Hd; [|intros []].
  intros [H|[]]. rewrite <- H. cbn [term definition].
  apply Nat.ltb_lt in Ht, Hd. rewrite !trim_idempotent.
  repeat split; try assumption.
  intros E. rewrite E in Ht. cbn in Ht. lia.
Qed.

(** X12.  Every definition of the result has a term that is not empty and a
    text of more than five code units, both without white space around
    them. *)
Theorem extracted_definitions_are_well_formed
  (html : jsstring) (act : ActIndexEntry) (d : ParsedDefinition)
  (Hin : In d (definitions (parseKenyaLawHtml html act))) :
  term d <> [] /\ trim (term d) = term d
  /\ 5 < length (definition d) /\ trim (definition d) = definition d.
Proof.
  destruct (parseKenyaLawHtml_eq html act) as [_ E]. rewrite E in Hin. clear E.
  apply in_all_found in Hin
    as [l1 [start [l2 [headingText [sectionNum [_ [_ [_ [Hd _]]]]]]]]].
  rewrite extractDefinitions_eq in Hd. cbn [app] in Hd.
  apply in_flat_map in Hd as [p [_ Hd]]. exact (added_shape _ p d Hd).
Qed.

Lemma extracted_definitions_witness :
  In sample_definition (definitions (parseKenyaLawHtml sample_html sample_act))
  /\ 5 < length (definition sample_definition).
Proof.
  assert (H : In sample_definition
                (definitions (parseKenyaLawHtml sample_html sample_act)))
    by (vm_compute; auto).
  split; [exact H|].
  apply (@extracted_definitions_are_well_formed sample_html sample_act
           sample_definition H).
Defined.

(** ** Headings *)

Definition is_letter (c : char) : bool :=
  in_range 65%N 90%N c || in_range 97%N 122%N c.

Lemma class_digit (c : char) : class_match false false [CDigit] c = is_digit c.
Proof. unfold class_match. cbn. apply orb_false_r. Qed.

Lemma class_space (c : char) : class_match false false [CSpace] c = is_space c.
Proof. unfold class_match. cbn. apply orb_false_r. Qed.

Lemma class_letters (c : char) :
  class_match false false [CRange 65%N 90%N; CRange 97%N 122%N] c = is_letter c.
Proof. unfold class_match, is_letter. cbn. now rewrite !orb_false_r. Qed.

Lemma letter_is_no_digit (c : char) : is_letter c = true -> is_digit c = false.
Proof.
  unfold is_letter, is_digit, in_range. intros H.
  apply andb_false_iff.
  apply orb_prop in H as [H|H]; apply andb_prop in H as [H1 H2];
    apply N.leb_le in H1, H2; right; apply N.leb_gt; lia.
Qed.

Lemma forallb_class (f g : char -> bool) (l : jsstring) :
  (forall c, f c = g c) -> forallb g l = true -> forallb f l = true.
Proof.
  intros E. induction l as [|x l IH]; [reflexivity|]. cbn [forallb].
  intros H. apply andb_prop in H as [Hx Hl]. now rewrite E, Hx, IH.
Qed.

(** The white space a string starts with. *)
Fixpoint leading_space (s : jsstring) : jsstring :=
  match s with
  | c :: s' => if is_space c then c :: leading_space s' else []
  | [] => []
  end.

Lemma leading_space_split (s : jsstring) : s = leading_space s ++ trimStart s.
Proof.
  induction s as [|c s IH]; [reflexivity|]. cbn [leading_space trimStart].
  destruct (is_space c); [cbn [app]; now f_equal | reflexivity].
Qed.

Lemma leading_space_blank (s : jsstring) : forallb is_space (leading_space s) = true.
Proof.
  induction s as [|c s IH]; [reflexivity|]. cbn [leading_space].
  destruct (is_space c) eqn:E; [cbn [forallb]; now rewrite E | reflexivity].
Qed.

Lemma trim_trimStart (s : jsstring) : trim (trimStart s) = trim s.
Proof.
  unfold trim. now rewrite (trimStart_fixed _ (trimStart_headed s)).
Qed.

Section Heading.

Variables (ds ls : jsstring) (sp : char) (rest : jsstring).

Hypothesis Hds : ds <> [].
Hypothesis Hdigits : forallb is_digit ds = true.
Hypothesis Hletters : forallb is_letter ls = true.
Hypothesis Hsp : is_space sp = true.

Definition numbered : jsstring := ds ++ ls ++ 46%N :: sp :: rest.

(** The number pattern on a numbered heading takes all of [ds] and [ls],
    when what follows it in the pattern then matches. *)
Lemma run_num_numbered (R : Type) (k : cont R) (v : R) (c : caps) :
  k (length ds + length ls) (46%N :: sp :: rest) c = Some v ->
  run false Patterns.num 0 numbered c k = Some v.
Proof.
  intros Hk. unfold Patterns.num, numbered. cbn [cat]. unfold Plus, Digit.
  destruct ds as [|d ds']; [contradiction|].
  cbn [forallb] in Hdigits. apply andb_prop in Hdigits as [Hd Hds'].
  rewrite !run_Seq. cbn [app]. rewrite run_Cls_cons, class_digit, Hd, run_Star.
  apply star_class_greedy.
  - destruct ls as [|l ls']; cbn [app]; [reflexivity|].
    rewrite class_digit. apply letter_is_no_digit.
    cbn [forallb] in Hletters. now apply andb_prop in Hletters as [Hl _].
  - rewrite !length_app. lia.
  - exact (forallb_class _ _ _ class_digit Hds').
  - unfold Patterns.letters. rewrite run_Star.
    apply star_class_greedy.
    + reflexivity.
    + rewrite !length_app. lia.
    + exact (forallb_class _ _ _ class_letters Hletters).
    + rewrite <- Hk. f_equal; cbn [length]; lia.
Qed.

Lemma firstn_numbered : firstn (length ds + length ls) numbered = ds ++ ls.
Proof.
  unfold numbered. rewrite app_assoc, <- length_app. apply firstn_prefix.
Qed.

Lemma skipn_numbered : skipn (length ds + length ls) numbered = 46%N :: sp :: rest.
Proof.
  unfold numbered. rewrite app_assoc, <- length_app. apply skipn_prefix.
Qed.

Lemma extractSectionNumber_numbered :
  extractSectionNumber numbered = Some (ds ++ ls).
Proof.
  unfold extractSectionNumber, re_section_number. cbn [cat].
  rewrite exec_anchored. unfold match_at.
  rewrite run_Seq, run_Bol, run_Seq, run_Group.
  rewrite (run_num_numbered _ _
             (MRes 0 (S (S (length ds + length ls))) [(1, ds ++ ls)]));
    [reflexivity|].
  unfold Space. rewrite run_Seq, run_Chr_cons.
  change (char_match false 46%N 46%N) with true. cbv beta iota.
  rewrite run_Cls_cons, class_space, Hsp.
  now rewrite Nat.sub_0_r, firstn_numbered.
Qed.

Lemma skipn_leading_space (s : jsstring) :
  skipn (length (leading_space s)) s = trimStart s.
Proof.
  rewrite (leading_space_split s) at 2. apply skipn_prefix.
Qed.

Lemma extractSectionTitle_numbered : extractSectionTitle numbered = trim rest.
Proof.
  unfold extractSectionTitle, replace_first, re_section_prefix. cbn [cat].
  rewrite exec_anchored. unfold match_at.
  rewrite run_Seq, run_Bol, run_Seq.
  rewrite (run_num_numbered _ _
             (MRes 0 (S (length ds + length ls)
                      + length (leading_space (sp :: rest))) [])).
  - cbn [m_index m_end firstn app].
    rewrite Nat.add_comm, <- skipn_skipn.
    change (S (length ds + length ls)) with (1 + (length ds + length ls)).
    rewrite <- skipn_skipn, skipn_numbered. cbn [skipn].
    rewrite skipn_leading_space, trim_trimStart.
    unfold trim. cbn [trimStart]. now rewrite Hsp.
  - unfold Space. rewrite run_Seq, run_Chr_cons.
    change (char_match false 46%N 46%N) with true. cbv beta iota.
    rewrite run_Star.
    pose proof (leading_space_split (sp :: rest)) as Hsplit.
    pose proof (leading_space_blank (sp :: rest)) as Hblank.
    pose proof (trimStart_headed (sp :: rest)) as Hhead.
    generalize dependent (leading_space (sp :: rest)).
    generalize dependent (trimStart (sp :: rest)).
    intros y Hhead X -> Hblank.
    apply star_class_greedy.
    + destruct y as [|h t]; [exact I|].
      rewrite class_space. cbn [headed] in Hhead. now apply negb_true_iff in Hhead.
    + rewrite length_app. lia.
    + exact (forallb_class _ _ _ class_space Hblank).
    + reflexivity.
Qed.

End Heading.

(** X13.  A heading made of a number (digits, then letters), a full stop, white
    space and a title splits into that number and that title, the title
    without the white space around it. *)
Theorem numbered_heading_splits
  (ds ls : jsstring) (sp : char) (rest : jsstring)
  (Hds : ds <> []) (Hdigits : forallb is_digit ds = true)
  (Hletters : forallb is_letter ls = true) (Hsp : is_space sp = true) :
  extractSectionNumber (ds ++ ls ++ str "." ++ sp :: rest) = Some (ds ++ ls)
  /\ extractSectionTitle (ds ++ ls ++ str "." ++ sp :: rest) = trim rest.
Proof.
  split.
  - exact (extractSectionNumber_numbered ds ls sp rest Hds Hdigits Hletters Hsp).
  - exact (extractSectionTitle_numbered ds ls sp rest Hds Hdigits Hletters Hsp).
Qed.

Lemma numbered_heading_witness :
  extractSectionNumber (str "25A. Principles  ") = Some (str "25A")
  /\ extractSectionTitle (str "25A. Principles  ") = str "Principles".
Proof.
  apply (@numbered_heading_splits (str "25") (str "A") 32%N (str "Principles  "));
    (discriminate || reflexivity).
Defined.

(** ** Runs of a character class *)

Section ClassRuns.

Variables (neg : bool) (items : list citem).

(** Membership in the class (without the [i] flag). *)
Definition in_class (c : char) : bool := class_match false neg items c.

(** [/[...]+/]: one or more characters of the class. *)
Definition class_run : regex := Plus true (Cls neg items).

(** A string that is empty or starts outside the class. *)
Definition starts_outside (s : jsstring) : Prop :=
  match s with
  | [] => True
  | c :: _ => in_class c = false
  end.

(** What replacing every run of the class by [by_] gives, written as a
    plain scan: [in_run] tells whether the character before was of the
    class. *)
Fixpoint collapse (by_ : jsstring) (in_run : bool) (s : jsstring) : jsstring :=
  match s with
  | [] => []
  | c :: s' =>
      if in_class c then
        if in_run then collapse by_ true s' else by_ ++ collapse by_ true s'
      else c :: collapse by_ false s'
  end.

(** The characters before the first one of the class, and the rest. *)
Fixpoint until_class (s : jsstring) : jsstring :=
  match s with
  | c :: s' => if in_class c then [] else c :: until_class s'
  | [] => []
  end.

Fixpoint from_class (s : jsstring) : jsstring :=
  match s with
  | c :: s' => if in_class c then s else from_class s'
  | [] => []
  end.

(** The leading characters of the class, and the rest. *)
Fixpoint while_class (s : jsstring) : jsstring :=
  match s with
  | c :: s' => if in_class c then c :: while_class s' else []
  | [] => []
  end.

Fixpoint after_class (s : jsstring) : jsstring :=
  match s with
  | c :: s' => if in_class c then after_class s' else s
  | [] => []
  end.

Lemma until_from (s : jsstring) : s = until_class s ++ from_class s.
Proof.
  induction s as [|c s IH]; [reflexivity|]. cbn [until_class from_class].
  destruct (in_class c); [reflexivity | cbn [app]; now f_equal].
Qed.

Lemma until_outside (s : jsstring) :
  forallb (fun c => negb (in_class c)) (until_class s) = true.
Proof.
  induction s as [|c s IH]; [reflexivity|]. cbn [until_class].
  destruct (in_class c) eqn:E; [reflexivity|]. cbn [forallb]. now rewrite E.
Qed.

Lemma from_class_head (s : jsstring) :
  match from_class s with [] => True | c :: _ => in_class c = true end.
Proof.
  induction s as [|c s IH]; [exact I|]. cbn [from_class].
  destruct (in_class c) eqn:E; [exact E | exact IH].
Qed.

Lemma while_after (s : jsstring) : s = while_class s ++ after_class s.
Proof.
  induction s as [|c s IH]; [reflexivity|]. cbn [while_class after_class].
  destruct (in_class c); [cbn [app]; now f_equal | reflexivity].
Qed.

Lemma while_inside (s : jsstring) : forallb in_class (while_class s) = true.
Proof.
  induction s as [|c s IH]; [reflexivity|]. cbn [while_class].
  destruct (in_class c) eqn:E; [|reflexivity]. cbn [forallb]. now rewrite E.
Qed.

Lemma after_outside (s : jsstring) : starts_outside (after_class s).
Proof.
  induction s as [|c s IH]; [exact I|]. cbn [after_class].
  destruct (in_class c) eqn:E; [exact IH | exact E].
Qed.

Lemma match_run_fails (pos : nat) (s : jsstring) :
  starts_outside s -> match_at false class_run pos s = None.
Proof.
  intros H. unfold match_at, class_run, Plus. rewrite run_Seq.
  destruct s as [|c s]; [reflexivity|]. rewrite run_Cls_cons.
  cbn [starts_outside] in H. unfold in_class in H. now rewrite H.
Qed.

Lemma match_run (pos : nat) (x : char) (X y : jsstring) :
  in_class x = true -> forallb in_class X = true -> starts_outside y ->
  match_at false class_run pos (x :: X ++ y)
  = Some (MRes pos (S pos + length X) []).
Proof.
  intros Hx HX Hy. unfold match_at, class_run, Plus.
  rewrite run_Seq, run_Cls_cons. unfold in_class in Hx. rewrite Hx, run_Star.
  apply star_class_greedy.
  - exact Hy.
  - rewrite length_app. lia.
  - exact HX.
  - reflexivity.
Qed.

Lemma search_run (U : jsstring) (x : char) (X y : jsstring) :
  forallb (fun c => negb (in_class c)) U = true ->
  in_class x = true -> forallb in_class X = true -> starts_outside y ->
  forall pos,
    search_from false class_run pos (U ++ x :: X ++ y)
    = Some (MRes (pos + length U) (S (pos + length U) + length X) []).
Proof.
  intros HU Hx HX Hy. induction U as [|u U IH]; intros pos; cbn [app search_from].
  - rewrite (match_run pos x X y Hx HX Hy). cbn [length]. now rewrite Nat.add_0_r.
  - cbn [forallb] in HU. apply andb_prop in HU as [Hu HU].
    apply negb_true_iff in Hu. rewrite match_run_fails by exact Hu.
    rewrite (IH HU (S pos)). cbn [length]. do 2 f_equal; lia.
Qed.

Lemma search_run_none (U : jsstring) :
  forallb (fun c => negb (in_class c)) U = true ->
  forall pos, search_from false class_run pos U = None.
Proof.
  induction U as [|u U IH]; intros HU pos; cbn [search_from].
  - now rewrite match_run_fails.
  - cbn [forallb] in HU. apply andb_prop in HU as [Hu HU].
    apply negb_true_iff in Hu. rewrite match_run_fails by exact Hu. now apply IH.
Qed.

Lemma collapse_outside (by_ : jsstring) (U rest : jsstring) :
  forallb (fun c => negb (in_class c)) U = true ->
  collapse by_ false (U ++ rest) = U ++ collapse by_ false rest.
Proof.
  induction U as [|u U IH]; intros HU; [reflexivity|].
  cbn [forallb] in HU. apply andb_prop in HU as [Hu HU].
  apply negb_true_iff in Hu. cbn [app collapse]. rewrite Hu. now rewrite IH.
Qed.

Lemma collapse_inside (by_ : jsstring) (X y : jsstring) :
  forallb in_class X = true -> starts_outside y ->
  collapse by_ true (X ++ y) = collapse by_ false y.
Proof.
  intros HX Hy. induction X as [|x X IH]; cbn [app].
  - destruct y as [|h y]; [reflexivity|]. cbn [collapse].
    cbn [starts_outside] in Hy. now rewrite Hy.
  - cbn [forallb] in HX. apply andb_prop in HX as [Hx HX].
    cbn [collapse]. rewrite Hx. now apply IH.
Qed.

(** Replacing all matches of [/[...]+/g] is the plain scan. *)
Lemma splice_class_run (by_ : jsstring) (fuel : nat) :
  forall (s : jsstring) (pos : nat),
    length s < fuel ->
    splice pos s by_ (exec_all_from false fuel class_run pos s)
    = collapse by_ false s.
Proof.
  induction fuel as [|fuel IH]; intros s pos Hlen; [lia|].
  cbn [exec_all_from].
  pose proof (until_from s) as Hs. pose proof (until_outside s) as HU.
  pose proof (from_class_head s) as Hhead.
  destruct (from_class s) as [|x F] eqn:EF.
  - rewrite app_nil_r in Hs. rewrite <- Hs in HU.
    rewrite (search_run_none s HU pos). cbn [splice].
    rewrite <- (app_nil_r s) at 2. rewrite (collapse_outside by_ s [] HU).
    cbn [collapse]. now rewrite app_nil_r.
  - pose proof (while_after F) as HF. pose proof (while_inside F) as HX.
    pose proof (after_outside F) as Hy.
    set (U := until_class s) in *. set (X := while_class F) in *.
    set (y := after_class F) in *. clearbody U X y. subst F s.
    rewrite (search_run U x X y HU Hhead HX Hy pos).
    cbn [splice m_index m_end]. rewrite !length_app in *. cbn [length] in *.
    rewrite length_app in *.
    replace (Nat.eqb (S (pos + length U) + length X) (pos + length U)) with false
      by (symmetry; apply Nat.eqb_neq; lia).
    replace (S (pos + length U) + length X - pos) with (length U + S (length X))
      by lia.
    replace (Nat.leb (length U + S (length X))
               (length U + S (length X + length y))) with true
      by (symmetry; apply Nat.leb_le; lia).
    assert (Hskip : skipn (length U + S (length X)) (U ++ x :: X ++ y) = y).
    { rewrite Nat.add_comm, <- skipn_skipn, skipn_prefix.
      change (x :: X ++ y) with ((x :: X) ++ y).
      exact (skipn_prefix (x :: X) y). }
    rewrite !Hskip.
    replace (pos + length U - pos) with (length U) by lia.
    rewrite firstn_prefix, (IH y _ ltac:(lia)).
    rewrite (collapse_outside by_ U _ HU). cbn [collapse]. rewrite Hhead.
    now rewrite (collapse_inside by_ X y HX Hy).
Qed.

Lemma replace_all_class_run (by_ s : jsstring) :
  replace_all false class_run by_ s = collapse by_ false s.
Proof.
  unfold replace_all, exec_all. apply splice_class_run. lia.
Qed.

End ClassRuns.

(** ** White space in the extracted text *)

(** Every white-space code unit is a plain space, and no two of them are
    next to each other. *)
Definition single_spaced (s : jsstring) : Prop :=
  (forall c, In c s -> is_space c = true -> c = 32%N)
  /\ (forall l1 a b l2, s = l1 ++ a :: b :: l2 ->
                        is_space a = true -> is_space b = false).

(** The same, checked from left to right; [after_space] tells whether the
    character before was white space. *)
Fixpoint tidy (after_space : bool) (s : jsstring) : bool :=
  match s with
  | [] => true
  | c :: s' =>
      if is_space c then ceqb c 32%N && negb after_space && tidy true s'
      else tidy false s'
  end.

Lemma tidy_tail (b : bool) (c : char) (s : jsstring) :
  tidy b (c :: s) = true -> tidy (is_space c) s = true.
Proof.
  cbn [tidy]. destruct (is_space c); [|auto].
  intros H. now apply andb_prop in H as [_ H].
Qed.

Lemma tidy_single_spaced (s : jsstring) :
  forall b, tidy b s = true -> single_spaced s.
Proof.
  induction s as [|c s IH]; intros b H.
  - split; [intros c []|]. intros [|x l1] a b' l2 E; discriminate E.
  - pose proof (tidy_tail b c s H) as Ht. destruct (IH _ Ht) as [IH1 IH2]. split.
    + intros x [<-|Hin] Hx; [|now apply IH1].
      cbn [tidy] in H. rewrite Hx in H.
      apply andb_prop in H as [H _]. apply andb_prop in H as [H _].
      now apply N.eqb_eq in H.
    + intros [|x l1] a b' l2 E Ha; cbn [app] in E; injection E as -> ->.
      * rewrite Ha in Ht. cbn [tidy] in Ht.
        destruct (is_space b'); [|reflexivity].
        apply andb_prop in Ht as [Ht _]. apply andb_prop in Ht as [_ Ht].
        discriminate Ht.
      * now apply (IH2 l1 a b' l2).
Qed.

Lemma single_spaced_infix (l m r : jsstring) :
  single_spaced (l ++ m ++ r) -> single_spaced m.
Proof.
  intros [H1 H2]. split.
  - intros c Hin. apply H1. rewrite !in_app_iff. auto.
  - intros l1 a b l2 E. apply (H2 (l ++ l1) a b (l2 ++ r)).
    rewrite E, <- !app_assoc. reflexivity.
Qed.

Lemma trim_infix (s : jsstring) : exists l r, s = l ++ trim s ++ r.
Proof.
  exists (leading_space s), (rev (leading_space (rev (trimStart s)))).
  rewrite (leading_space_split s) at 1. f_equal.
  unfold trim, trimEnd. rewrite <- rev_app_distr, <- leading_space_split.
  now rewrite rev_involutive.
Qed.

Lemma collapse_space_tidy (s : jsstring) :
  tidy false (collapse false [CSpace] (str " ") false s) = true
  /\ tidy true (collapse false [CSpace] (str " ") true s) = true.
Proof.
  change (str " ") with [32%N].
  induction s as [|c s [IH1 IH2]]; [split; reflexivity|].
  cbn [collapse]. unfold in_class. rewrite class_space.
  destruct (is_space c) eqn:E.
  - split; [|exact IH2]. cbn [app tidy].
    change (is_space 32%N) with true. cbv iota.
    now rewrite IH2.
  - cbn [tidy]. rewrite E. now split.
Qed.

(** Text that went through [stripHtml] has its white space normalised:
    every run of white space has become one plain space, and none is left
    at either end. *)
Lemma stripHtml_single_spaced (html : jsstring) :
  single_spaced (stripHtml html) /\ trim (stripHtml html) = stripHtml html.
Proof.
  unfold stripHtml. split; [|apply trim_idempotent].
  change (Plus true Space) with (class_run false [CSpace]).
  rewrite replace_all_class_run.
  match goal with
  | |- single_spaced (trim ?t) =>
      destruct (trim_infix t) as [l [r E]];
      apply (single_spaced_infix l _ r); rewrite <- E
  end.
  apply (tidy_single_spaced _ false). apply collapse_space_tidy.
Qed.

Lemma single_spaced_firstn (n : nat) (s : jsstring) :
  single_spaced s -> single_spaced (firstn n s).
Proof.
  intros H. apply (single_spaced_infix [] _ (skipn n s)).
  cbn [app]. now rewrite firstn_skipn.
Qed.

Lemma trim_headed (s : jsstring) : headed (trim s) = true.
Proof. unfold trim. apply trimEnd_headed, trimStart_headed. Qed.

Lemma headed_firstn (n : nat) (s : jsstring) :
  headed s = true -> headed (firstn n s) = true.
Proof. destruct n, s; auto. Qed.

(** X14.  The text of every provision of the result has normalised white
    space: every white-space code unit in it is a plain space, no two of
    them follow each other, and the text does not start with one. *)
Theorem provision_text_is_single_spaced
  (html : jsstring) (act : ActIndexEntry) (p : ParsedProvision)
  (Hin : In p (provisions (parseKenyaLawHtml html act))) :
  single_spaced (content p) /\ headed (content p) = true.
Proof.
  destruct (parseKenyaLawHtml_eq html act) as [E _]. rewrite E in Hin. clear E.
  apply in_all_pushed in Hin
    as [l1 [start [l2 [headingText [sectionNum [_ [_ [_ ->]]]]]]]].
  cbn [emit content]. rewrite substring_0. unfold stripped_content.
  generalize (replace_first false re_heading_opt []
                (sectionHtml_of html start (end_of html l2))).
  intros text. destruct (stripHtml_single_spaced text) as [Hs Ht].
  pose proof (trim_headed (stripHtml text)) as Hh. rewrite Ht in Hh.
  generalize dependent (stripHtml text). intros t Hs _ Hh. split.
  - exact (single_spaced_firstn content_cap t Hs).
  - exact (headed_firstn content_cap t Hh).
Qed.

Lemma provision_text_witness :
  In sample_provision_25 (provisions (parseKenyaLawHtml sample_html sample_act))
  /\ headed (content sample_provision_25) = true.
Proof.
  assert (H : In sample_provision_25
                (provisions (parseKenyaLawHtml sample_html sample_act)))
    by (vm_compute; auto).
  split; [exact H|].
  exact (proj2 (@provision_text_is_single_spaced sample_html sample_act
                  sample_provision_25 H)).
Defined.

(** ** The HTTP client *)

Section ClientFacts.

Import Fetcher.

Variable w : World.

(** The events of [n] attempts, the first of them numbered [attempt]: a
    [fetch] each, with the back-off wait between two of them. *)
Fixpoint schedule (url : jsstring) (attempt n : nat) : list Event :=
  match n with
  | O => []
  | S O => [EvFetch url]
  | S n' => EvFetch url :: EvSleep (backoff attempt) :: schedule url (S attempt) n'
  end.

(** The response to the [i]-th call of [fetch] counted from [st] was
    answered and asked for a retry. *)
Definition retried (st : NetState) (i : nat) : Prop :=
  exists response,
    w_fetch w (fetch_calls st + i) = inl response /\ retryable response = true.

Lemma attempts_spec (url : jsstring) (maxRetries : nat) :
  forall remaining attempt st,
    attempt + remaining = S maxRetries -> 1 <= remaining ->
    exists n,
      1 <= n <= remaining
      /\ events (snd (attempts w url maxRetries remaining attempt st))
         = events st ++ schedule url attempt n
      /\ fetch_calls (snd (attempts w url maxRetries remaining attempt st))
         = fetch_calls st + n
      /\ clock_reads (snd (attempts w url maxRetries remaining attempt st))
         = clock_reads st
      /\ lastRequestTime (snd (attempts w url maxRetries remaining attempt st))
         = lastRequestTime st
      /\ (forall i, i < n - 1 -> retried st i)
      /\ match fst (attempts w url maxRetries remaining attempt st) with
         | inl result =>
             exists response,
               w_fetch w (fetch_calls st + (n - 1)) = inl response
               /\ resp_text response = inl (body result)
               /\ status result = resp_status response
               /\ Fetcher.url result = resp_url response
               /\ (retryable response = false \/ n = remaining)
         | inr e =>
             w_fetch w (fetch_calls st + (n - 1)) = inr e
             \/ exists response,
                  w_fetch w (fetch_calls st + (n - 1)) = inl response
                  /\ resp_text response = inr e
         end.
Proof.
  induction remaining as [|remaining IH]; intros attempt st Hsum Hpos; [lia|].
  cbn [attempts do_fetch].
  destruct (w_fetch w (fetch_calls st)) as [response|e] eqn:Hf.
  - destruct (retryable response && Nat.ltb attempt maxRetries) eqn:Hretry.
    + apply andb_prop in Hretry as [Hr Hlt]. apply Nat.ltb_lt in Hlt.
      set (st1 := sleep (backoff attempt) _).
      assert (E1 : events st1 = (events st ++ [EvFetch url]) ++ [EvSleep (backoff attempt)])
        by reflexivity.
      assert (E2 : fetch_calls st1 = S (fetch_calls st)) by reflexivity.
      assert (E3 : clock_reads st1 = clock_reads st) by reflexivity.
      assert (E4 : lastRequestTime st1 = lastRequestTime st) by reflexivity.
      destruct (IH (S attempt) st1 ltac:(lia) ltac:(lia))
        as [n [Hn [Hev [Hfc [Hck [Hl [Hprev Hres]]]]]]].
      clearbody st1.
      exists (S n). rewrite Hev, Hfc, Hck, Hl, E1, E2, E3, E4.
      split; [lia|]. split.
      { rewrite <- !app_assoc. cbn [app]. destruct n as [|n]; [lia|]. reflexivity. }
      split; [lia|]. split; [reflexivity|]. split; [reflexivity|]. split.
      { intros i Hi. destruct i as [|i].
        - exists response. now rewrite Nat.add_0_r.
        - destruct (Hprev i ltac:(lia)) as [r [H1 H2]]. exists r.
          split; [|exact H2]. rewrite <- H1. f_equal. lia. }
      assert (Hidx : fetch_calls st + (S n - 1) = fetch_calls st1 + (n - 1)) by lia.
      rewrite Hidx.
      destruct (fst (attempts w url maxRetries remaining (S attempt) st1)).
      * destruct Hres as [r [H1 [H2 [H3 [H4 H5]]]]]. exists r.
        split; [exact H1|]. split; [exact H2|]. split; [exact H3|].
        split; [exact H4|]. destruct H5 as [H5|H5]; [now left | right; lia].
      * exact Hres.
    + exists 1. cbn [Nat.sub]. rewrite Nat.add_0_r.
      assert (Hlast : retryable response = false \/ 1 = S remaining).
      { apply andb_false_iff in Hretry as [Hr|Hlt]; [now left|].
        apply Nat.ltb_ge in Hlt. right. lia. }
      destruct (resp_text response) as [text|e] eqn:Ht; cbn [fst snd events
        fetch_calls clock_reads lastRequestTime schedule];
        (split; [lia|]); (split; [reflexivity|]); (split; [lia|]);
        (split; [reflexivity|]); (split; [reflexivity|]);
        (split; [intros i Hi; lia|]).
      * exists response. split; [exact Hf|]. split; [exact Ht|].
        split; [reflexivity|]. split; [reflexivity | exact Hlast].
      * right. exists response. now split.
  - exists 1. cbn [Nat.sub fst snd events fetch_calls clock_reads lastRequestTime
                   schedule]. rewrite Nat.add_0_r.
    (split; [lia|]); (split; [reflexivity|]); (split; [lia|]);
    (split; [reflexivity|]); (split; [reflexivity|]);
    (split; [intros i Hi; lia|]). now left.
Qed.

End ClientFacts.

Section ClientTheorems.

Import Fetcher.

Variable w : World.

Lemma rateLimit_keeps_fetch_calls (st : NetState) :
  fetch_calls (rateLimit w st) = fetch_calls st.
Proof.
  unfold rateLimit, now. cbn.
  now destruct (_ <? MIN_DELAY_MS)%Z.
Qed.

Lemma fetchWithRateLimit_fetch_calls (url : jsstring) (maxRetries : nat)
  (st : NetState) :
  fetch_calls st + 1 <= fetch_calls (snd (fetchWithRateLimit w url maxRetries st))
  <= fetch_calls st + S maxRetries.
Proof.
  unfold fetchWithRateLimit.
  destruct (attempts_spec w url maxRetries (S maxRetries) 0 (rateLimit w st)
              eq_refl ltac:(lia))
    as [n [Hn [_ [Hfc _]]]].
  rewrite Hfc, rateLimit_keeps_fetch_calls. lia.
Qed.


(** X16.  The result handed back is built from the last answer received.  An
    answer with a retryable status is handed back only when it is the
    answer to request number [maxRetries + 1]: after the last retry the
    failing response is returned, not thrown. *)
Theorem fetchWithRateLimit_returns_the_last_answer
  (url : jsstring) (maxRetries : nat) (st st' : NetState) (result : FetchResult)
  (Hcall : fetchWithRateLimit w url maxRetries st = (inl result, st')) :
  exists n response,
    1 <= n <= S maxRetries
    /\ fetch_calls st' = fetch_calls st + n
    /\ w_fetch w (fetch_calls st + (n - 1)) = inl response
    /\ status result = resp_status response
    /\ resp_text response = inl (body result)
    /\ Fetcher.url result = resp_url response
    /\ (retryable response = true -> n = S maxRetries).
Proof.
  unfold fetchWithRateLimit in Hcall.
  destruct (attempts_spec w url maxRetries (S maxRetries) 0 (rateLimit w st)
              eq_refl ltac:(lia))
    as [n [Hn [_ [Hfc [_ [_ [_ Hres]]]]]]].
  rewrite Hcall in Hres, Hfc. cbn [fst snd] in Hres, Hfc.
  destruct Hres as [r [H1 [H2 [H3 [H4 H5]]]]].
  rewrite rateLimit_keeps_fetch_calls in H1, Hfc.
  exists n, r. repeat (split; [assumption || lia|]).
  intros Hr. destruct H5 as [H5|H5]; [congruence | exact H5].
Qed.


End ClientTheorems.

(** *** Sample environments *)

Definition answer (code : N) (text : jsstring) : Fetcher.Response :=
  {| Fetcher.resp_status := code;
     Fetcher.resp_text := inl text;
     Fetcher.resp_contentType := Some (str "text/html");
     Fetcher.resp_url := act_url sample_act |}.

(** A clock that shows one second more at every reading, and a network
    on which every request is rejected. *)
Definition ticking : Fetcher.World :=
  {| Fetcher.w_clock := fun k => (1000 * Z.of_nat k)%Z;
     Fetcher.w_fetch := fun _ => inr (str "fetch failed") |}.

(** A server that is unavailable for the first two requests and then
    serves the sample page. *)
Definition flaky : Fetcher.World :=
  {| Fetcher.w_clock := fun k => (1000 * Z.of_nat k)%Z;
     Fetcher.w_fetch :=
       fun k => if Nat.ltb k 2 then inl (answer 503 (str "Service Unavailable"))
                else inl (answer 200 sample_html) |}.

(** A server that is never available. *)
Definition down : Fetcher.World :=
  {| Fetcher.w_clock := fun k => (1000 * Z.of_nat k)%Z;
     Fetcher.w_fetch := fun _ => inl (answer 503 (str "Service Unavailable")) |}.

Lemma fetchWithRateLimit_returns_witness :
  let run := Fetcher.fetchWithRateLimit flaky (act_url sample_act) 3 Fetcher.initial in
  fst run = inl {| Fetcher.status := 200; Fetcher.body := sample_html;
                   Fetcher.contentType := str "text/html";
                   Fetcher.url := act_url sample_act |}
  /\ exists n response,
       1 <= n <= 4
       /\ Fetcher.fetch_calls (snd run) = Fetcher.fetch_calls Fetcher.initial + n
       /\ Fetcher.w_fetch flaky (Fetcher.fetch_calls Fetcher.initial + (n - 1))
          = inl response
       /\ Fetcher.resp_status response = 200%N.
Proof.
  intros run. split; [vm_compute; reflexivity|].
  destruct (@fetchWithRateLimit_returns_the_last_answer flaky (act_url sample_act) 3
              Fetcher.initial (snd run)
              {| Fetcher.status := 200; Fetcher.body := sample_html;
                 Fetcher.contentType := str "text/html";
                 Fetcher.url := act_url sample_act |}
              ltac:(vm_compute; reflexivity))
    as [n [response [Hn [Hfc [Hw [Hs _]]]]]].
  exists n, response. repeat split; try assumption; try lia.
  now rewrite <- Hs.
Defined.

(** After the last retry the failing answer is handed back. *)
Example fetchWithRateLimit_gives_up :
  let run := Fetcher.fetchWithRateLimit down (act_url sample_act) 3 Fetcher.initial in
  fst run = inl {| Fetcher.status := 503; Fetcher.body := str "Service Unavailable";
                   Fetcher.contentType := str "text/html";
                   Fetcher.url := act_url sample_act |}
  /\ Fetcher.events (snd run)
     = [Fetcher.EvSleep 500; Fetcher.EvFetch (act_url sample_act);
        Fetcher.EvSleep 2000; Fetcher.EvFetch (act_url sample_act);
        Fetcher.EvSleep 4000; Fetcher.EvFetch (act_url sample_act);
        Fetcher.EvSleep 8000; Fetcher.EvFetch (act_url sample_act)].
Proof. vm_compute. split; reflexivity. Qed.


(** ** The rate limit *)

Section RateLimit.

Import Fetcher.

Variable w : World.

(** X18.  When the clock does not run backwards and a wait lasts at least as
    long as asked, the request time the rate limiter records is at least
    [MIN_DELAY_MS] after the one recorded before.  The limiter reads the
    clock twice and waits at most once, for what is missing of the delay. *)
Theorem rateLimit_keeps_the_minimum_delay (st : NetState)
  (Hclock : (w_clock w (clock_reads st) <= w_clock w (S (clock_reads st)))%Z)
  (Htimer : forall ms, events (rateLimit w st) = events st ++ [EvSleep ms] ->
                       (w_clock w (clock_reads st) + ms
                        <= w_clock w (S (clock_reads st)))%Z) :
  (lastRequestTime st + MIN_DELAY_MS <= lastRequestTime (rateLimit w st))%Z
  /\ lastRequestTime (rateLimit w st) = w_clock w (S (clock_reads st))
  /\ clock_reads (rateLimit w st) = clock_reads st + 2
  /\ (events (rateLimit w st) = events st
      \/ exists ms, (0 < ms)%Z
                    /\ (ms = MIN_DELAY_MS
                             - (w_clock w (clock_reads st) - lastRequestTime st))%Z
                    /\ events (rateLimit w st) = events st ++ [EvSleep ms]).
Proof.
  revert Htimer. unfold rateLimit, now, sleep, set_last.
  cbn [clock_reads fetch_calls lastRequestTime events].
  destruct (Z.ltb_spec (w_clock w (clock_reads st) - lastRequestTime st) MIN_DELAY_MS)
    as [Hlt|Hge]; cbn [clock_reads fetch_calls lastRequestTime events];
    intros Htimer.
  - pose proof (Htimer _ eq_refl) as Ht.
    split; [lia|]. split; [reflexivity|]. split; [lia|].
    right. eexists. split; [|split; reflexivity]. lia.
  - split; [lia|]. split; [reflexivity|]. split; [lia|]. now left.
Qed.

End RateLimit.

Lemma rateLimit_witness :
  (Fetcher.lastRequestTime Fetcher.initial + Fetcher.MIN_DELAY_MS
   <= Fetcher.lastRequestTime (Fetcher.rateLimit ticking Fetcher.initial))%Z.
Proof.
  apply (@rateLimit_keeps_the_minimum_delay ticking Fetcher.initial).
  - vm_compute. discriminate.
  - intros ms H. vm_compute in H. injection H as <-. vm_compute. discriminate.
Defined.

(** ** The command line *)

Section CommandLine.

Import Ingest.

Definition is_flag (flag : string) (a : jsstring) : bool := seqb a (str flag).

(** The loop of [parseArgs] never clears [skipFetch], and sets it only at
    an argument [--skip-fetch]; it leaves [limit] alone when no argument
    is [--limit]. *)
Lemma parseArgs_loop_spec (n : nat) :
  forall (args : list jsstring) (acc : Args),
    length args <= n ->
    (skipFetch (parseArgs_loop args acc) = true ->
     skipFetch acc = true \/ existsb (is_flag "--skip-fetch") args = true)
    /\ (existsb (is_flag "--limit") args = false ->
        limit (parseArgs_loop args acc) = limit acc
        /\ skipFetch (parseArgs_loop args acc)
           = skipFetch acc || existsb (is_flag "--skip-fetch") args).
Proof.
  induction n as [|n IH]; intros args acc Hlen.
  - destruct args; [|cbn [length] in Hlen; lia]. cbn. split; [auto|].
    intros _. now rewrite orb_false_r.
  - destruct args as [|a rest].
    { cbn. split; [auto|]. intros _. now rewrite orb_false_r. }
    cbn [length] in Hlen.
    assert (Hexcl : seqb a (str "--limit") = true ->
                    seqb a (str "--skip-fetch") = false).
    { intros El. apply seqb_eq in El. now subst a. }
    destruct rest as [|next rest'].
    + cbn [parseArgs_loop existsb]. unfold is_flag.
      destruct (seqb a (str "--skip-fetch")) eqn:Es; cbn [skipFetch limit orb].
      * split; [auto|]. intros _. split; [reflexivity|]. now rewrite orb_true_r.
      * split; [auto|]. intros _. split; [reflexivity|]. now rewrite orb_false_r.
    + assert (Hrest : length (next :: rest') <= n) by lia.
      assert (Hrest' : length rest' <= n) by (cbn [length] in Hrest; lia).
      change (parseArgs_loop (a :: next :: rest') acc)
        with (if seqb a (str "--limit") && truthy next then
                parseArgs_loop rest'
                  {| limit := Some (parseInt10 next); skipFetch := skipFetch acc |}
              else if seqb a (str "--skip-fetch") then
                parseArgs_loop (next :: rest')
                  {| limit := limit acc; skipFetch := true |}
              else parseArgs_loop (next :: rest') acc).
      change (existsb (is_flag "--skip-fetch") (a :: next :: rest'))
        with (seqb a (str "--skip-fetch")
              || existsb (is_flag "--skip-fetch") (next :: rest')).
      change (existsb (is_flag "--limit") (a :: next :: rest'))
        with (seqb a (str "--limit")
              || existsb (is_flag "--limit") (next :: rest')).
      destruct (seqb a (str "--limit")) eqn:El.
      * rewrite (Hexcl eq_refl). cbn [andb orb]. split; [|discriminate].
        destruct (truthy next).
        -- intros H. apply (IH rest' _ Hrest') in H. cbn [skipFetch] in H.
           destruct H as [H|H]; [now left|]. right.
           change (existsb (is_flag "--skip-fetch") (next :: rest'))
             with (is_flag "--skip-fetch" next
                   || existsb (is_flag "--skip-fetch") rest').
           rewrite H. apply orb_true_r.
        -- intros H. now apply (IH _ _ Hrest) in H.
      * cbn [andb orb].
        destruct (seqb a (str "--skip-fetch")) eqn:Es; cbn [orb].
        -- split; [intros _; now right|]. intros Hl.
           destruct (IH (next :: rest') {| limit := limit acc; skipFetch := true |}
                       Hrest) as [_ H].
           destruct (H Hl) as [H1 H2]. rewrite H1, H2. cbn [limit skipFetch orb].
           split; [reflexivity|]. now rewrite orb_true_r.
        -- exact (IH (next :: rest') acc Hrest).
Qed.

(** X19.  Without an argument [--limit], no limit is set and every Act of the
    catalog is selected; fetching is skipped exactly when [--skip-fetch]
    is among the arguments. *)
Theorem parseArgs_without_limit (argv : list jsstring)
  (Hnone : existsb (is_flag "--limit") (skipn 2 argv) = false) :
  limit (parseArgs argv) = None
  /\ skipFetch (parseArgs argv) = existsb (is_flag "--skip-fetch") (skipn 2 argv)
  /\ selected_acts (limit (parseArgs argv)) = Catalog.KEY_KENYAN_ACTS.
Proof.
  unfold parseArgs.
  destruct (parseArgs_loop_spec _ (skipn 2 argv)
              {| limit := None; skipFetch := false |} (le_n _)) as [_ H].
  destruct (H Hnone) as [H1 H2]. rewrite H1, H2. repeat split.
Qed.

Lemma parseArgs_witness :
  let argv := [str "node"; str "ingest.ts"; str "--skip-fetch"] in
  existsb (is_flag "--limit") (skipn 2 argv) = false
  /\ skipFetch (parseArgs argv) = true.
Proof.
  intros argv. split; [reflexivity|].
  destruct (@parseArgs_without_limit argv eq_refl) as [_ [H _]]. exact H.
Defined.

(** X20.  Whatever the limit, the Acts selected are the first Acts of the
    catalog, in the order of the catalog: as many as the limit says when
    it is positive, all of them when it is missing, not a number or zero,
    and all but the last [k] when it is [-k]. *)
Theorem selected_acts_is_a_prefix (lim : option JSNumber) :
  exists k,
    selected_acts lim = firstn k Catalog.KEY_KENYAN_ACTS
    /\ match lim with
       | Some (Int z) =>
           if (z =? 0)%Z then k = length Catalog.KEY_KENYAN_ACTS
           else if (0 <? z)%Z then k = Z.to_nat z
           else k = length Catalog.KEY_KENYAN_ACTS - Z.to_nat (- z)
       | _ => k = length Catalog.KEY_KENYAN_ACTS
       end.
Proof.
  unfold selected_acts, limit_given.
  destruct lim as [[|z]|].
  - exists (length Catalog.KEY_KENYAN_ACTS). now rewrite firstn_all.
  - destruct (Z.eqb_spec z 0) as [->|Hz].
    + exists (length Catalog.KEY_KENYAN_ACTS). now rewrite firstn_all.
    + unfold slice0. destruct (Z.ltb_spec z 0) as [Hneg|Hpos].
      * exists (length Catalog.KEY_KENYAN_ACTS - Z.to_nat (- z)).
        destruct (Z.ltb_spec 0 z); [lia|]. split; [|reflexivity].
        f_equal. lia.
      * exists (Z.to_nat z). destruct (Z.ltb_spec 0 z); [|lia]. now split.
  - exists (length Catalog.KEY_KENYAN_ACTS). now rewrite firstn_all.
Qed.

End CommandLine.

(** ** The limit *)

Section Limit.

Import Ingest.








End Limit.

(** ** The ingestion pipeline *)

Section PipelineFacts.

Import Fetcher Ingest.

Variable w : World.
Variable disk : Disk.
Variable JSON_stringify : ParsedAct -> jsstring.
Variable seed_counts : jsstring -> (nat * nat) + jsstring.

(** The two files of an Act. *)
Definition own_path (act : ActIndexEntry) (p : Path) : bool :=
  path_eqb p (sourceFile act) || path_eqb p (seedFile act).

(** The files of the other Acts are as they were. *)
Definition same_elsewhere (act : ActIndexEntry) (st st' : State) : Prop :=
  forall p, own_path act p = false -> files st' p = files st p.

(** At most [r] more requests and [c] more file-system calls. *)
Definition within (r c : nat) (st st' : State) : Prop :=
  fetch_calls (net st) <= fetch_calls (net st') <= fetch_calls (net st) + r
  /\ fs_calls st <= fs_calls st' <= fs_calls st + c.

(** What a round that did not throw has done, [rep] and [st] being the
    report and state before it and [rep'] and [st'] after it: one row was
    added for the Act, the counters moved with it, and the round was one
    of three kinds. *)
Inductive round (skipFetch : bool) (act : ActIndexEntry) (rep : Report) (st : State)
  (rep' : Report) (st' : State) (row : Row) : Prop :=
| round_cached :
    skipFetch = true -> row_status row = str "cached" ->
    skipped rep' = S (skipped rep) -> failed rep' = failed rep ->
    net st' = net st -> files st' = files st ->
    round skipFetch act rep st rep' st' row
| round_failed :
    (exists n, row_status row = str "HTTP " ++ show_N n /\ n <> 200%N)
    \/ (exists msg, row_status row = str "ERROR: " ++ substring 0 80 msg) ->
    row_provisions row = 0 -> row_definitions row = 0 ->
    skipped rep' = skipped rep -> failed rep' = S (failed rep) ->
    round skipFetch act rep st rep' st' row
| round_ok (html : jsstring) :
    row_status row = str "OK" ->
    row_provisions row = length (provisions (parseKenyaLawHtml html act)) ->
    row_definitions row = length (definitions (parseKenyaLawHtml html act)) ->
    skipped rep' = skipped rep -> failed rep' = failed rep ->
    files st' (sourceFile act) = Some html ->
    files st' (seedFile act) = Some (JSON_stringify (parseKenyaLawHtml html act)) ->
    round skipFetch act rep st rep' st' row.

Lemma path_eqb_refl (p : Path) : path_eqb p p = true.
Proof. destruct p as [[|] name]; cbn; apply seqb_refl. Qed.

Lemma source_is_not_seed (act : ActIndexEntry) :
  path_eqb (sourceFile act) (seedFile act) = false.
Proof. reflexivity. Qed.

Lemma own_path_source (act : ActIndexEntry) (p : Path) :
  own_path act p = false -> path_eqb p (sourceFile act) = false.
Proof. unfold own_path. intros H. now apply orb_false_elim in H as [H _]. Qed.

Lemma own_path_seed (act : ActIndexEntry) (p : Path) :
  own_path act p = false -> path_eqb p (seedFile act) = false.
Proof. unfold own_path. intros H. now apply orb_false_elim in H as [_ H]. Qed.

Lemma writeFileSync_spec (p : Path) (data : jsstring) (st : State) :
  match writeFileSync disk p data st with
  | (out, st') =>
      net st' = net st /\ fs_calls st' = S (fs_calls st)
      /\ (forall q, path_eqb q p = false -> files st' q = files st q)
      /\ match out with
         | inl _ => files st' p = Some data
         | inr e => d_fail disk (fs_calls st) = Some e
         end
  end.
Proof.
  unfold writeFileSync. destruct (d_fail disk (fs_calls st)) as [e|];
    cbn [net files fs_calls]; unfold set_file;
    (split; [reflexivity|]); (split; [reflexivity|]);
    (split; [intros q Hq; now rewrite Hq|]);
    [reflexivity | now rewrite path_eqb_refl].
Qed.

Lemma readFileSync_spec (p : Path) (st : State) :
  match readFileSync disk p st with
  | (out, st') =>
      net st' = net st /\ fs_calls st' = S (fs_calls st) /\ files st' = files st
      /\ match out with
         | inl text => files st p = Some text
         | inr e => d_fail disk (fs_calls st) = Some e \/ files st p = None
         end
  end.
Proof.
  unfold readFileSync. destruct (d_fail disk (fs_calls st)) as [e|].
  - repeat split. now left.
  - destruct (files st p) as [text|]; repeat split. now right.
Qed.

Lemma parse_and_store_spec (act : ActIndexEntry) (html : jsstring) (rep : Report)
  (st : State) :
  match parse_and_store disk JSON_stringify act html rep st with
  | (out, st') =>
      net st' = net st /\ fs_calls st' = S (fs_calls st)
      /\ (forall q, path_eqb q (seedFile act) = false -> files st' q = files st q)
      /\ match out with
         | inl rep' =>
             rep' = record_ok act (parseKenyaLawHtml html act) rep
             /\ files st' (seedFile act)
                = Some (JSON_stringify (parseKenyaLawHtml html act))
         | inr e => True
         end
  end.
Proof.
  unfold parse_and_store, bind, ret.
  pose proof (writeFileSync_spec (seedFile act)
                (JSON_stringify (parseKenyaLawHtml html act)) st) as H.
  destruct (writeFileSync disk (seedFile act) _ st) as [[[]|e] st'];
    destruct H as [H1 [H2 [H3 H4]]]; repeat split; assumption.
Qed.

(** The [try] block: what it leaves when it runs to its end, when it ends
    in [continue], and when it throws. *)
Lemma try_block_spec (skipFetch : bool) (act : ActIndexEntry) (rep : Report)
  (st : State) :
  match try_block w disk JSON_stringify skipFetch act rep st with
  | (out, st') =>
      within 4 2 st st' /\ same_elsewhere act st st'
      /\ match out with
         | inl (rep', true) =>
             exists n, rep' = record_http act n rep /\ n <> 200%N
         | inl (rep', false) =>
             exists html,
               rep' = record_ok act (parseKenyaLawHtml html act) rep
               /\ files st' (sourceFile act) = Some html
               /\ files st' (seedFile act)
                  = Some (JSON_stringify (parseKenyaLawHtml html act))
         | inr e => True
         end
  end.
Proof.
  unfold try_block, bind at 1, existsSync.
  destruct ((match files st (sourceFile act) with Some _ => true | None => false end)
            && skipFetch) eqn:Hcached.
  - unfold bind at 1.
    pose proof (readFileSync_spec (sourceFile act) st) as Hread.
    destruct (readFileSync disk (sourceFile act) st) as [[html|e] st1];
      destruct Hread as [R1 [R2 [R3 R4]]].
    + unfold bind, ret.
      pose proof (parse_and_store_spec act html rep st1) as Hps.
      destruct (parse_and_store disk JSON_stringify act html rep st1)
        as [[rep1|e] st2]; destruct Hps as [P1 [P2 [P3 P4]]].
      * destruct P4 as [-> Hseed]. split; [|split].
        -- unfold within. rewrite P1, P2, R1, R2. lia.
        -- intros p Hp. rewrite (P3 p (own_path_seed act p Hp)). now rewrite R3.
        -- exists html. split; [reflexivity|]. split; [|exact Hseed].
           rewrite (P3 _ (source_is_not_seed act)), R3. exact R4.
      * split; [|split; [|exact I]].
        -- unfold within. rewrite P1, P2, R1, R2. lia.
        -- intros p Hp. rewrite (P3 p (own_path_seed act p Hp)). now rewrite R3.
    + split; [|split; [|exact I]].
      * unfold within. rewrite R1, R2. lia.
      * intros p _. now rewrite R3.
  - unfold bind at 1, fetch_page.
    pose proof (fetchWithRateLimit_fetch_calls w (act_url act) 3 (net st)) as Hfc.
    destruct (fetchWithRateLimit w (act_url act) 3 (net st)) as [[result|e] net'];
      cbn [snd] in Hfc.
    + destruct (negb (N.eqb (status result) 200)) eqn:H200.
      * unfold ret. split; [|split].
        -- unfold within. cbn [net fs_calls]. lia.
        -- intros p _. reflexivity.
        -- exists (status result). split; [reflexivity|].
           apply negb_true_iff in H200. now apply N.eqb_neq.
      * unfold bind at 1.
        set (st0 := {| net := net'; files := files st; fs_calls := fs_calls st |}).
        pose proof (writeFileSync_spec (sourceFile act) (body result) st0) as Hw.
        destruct (writeFileSync disk (sourceFile act) (body result) st0)
          as [[[]|e] st1]; destruct Hw as [W1 [W2 [W3 W4]]];
          cbn [net files fs_calls st0] in W1, W2, W3.
        -- unfold bind, ret.
           pose proof (parse_and_store_spec act (body result) rep st1) as Hps.
           destruct (parse_and_store disk JSON_stringify act (body result) rep st1)
             as [[rep1|e] st2]; destruct Hps as [P1 [P2 [P3 P4]]].
           ++ destruct P4 as [-> Hseed]. split; [|split].
              ** unfold within. rewrite P1, P2, W1, W2. lia.
              ** intros p Hp. rewrite (P3 p (own_path_seed act p Hp)).
                 exact (W3 p (own_path_source act p Hp)).
              ** exists (body result). split; [reflexivity|].
                 split; [|exact Hseed].
                 rewrite (P3 _ (source_is_not_seed act)). exact W4.
           ++ split; [|split; [|exact I]].
              ** unfold within. rewrite P1, P2, W1, W2. lia.
              ** intros p Hp. rewrite (P3 p (own_path_seed act p Hp)).
                 exact (W3 p (own_path_source act p Hp)).
        -- split; [|split; [|exact I]].
           ++ unfold within. rewrite W1, W2. lia.
           ++ intros p Hp. exact (W3 p (own_path_source act p Hp)).
    + split; [|split; [|exact I]].
      * unfold within. cbn [net fs_calls]. lia.
      * intros p _. reflexivity.
Qed.

(** One round of the loop. *)
Lemma act_step_spec (skipFetch : bool) (act : ActIndexEntry) (rep : Report)
  (st : State) :
  match Ingest.act_step w disk JSON_stringify seed_counts skipFetch act rep st with
  | (out, st') =>
      within 4 2 st st' /\ same_elsewhere act st st'
      /\ match out with
         | inl rep' =>
             exists row,
               results rep' = results rep ++ [row]
               /\ row_act row = act_shortName act
               /\ processed rep' = S (processed rep)
               /\ totalProvisions rep' = totalProvisions rep + row_provisions row
               /\ totalDefinitions rep' = totalDefinitions rep + row_definitions row
               /\ round skipFetch act rep st rep' st' row
         | inr e =>
             skipFetch = true /\ net st' = net st /\ files st' = files st
             /\ exists text,
                  files st (seedFile act) = Some text
                  /\ (d_fail disk (fs_calls st) = Some e \/ seed_counts text = inr e)
         end
  end.
Proof.
  unfold Ingest.act_step, bind at 1.
  assert (Hseeded :
            (if skipFetch then existsSync (seedFile act) else ret false) st
            = (inl (skipFetch
                    && match files st (seedFile act) with
                       | Some _ => true
                       | None => false
                       end), st)).
  { destruct skipFetch; reflexivity. }
  rewrite Hseeded. clear Hseeded.
  destruct (skipFetch && _) eqn:Hskip.
  - apply andb_prop in Hskip as [-> Hex].
    destruct (files st (seedFile act)) as [text|] eqn:Hseed; [|discriminate].
    unfold bind.
    pose proof (readFileSync_spec (seedFile act) st) as Hread.
    destruct (readFileSync disk (seedFile act) st) as [[text'|e] st1];
      destruct Hread as [R1 [R2 [R3 R4]]].
    + assert (text' = text) by congruence. subst text'.
      destruct (seed_counts text) as [[provCount defCount]|e] eqn:Hcounts.
      * unfold ret. split; [|split].
        -- unfold within. rewrite R1, R2. lia.
        -- intros p _. now rewrite R3.
        -- eexists. cbn. repeat (split; [cbn; (reflexivity || lia)|]).
           now apply round_cached.
      * unfold throw. split; [|split].
        -- unfold within. rewrite R1, R2. lia.
        -- intros p _. now rewrite R3.
        -- repeat (split; [reflexivity || assumption|]). exists text. auto.
    + split; [|split].
      * unfold within. rewrite R1, R2. lia.
      * intros p _. now rewrite R3.
      * repeat (split; [reflexivity || assumption|]). exists text.
        split; [reflexivity|]. destruct R4 as [R4|R4]; [now left | congruence].
  - unfold bind, try_catch, ret.
    pose proof (try_block_spec skipFetch act rep st) as Htry.
    destruct (try_block w disk JSON_stringify skipFetch act rep st)
      as [[[rep1 continued]|msg] st1]; destruct Htry as [Hin [Hsame Hout]];
      (split; [exact Hin|]); (split; [exact Hsame|]).
    + destruct continued; cbn [fst snd].
      * destruct Hout as [n [-> Hn]]. eexists. cbn.
        repeat (split; [cbn; (reflexivity || lia)|]).
        apply round_failed; cbn; try reflexivity. left. now exists n.
      * destruct Hout as [html [-> [Hsrc Hsd]]]. eexists. cbn.
        repeat (split; [cbn; (reflexivity || lia)|]).
        now apply (round_ok _ _ _ _ _ _ _ html).
    + cbn [fst snd]. eexists. cbn.
      repeat (split; [cbn; (reflexivity || lia)|]).
      apply round_failed; cbn; try reflexivity. right. now exists msg.
Qed.

End PipelineFacts.

Section PipelineTheorems.

Import Fetcher Ingest.

Variable w : World.
Variable disk : Disk.
Variable JSON_stringify : ParsedAct -> jsstring.
Variable seed_counts : jsstring -> (nat * nat) + jsstring.

Definition is_cached (row : Row) : bool := seqb (row_status row) (str "cached").
Definition is_ok (row : Row) : bool := seqb (row_status row) (str "OK").
Definition is_failure (row : Row) : bool := negb (is_cached row) && negb (is_ok row).

Definition count (f : Row -> bool) (rows : list Row) : nat := length (filter f rows).

Lemma count_app (f : Row -> bool) (a b : list Row) :
  count f (a ++ b) = count f a + count f b.
Proof. unfold count. now rewrite filter_app, length_app. Qed.

Lemma count_cached_failure (rows : list Row) :
  count is_cached rows + count is_failure rows <= length rows.
Proof.
  unfold count, is_failure.
  induction rows as [|r rs IHr]; cbn [filter length]; [lia|].
  destruct (is_cached r); cbn [negb andb length]; [lia|].
  destruct (is_ok r); cbn [negb andb length]; lia.
Qed.

Lemma round_kind (skipFetch : bool) (act : ActIndexEntry) (rep : Report) (st : State)
  (rep' : Report) (st' : State) (row : Row) :
  round JSON_stringify skipFetch act rep st rep' st' row ->
  skipped rep' = skipped rep + count is_cached [row]
  /\ failed rep' = failed rep + count is_failure [row]
  /\ (skipFetch = false -> skipped rep' = skipped rep).
Proof.
  unfold count, is_failure, is_cached, is_ok. cbn [filter].
  intros [Hc Hs Hsk Hf _ _ | [[n [Hs _]] | [msg Hs]] _ _ Hsk Hf
         | html Hs _ _ Hsk Hf _ _];
    rewrite Hs, Hsk, Hf; cbn; repeat split; try lia; intros E; congruence.
Qed.

(** The message [e] was thrown by a call of the file system for a reason
    of its own, or by reading a seed back. *)
Definition seed_error (e : jsstring) : Prop :=
  (exists n, d_fail disk n = Some e) \/ (exists text, seed_counts text = inr e).

Lemma acts_loop_spec (skipFetch : bool) (acts : list ActIndexEntry) :
  forall (rep : Report) (st : State),
    match Ingest.acts_loop w disk JSON_stringify seed_counts skipFetch acts rep st with
    | (out, st') =>
        within (4 * length acts) (2 * length acts) st st'
        /\ match out with
           | inl rep' =>
               exists rows,
                 results rep' = results rep ++ rows
                 /\ map row_act rows = map act_shortName acts
                 /\ processed rep' = processed rep + length acts
                 /\ totalProvisions rep'
                    = totalProvisions rep + list_sum (map row_provisions rows)
                 /\ totalDefinitions rep'
                    = totalDefinitions rep + list_sum (map row_definitions rows)
                 /\ skipped rep' = skipped rep + count is_cached rows
                 /\ failed rep' = failed rep + count is_failure rows
                 /\ (skipFetch = false -> skipped rep' = skipped rep)
           | inr e =>
               skipFetch = true /\ exists act, In act acts /\ seed_error e
           end
    end.
Proof.
  induction acts as [|act acts IH]; intros rep st; cbn [Ingest.acts_loop length].
  - unfold ret, within. split; [lia|]. exists []. rewrite app_nil_r. cbn.
    repeat split; lia.
  - unfold bind.
    pose proof (act_step_spec w disk JSON_stringify seed_counts skipFetch act rep st)
      as Hstep.
    destruct (Ingest.act_step w disk JSON_stringify seed_counts skipFetch act rep st)
      as [[rep1|e] st1]; destruct Hstep as [[Hfc Hfs] [_ Hout]].
    + destruct Hout as [row [Hres [Hact [Hproc [Hprov [Hdef Hround]]]]]].
      apply round_kind in Hround as [Hsk [Hfl Hno]].
      specialize (IH rep1 st1).
      destruct (Ingest.acts_loop w disk JSON_stringify seed_counts skipFetch acts
                  rep1 st1) as [[rep'|e'] st'];
        destruct IH as [[Hfc' Hfs'] Hrest]; (split; [unfold within; lia|]).
      * destruct Hrest as [rows [H1 [H2 [H3 [H4 [H5 [H6 [H7 H8]]]]]]]].
        exists (row :: rows).
        split; [rewrite H1, Hres, <- app_assoc; reflexivity|].
        split; [cbn [map]; now rewrite Hact, H2|].
        split; [lia|].
        change (row :: rows) with ([row] ++ rows).
        rewrite !count_app. cbn [app map]. unfold list_sum in *. cbn [fold_right].
        repeat split; try lia. intros E. rewrite (H8 E). exact (Hno E).
      * destruct Hrest as [Hs [a [Hin Hc]]]. split; [exact Hs|].
        exists a. split; [now right | exact Hc].
    + destruct Hout as [Hs [_ [_ [text [_ Hc]]]]].
      split; [unfold within; lia|]. split; [exact Hs|].
      exists act. split; [now left|]. unfold seed_error.
      destruct Hc as [Hc|Hc]; [left; eauto | right; eauto].
Qed.

(** The run: both directories are made, then the loop runs from an empty
    report; or making one of the directories throws. *)
Lemma fetchAndParseActs_spec (acts : list ActIndexEntry) (skipFetch : bool)
  (st : State) :
  (exists e st',
      Ingest.fetchAndParseActs w disk JSON_stringify seed_counts acts skipFetch st
      = (inr e, st')
      /\ net st' = net st /\ files st' = files st
      /\ (d_fail disk (fs_calls st) = Some e
          \/ d_fail disk (S (fs_calls st)) = Some e))
  \/ (d_fail disk (fs_calls st) = None /\ d_fail disk (S (fs_calls st)) = None
      /\ Ingest.fetchAndParseActs w disk JSON_stringify seed_counts acts skipFetch st
         = Ingest.acts_loop w disk JSON_stringify seed_counts skipFetch acts
             empty_report (called (called st))).
Proof.
  unfold Ingest.fetchAndParseActs, bind, mkdirSync.
  destruct (d_fail disk (fs_calls st)) as [e|] eqn:E1.
  - left. exists e, (called st). repeat split. now left.
  - cbn [called fs_calls]. destruct (d_fail disk (S (fs_calls st))) as [e|] eqn:E2.
    + left. exists e, (called (called st)). repeat split. now right.
    + right. repeat split.
Qed.

(** X22.  When the run completes, the report accounts for every Act, in the
    order given: one row each under the Act's short name, [Processed]
    equal to the number of Acts, the totals equal to the sums over the rows,
    [Cached] the number of cached rows and [Failed] the number of rows that
    are neither cached nor OK. *)
Theorem report_accounts_for_every_act
  (acts : list ActIndexEntry) (skipFetch : bool) (st st' : State) (rep : Report)
  (Hrun : Ingest.fetchAndParseActs w disk JSON_stringify seed_counts acts skipFetch st
          = (inl rep, st')) :
  map row_act (results rep) = map act_shortName acts
  /\ processed rep = length acts
  /\ totalProvisions rep = list_sum (map row_provisions (results rep))
  /\ totalDefinitions rep = list_sum (map row_definitions (results rep))
  /\ skipped rep = count is_cached (results rep)
  /\ failed rep = count is_failure (results rep)
  /\ skipped rep + failed rep <= processed rep.
Proof.
  destruct (fetchAndParseActs_spec acts skipFetch st)
    as [[e [st0 [H _]]]|[_ [_ Hloop]]]; [congruence|].
  rewrite Hloop in Hrun.
  pose proof (acts_loop_spec skipFetch acts empty_report (called (called st))) as H.
  rewrite Hrun in H. destruct H as [_ [rows [H1 [H2 [H3 [H4 [H5 [H6 [H7 _]]]]]]]]].
  cbn in H1, H3, H4, H5, H6, H7.
  subst rows. repeat (split; [assumption|]).
  rewrite H6, H7, H3, <- (length_map act_shortName), <- H2, length_map.
  apply count_cached_failure.
Qed.


(** X24.  A run asks the network at most four times per Act. *)
Theorem run_makes_at_most_four_requests_per_act
  (acts : list ActIndexEntry) (skipFetch : bool) (st : State) :
  fetch_calls (net (snd (Ingest.fetchAndParseActs w disk JSON_stringify seed_counts
                           acts skipFetch st)))
  <= fetch_calls (net st) + 4 * length acts.
Proof.
  destruct (fetchAndParseActs_spec acts skipFetch st)
    as [[e [st0 [H [Hnet _]]]]|[_ [_ Hloop]]].
  - rewrite H. cbn [snd]. rewrite Hnet. lia.
  - rewrite Hloop.
    pose proof (acts_loop_spec skipFetch acts empty_report (called (called st))) as H.
    destruct (Ingest.acts_loop w disk JSON_stringify seed_counts skipFetch acts
                empty_report (called (called st))) as [out st'].
    destruct H as [[Hfc _] _]. cbn [snd called net] in *. lia.
Qed.

End PipelineTheorems.

Section PipelineRuns.

Import Fetcher Ingest.

Variable w : World.
Variable disk : Disk.
Variable JSON_stringify : ParsedAct -> jsstring.
Variable seed_counts : jsstring -> (nat * nat) + jsstring.

(** The two counts read from the cached seed of an Act. *)
Definition cached_counts (fs : FileSystem) (act : ActIndexEntry) : nat * nat :=
  match fs (seedFile act) with
  | Some text => match seed_counts text with inl counts => counts | inr _ => (0, 0) end
  | None => (0, 0)
  end.

Definition cached_row (fs : FileSystem) (act : ActIndexEntry) : Row :=
  {| row_act := act_shortName act;
     row_provisions := fst (cached_counts fs act);
     row_definitions := snd (cached_counts fs act);
     row_status := str "cached" |}.

Definition readable_seed (fs : FileSystem) (act : ActIndexEntry) : Prop :=
  exists text counts, fs (seedFile act) = Some text /\ seed_counts text = inl counts.

(** No call of the file system among the next [n] throws for a reason of
    its own. *)
Definition disk_is_sound (st : State) (n : nat) : Prop :=
  forall i, i < n -> d_fail disk (fs_calls st + i) = None.

Lemma cached_loop (acts : list ActIndexEntry) (fs : FileSystem) :
  Forall (readable_seed fs) acts ->
  forall rep st,
    files st = fs -> disk_is_sound st (length acts) ->
    Ingest.acts_loop w disk JSON_stringify seed_counts true acts rep st
    = (inl {| processed := processed rep + length acts;
              skipped := skipped rep + length acts;
              failed := failed rep;
              totalProvisions :=
                totalProvisions rep
                + list_sum (map (fun act => fst (cached_counts fs act)) acts);
              totalDefinitions :=
                totalDefinitions rep
                + list_sum (map (fun act => snd (cached_counts fs act)) acts);
              results := results rep ++ map (cached_row fs) acts |},
       {| net := net st; files := fs; fs_calls := fs_calls st + length acts |}).
Proof.
  induction 1 as [|act acts [text [[provCount defCount] [Hfile Hcounts]]] _ IH];
    intros rep st Hfs Hdisk.
  - cbn. unfold ret. rewrite !Nat.add_0_r, app_nil_r. subst fs.
    now destruct rep, st.
  - cbn [Ingest.acts_loop]. unfold bind at 1, Ingest.act_step, bind at 1, existsSync.
    rewrite Hfs, Hfile. unfold bind at 1, readFileSync.
    pose proof (Hdisk 0 ltac:(cbn [length]; lia)) as H0.
    rewrite Nat.add_0_r in H0. rewrite H0, Hfs, Hfile, Hcounts. unfold ret.
    rewrite (IH _ (called st)).
    + unfold record_cached, cached_row, cached_counts.
      cbn [processed skipped failed totalProvisions totalDefinitions results
           map length called net fs_calls files].
      rewrite Hfile, Hcounts. cbn [fst snd].
      unfold list_sum. cbn [fold_right]. rewrite <- app_assoc. cbn [app].
      f_equal; [f_equal; f_equal; (reflexivity || lia) | f_equal; lia].
    + exact Hfs.
    + intros i Hi. cbn [called fs_calls].
      replace (S (fs_calls st) + i) with (fs_calls st + S i) by lia.
      apply Hdisk. cbn [length]. lia.
Qed.

(** X25.  With [--skip-fetch], when every Act has a seed that can be read back
    and the file system does not fail, the run asks the network nothing
    and writes no file, and every Act is reported as cached with the
    counts read from its seed. *)
Theorem cached_run_touches_nothing
  (acts : list ActIndexEntry) (st : State)
  (Hseeds : Forall (readable_seed (files st)) acts)
  (Hdisk : disk_is_sound st (length acts + 2)) :
  exists rep st',
    Ingest.fetchAndParseActs w disk JSON_stringify seed_counts acts true st
    = (inl rep, st')
    /\ net st' = net st /\ files st' = files st
    /\ results rep = map (cached_row (files st)) acts
    /\ processed rep = length acts /\ skipped rep = length acts /\ failed rep = 0
    /\ totalProvisions rep = list_sum (map row_provisions (results rep))
    /\ totalDefinitions rep = list_sum (map row_definitions (results rep)).
Proof.
  destruct (fetchAndParseActs_spec w disk JSON_stringify seed_counts acts true st)
    as [[e [st0 [_ [_ [_ Hdir]]]]]|[_ [_ Hloop]]].
  - pose proof (Hdisk 0 ltac:(lia)) as H0. pose proof (Hdisk 1 ltac:(lia)) as H1.
    rewrite Nat.add_0_r in H0. rewrite Nat.add_1_r in H1.
    destruct Hdir; congruence.
  - rewrite Hloop.
    rewrite (cached_loop acts (files st) Hseeds empty_report (called (called st))).
    + do 2 eexists. split; [reflexivity|].
      cbn [processed skipped failed totalProvisions totalDefinitions results
           empty_report app Nat.add net files called].
      rewrite !map_map. repeat split.
    + reflexivity.
    + intros i Hi. cbn [called fs_calls].
      replace (S (S (fs_calls st)) + i) with (fs_calls st + (i + 2)) by lia.
      apply Hdisk. lia.
Qed.

(** *** Files after a run *)

(** A round touches no file but the two of its Act. *)
Lemma act_step_files (skipFetch : bool) (act : ActIndexEntry) (rep : Report)
  (st : State) (p : Path) :
  own_path act p = false ->
  files (snd (Ingest.act_step w disk JSON_stringify seed_counts skipFetch act rep st)) p
  = files st p.
Proof.
  intros Hp.
  pose proof (act_step_spec w disk JSON_stringify seed_counts skipFetch act rep st)
    as H.
  destruct (Ingest.act_step w disk JSON_stringify seed_counts skipFetch act rep st)
    as [out st']. destruct H as [_ [Hsame _]]. exact (Hsame p Hp).
Qed.

Lemma acts_loop_files (skipFetch : bool) (acts : list ActIndexEntry) (p : Path) :
  Forall (fun act => own_path act p = false) acts ->
  forall rep st,
    files (snd (Ingest.acts_loop w disk JSON_stringify seed_counts skipFetch acts
                  rep st)) p
    = files st p.
Proof.
  induction 1 as [|act acts Hp _ IH]; intros rep st; cbn [Ingest.acts_loop];
    [reflexivity|]. unfold bind.
  pose proof (act_step_files skipFetch act rep st p Hp) as Hstep.
  destruct (Ingest.act_step w disk JSON_stringify seed_counts skipFetch act rep st)
    as [[rep'|e] st']; cbn [snd] in *; [|exact Hstep].
  now rewrite IH.
Qed.

Lemma seqb_neq (a b : jsstring) : a <> b -> seqb a b = false.
Proof.
  intros H. destruct (seqb a b) eqn:E; [|reflexivity].
  apply seqb_eq in E. contradiction.
Qed.

(** Acts with different identifiers have different files. *)
Lemma own_path_other (a b : ActIndexEntry) :
  act_id a <> act_id b ->
  own_path b (sourceFile a) = false /\ own_path b (seedFile a) = false.
Proof.
  intros Hid. unfold own_path, path_eqb, sourceFile, seedFile. cbn [fst snd].
  rewrite !orb_false_r. cbn [orb].
  split; apply seqb_neq; intros E; apply app_inv_tail in E; contradiction.
Qed.

(** What an OK row says about the files: the source page of the Act is
    stored, its seed is the serialised result of parsing that page, and
    the row's counts are those of that result. *)
Definition seed_matches_source (st : State) (act : ActIndexEntry) (row : Row)
  : Prop :=
  exists html,
    files st (sourceFile act) = Some html
    /\ files st (seedFile act) = Some (JSON_stringify (parseKenyaLawHtml html act))
    /\ row_provisions row = length (provisions (parseKenyaLawHtml html act))
    /\ row_definitions row = length (definitions (parseKenyaLawHtml html act)).

Lemma ok_round (skipFetch : bool) (act : ActIndexEntry) (rep : Report) (st : State)
  (rep' : Report) (st' : State) (row : Row) :
  round JSON_stringify skipFetch act rep st rep' st' row ->
  is_ok row = true -> seed_matches_source st' act row.
Proof.
  unfold is_ok.
  intros [_ Hs _ _ _ _|[[n [Hs _]]|[msg Hs]] _ _ _ _|html _ Hp Hd _ _ Hsrc Hseed];
    try (rewrite Hs; discriminate).
  intros _. now exists html.
Qed.

Lemma ok_rows_loop (skipFetch : bool) (acts : list ActIndexEntry) :
  NoDup (map act_id acts) ->
  forall rep st rep' st',
    Ingest.acts_loop w disk JSON_stringify seed_counts skipFetch acts rep st
    = (inl rep', st') ->
    exists rows,
      results rep' = results rep ++ rows
      /\ Forall2 (fun act row => is_ok row = true -> seed_matches_source st' act row)
           acts rows.
Proof.
  induction acts as [|act acts IH]; intros Hnd rep st rep' st' Hrun.
  - cbn in Hrun. injection Hrun as <- <-. exists []. now rewrite app_nil_r.
  - cbn [map] in Hnd. apply NoDup_cons_iff in Hnd as [Hfresh Hnd].
    cbn [Ingest.acts_loop] in Hrun. unfold bind in Hrun.
    pose proof (act_step_spec w disk JSON_stringify seed_counts skipFetch act rep st)
      as Hstep.
    destruct (Ingest.act_step w disk JSON_stringify seed_counts skipFetch act rep st)
      as [[rep1|e] st1]; [|discriminate].
    destruct Hstep as [_ [_ [row [Hres [_ [_ [_ [_ Hround]]]]]]]].
    destruct (IH Hnd rep1 st1 rep' st' Hrun) as [rows [Hrows Hall]].
    exists (row :: rows). split.
    + rewrite Hrows, Hres, <- app_assoc. reflexivity.
    + constructor; [|exact Hall]. intros Hok.
      destruct (ok_round _ _ _ _ _ _ _ Hround Hok) as [html [H1 [H2 [H3 H4]]]].
      assert (Hothers : forall p,
                Forall (fun b => own_path b p = false) acts ->
                files st' p = files st1 p).
      { intros p Hp.
        pose proof (acts_loop_files skipFetch acts p Hp rep1 st1) as Hf.
        now rewrite Hrun in Hf. }
      assert (Hsrc : Forall (fun b => own_path b (sourceFile act) = false) acts
                     /\ Forall (fun b => own_path b (seedFile act) = false) acts).
      { split; apply Forall_forall; intros b Hb;
          apply (own_path_other act b); intros E; apply Hfresh; rewrite E;
          now apply in_map. }
      destruct Hsrc as [Hsrc Hseed].
      exists html. repeat split; try assumption.
      * rewrite (Hothers (sourceFile act) Hsrc). exact H1.
      * rewrite (Hothers (seedFile act) Hseed). exact H2.
Qed.

Lemma Forall2_combine (A B : Type) (P : A -> B -> Prop) (l : list A) (m : list B) :
  Forall2 P l m -> forall a b, In (a, b) (combine l m) -> P a b.
Proof.
  induction 1 as [|x y l m Hxy _ IH]; intros a b; cbn [combine]; [intros []|].
  intros [E|Hin]; [now injection E as <- <- | now apply IH].
Qed.

(** X26.  After a run over Acts with pairwise different identifiers, every row
    that says OK is backed by the files: the seed of its Act is the
    serialised result of parsing the stored source page, and the row's
    counts are those of that result. *)
Theorem ok_rows_have_matching_seeds
  (acts : list ActIndexEntry) (skipFetch : bool) (st st' : State) (rep : Report)
  (Hids : NoDup (map act_id acts))
  (Hrun : Ingest.fetchAndParseActs w disk JSON_stringify seed_counts acts skipFetch st
          = (inl rep, st')) :
  forall act row,
    In (act, row) (combine acts (results rep)) ->
    row_status row = str "OK" ->
    seed_matches_source st' act row.
Proof.
  destruct (fetchAndParseActs_spec w disk JSON_stringify seed_counts acts skipFetch st)
    as [[e [st0 [H _]]]|[_ [_ Hloop]]]; [congruence|].
  rewrite Hloop in Hrun.
  destruct (ok_rows_loop skipFetch acts Hids _ _ _ _ Hrun) as [rows [Hrows Hall]].
  cbn [results empty_report app] in Hrows. rewrite Hrows.
  intros act row Hin Hok.
  apply (Forall2_combine _ _ _ _ _ Hall act row Hin).
  unfold is_ok. rewrite Hok. reflexivity.
Qed.

End PipelineRuns.

(** *** The whole run *)

Section Main.

Import Fetcher Ingest.

Variable w : World.
Variable disk : Disk.
Variable JSON_stringify : ParsedAct -> jsstring.
Variable seed_counts : jsstring -> (nat * nat) + jsstring.

(** X27.  Without [--skip-fetch] among the arguments, once the two directories
    are made the program runs to its report, whatever the network answers
    and whatever else fails: it reports the selected Acts in order, none
    of them as cached, after at most four requests for each. *)
Theorem main_without_skip_fetch_completes (argv : list jsstring) (st : State)
  (Hno : existsb (is_flag "--skip-fetch") (skipn 2 argv) = false)
  (Hdirs : d_fail disk (fs_calls st) = None
           /\ d_fail disk (S (fs_calls st)) = None) :
  exists rep st',
    Ingest.main w disk JSON_stringify seed_counts argv st = (inl rep, st')
    /\ map row_act (results rep)
       = map act_shortName (selected_acts (limit (parseArgs argv)))
    /\ processed rep = length (selected_acts (limit (parseArgs argv)))
    /\ skipped rep = 0
    /\ fetch_calls (net st') <= fetch_calls (net st) + 4 * processed rep.
Proof.
  unfold Ingest.main.
  assert (Hskip : skipFetch (parseArgs argv) = false).
  { destruct (skipFetch (parseArgs argv)) eqn:E; [|reflexivity].
    unfold parseArgs in E.
    destruct (parseArgs_loop_spec _ (skipn 2 argv)
                {| limit := None; skipFetch := false |} (le_n _)) as [H _].
    destruct (H E) as [H'|H']; [discriminate H' | congruence]. }
  rewrite Hskip.
  generalize (selected_acts (limit (parseArgs argv))). intros acts.
  destruct (fetchAndParseActs_spec w disk JSON_stringify seed_counts acts false st)
    as [[e [st0 [_ [_ [_ Hdir]]]]]|[_ [_ Hloop]]].
  - destruct Hdirs, Hdir; congruence.
  - rewrite Hloop.
    pose proof (acts_loop_spec w disk JSON_stringify seed_counts false acts
                  empty_report (called (called st))) as H.
    destruct (Ingest.acts_loop w disk JSON_stringify seed_counts false acts
                empty_report (called (called st))) as [[rep|e] st'];
      destruct H as [[Hfc _] H].
    + destruct H as [rows [H1 [H2 [H3 [_ [_ [_ [_ H8]]]]]]]].
      cbn in H1, H3. subst rows. exists rep, st'.
      split; [reflexivity|]. split; [exact H2|]. split; [exact H3|].
      split; [exact (H8 eq_refl)|]. rewrite H3. cbn [called net] in Hfc. lia.
    + now destruct H as [H _].
Qed.

End Main.

(** *** The catalog *)

Fixpoint distinct (l : list jsstring) : bool :=
  match l with
  | [] => true
  | x :: l' => negb (existsb (seqb x) l') && distinct l'
  end.

Lemma distinct_NoDup (l : list jsstring) : distinct l = true -> NoDup l.
Proof.
  induction l as [|x l IH]; cbn [distinct]; intros H; constructor;
    apply andb_prop in H as [Hx Hl].
  - intros Hin. apply negb_true_iff in Hx.
    assert (E : existsb (seqb x) l = true).
    { apply existsb_exists. exists x. split; [exact Hin | apply seqb_refl]. }
    congruence.
  - now apply IH.
Qed.

Lemma NoDup_firstn (A : Type) (k : nat) (l : list A) : NoDup l -> NoDup (firstn k l).
Proof.
  intros H. rewrite <- (firstn_skipn k l) in H.
  exact (NoDup_app_remove_r _ _ H).
Qed.

(** X28.  Whatever the limit, the Acts selected from the catalog have pairwise
    different identifiers, so no two of them share a source or seed
    file. *)
Theorem selected_acts_have_distinct_ids (lim : option Ingest.JSNumber) :
  NoDup (map act_id (Ingest.selected_acts lim)).
Proof.
  assert (H : NoDup (map act_id Catalog.KEY_KENYAN_ACTS))
    by (apply distinct_NoDup; vm_compute; reflexivity).
  unfold Ingest.selected_acts. destruct (Ingest.limit_given lim) as [z|]; [|exact H].
  unfold Ingest.slice0. destruct (z <? 0)%Z; rewrite <- firstn_map;
    now apply NoDup_firstn.
Qed.

(** *** Sample runs *)

(** Stand-ins for the JSON codec in the sample runs: the seed text is the
    Act's identifier followed by the two counts, each as a line of marks;
    reading an empty file back fails as [JSON.parse] does. *)
Definition marks (n : nat) : jsstring := repeat 124%N n ++ [10%N].

Definition sample_stringify (parsed : ParsedAct) : jsstring :=
  id parsed ++ [10%N] ++ marks (length (provisions parsed))
  ++ marks (length (definitions parsed)).

Fixpoint count_marks (s : jsstring) : nat * jsstring :=
  match s with
  | [] => (0, [])
  | c :: s' =>
      if ceqb c 124%N then let '(n, r) := count_marks s' in (S n, r) else (0, s')
  end.

Definition sample_seed_counts (text : jsstring) : (nat * nat) + jsstring :=
  match text with
  | [] => inr (str "Unexpected end of JSON input")
  | _ =>
      let body := skipn (S (length (split_head 10%N text))) text in
      let '(provCount, r) := count_marks body in
      inl (provCount, fst (count_marks r))
  end.

(** A file system on which no call fails, and one on which no directory
    can be made. *)
Definition sound : Ingest.Disk :=
  {| Ingest.d_fail := fun _ => None; Ingest.d_torn := fun _ => None |}.

Definition read_only : Ingest.Disk :=
  {| Ingest.d_fail := fun _ => Some (str "EROFS: read-only file system");
     Ingest.d_torn := fun _ => None |}.

Definition no_files : Ingest.FileSystem := fun _ => None.

Definition fresh : Ingest.State :=
  {| Ingest.net := Fetcher.initial; Ingest.files := no_files; Ingest.fs_calls := 0 |}.

(** The state after the sample page was ingested once. *)
Definition ingested : Ingest.State :=
  snd (Ingest.fetchAndParseActs flaky sound sample_stringify sample_seed_counts
         [sample_act] false fresh).


Definition ok_row : Ingest.Row :=
  {| Ingest.row_act := str "DPA 2019"; Ingest.row_provisions := 2;
     Ingest.row_definitions := 1; Ingest.row_status := str "OK" |}.

Definition ok_report : Ingest.Report :=
  {| Ingest.processed := 1; Ingest.skipped := 0; Ingest.failed := 0;
     Ingest.totalProvisions := 2; Ingest.totalDefinitions := 1;
     Ingest.results := [ok_row] |}.

Lemma sample_run :
  Ingest.fetchAndParseActs flaky sound sample_stringify sample_seed_counts
    [sample_act] false fresh
  = (inl ok_report, ingested).
Proof. vm_compute. reflexivity. Qed.

(** On a read-only file system the run stops at the first directory. *)
Example read_only_run :
  fst (Ingest.fetchAndParseActs flaky read_only sample_stringify sample_seed_counts
         [sample_act] false fresh)
  = inr (str "EROFS: read-only file system").
Proof. vm_compute. reflexivity. Qed.

Lemma report_witness :
  map Ingest.row_act (Ingest.results ok_report) = map act_shortName [sample_act]
  /\ Ingest.processed ok_report = 1.
Proof.
  destruct (@report_accounts_for_every_act flaky sound sample_stringify
              sample_seed_counts [sample_act] false fresh ingested ok_report
              sample_run)
    as [H1 [H2 _]].
  split; [exact H1 | exact H2].
Defined.


Lemma cached_run_witness :
  exists rep st',
    Ingest.fetchAndParseActs ticking sound sample_stringify sample_seed_counts
      [sample_act] true ingested
    = (inl rep, st')
    /\ Ingest.files st' = Ingest.files ingested
    /\ Ingest.results rep
       = [{| Ingest.row_act := str "DPA 2019"; Ingest.row_provisions := 2;
             Ingest.row_definitions := 1; Ingest.row_status := str "cached" |}].
Proof.
  destruct (@cached_run_touches_nothing ticking sound sample_stringify
              sample_seed_counts [sample_act] ingested)
    as [rep [st' [Hrun [_ [Hfiles [Hres _]]]]]].
  - constructor; [|constructor].
    exists (sample_stringify (parseKenyaLawHtml sample_html sample_act)), (2, 1).
    split; vm_compute; reflexivity.
  - intros i _. reflexivity.
  - exists rep, st'. split; [exact Hrun|]. split; [exact Hfiles|].
    rewrite Hres. vm_compute. reflexivity.
Defined.

Lemma ok_rows_witness :
  seed_matches_source sample_stringify ingested sample_act ok_row.
Proof.
  apply (@ok_rows_have_matching_seeds flaky sound sample_stringify
           sample_seed_counts [sample_act] false fresh ingested ok_report).
  - repeat constructor. intros [].
  - exact sample_run.
  - left. reflexivity.
  - reflexivity.
Defined.

Lemma main_witness :
  let argv := [str "node"; str "ingest.ts"; str "--limit"; str "2"] in
  exists rep st',
    Ingest.main down sound sample_stringify sample_seed_counts argv fresh
    = (inl rep, st')
    /\ map Ingest.row_act (Ingest.results rep) = [str "DPA 2019"; str "CMCA 2018"]
    /\ Ingest.skipped rep = 0.
Proof.
  intros argv.
  destruct (@main_without_skip_fetch_completes down sound sample_stringify
              sample_seed_counts argv fresh eq_refl (conj eq_refl eq_refl))
    as [rep [st' [Hrun [Hrows [_ [Hsk _]]]]]].
  exists rep, st'. split; [exact Hrun|]. split; [|exact Hsk].
  rewrite Hrows. vm_compute. reflexivity.
Defined.
